(** * Discrete functional decoding: [nimare/decode/discrete.py]

    A shallow embedding of the three decoders of the module
    ([gclda_decode_roi], [brainmap_decode], [neurosynth_decode]) together
    with the properties their specification states about them.

    Conventions of the embedding.
    - Python [int]s and the entries of integer arrays are [Z].
    - A float64 is an [npfloat]: an exact rational, one of the two
      infinities, or NaN.  Arithmetic follows the IEEE rules for the
      special values (x/0, inf-inf, 0*inf, NaN propagation); finite
      results are exact, that is, rounding and overflow are left out.
      Zero has no sign: the zero divisors met here are counts and ratios
      of counts, that is +0.  Counts, errors and shapes do not depend
      on rounding; an equation between two values that are computed along
      different ways is one of exact arithmetic, and need not hold to the
      last place in the program.  [F64] gives the rounding of float64, and
      the arithmetic of the topic decoder and of the effect sizes of
      [neurosynth_decode] is written out with it a second time, to show
      where the two differ.
    - A 1-d array is a [list]; a 2-d array carries its number of columns,
      so that an array with no rows still has a shape.
    - A raised exception is the [Raise] branch of [result].
    - The functions of [nimare.stats] and [nimare.decode.utils], of
      statsmodels and [scipy.special], and the reading of files are
      parameters of the decoders; [multipletests] is one that may raise.
      [scipy.stats.binom.cdf] is the cumulative binomial probability.
      Python 3 is assumed: [/] is true division.  [df.loc] with a list of
      labels raises for a label that is missing. *)

From Stdlib Require Import QArith Qcanon ZArith String List Lia.
From stdpp Require Import base decidable option list sorting numbers
  strings gmap sets.

Local Open Scope string_scope.
Local Open Scope Z_scope.

(** ** Exceptions *)

Inductive exn : Set :=
| IOError | ValueError | KeyError | IndexError | ZeroDivisionError.

Inductive result (A : Type) : Type :=
| Ok (a : A)
| Raise (e : exn).
Arguments Ok {A} a.
Arguments Raise {A} e.

Global Instance result_ret : MRet result := λ A a, Ok a.
Global Instance result_bind : MBind result := λ A B f m,
  match m with Ok a => f a | Raise e => Raise e end.
Global Instance result_fmap : FMap result := λ A B f m,
  match m with Ok a => Ok (f a) | Raise e => Raise e end.

Definition is_Ok {A} (m : result A) : Prop := ∃ a, m = Ok a.

(** ** float64 values *)

Module Np.

Inductive npfloat : Type :=
| Fin (q : Qc)
| PInf
| NInf
| NaN.

Global Instance npfloat_eq_dec : EqDecision npfloat.
Proof. solve_decision. Defined.

Definition of_Z (z : Z) : npfloat := Fin (Qc_of_Z z).
Definition of_nat (n : nat) : npfloat := of_Z (Z.of_nat n).

(** The float written as the fraction [n / d]. *)
Definition rat (n : Z) (d : positive) : npfloat := Fin (Q2Qc (n # d)).

Definition zero : npfloat := Fin 0%Qc.
Definition one : npfloat := Fin 1%Qc.

Definition neg (x : npfloat) : npfloat :=
  match x with
  | Fin q => Fin (- q)%Qc
  | PInf => NInf
  | NInf => PInf
  | NaN => NaN
  end.

Definition add (x y : npfloat) : npfloat :=
  match x, y with
  | NaN, _ | _, NaN => NaN
  | Fin a, Fin b => Fin (a + b)%Qc
  | PInf, NInf | NInf, PInf => NaN
  | PInf, _ | _, PInf => PInf
  | NInf, _ | _, NInf => NInf
  end.

Definition sub (x y : npfloat) : npfloat := add x (neg y).

(** The infinity with the sign of [q], NaN for 0 (0 * inf, 0 / 0). *)
Definition inf_signed (q : Qc) : npfloat :=
  match (q ?= 0)%Qc with
  | Eq => NaN
  | Gt => PInf
  | Lt => NInf
  end.

Definition mul (x y : npfloat) : npfloat :=
  match x, y with
  | NaN, _ | _, NaN => NaN
  | Fin a, Fin b => Fin (a * b)%Qc
  | Fin a, PInf | PInf, Fin a => inf_signed a
  | Fin a, NInf | NInf, Fin a => inf_signed (- a)%Qc
  | PInf, PInf | NInf, NInf => PInf
  | PInf, NInf | NInf, PInf => NInf
  end.

Definition div (x y : npfloat) : npfloat :=
  match x, y with
  | NaN, _ | _, NaN => NaN
  | Fin a, Fin b =>
      if decide (b = 0%Qc) then inf_signed a else Fin (a / b)%Qc
  | Fin _, (PInf | NInf) => Fin 0%Qc
  | PInf, Fin b => if decide (b < 0)%Qc then NInf else PInf
  | NInf, Fin b => if decide (b < 0)%Qc then PInf else NInf
  | (PInf | NInf), (PInf | NInf) => NaN
  end.

(** Classes of values. *)
Definition finite (x : npfloat) : Prop := ∃ q, x = Fin q.
Definition finite_nonzero (x : npfloat) : Prop := ∃ q, x = Fin q ∧ q ≠ 0%Qc.

(** Not below zero: NaN and +inf count, -inf does not. *)
Definition nonneg (x : npfloat) : Prop :=
  match x with
  | Fin q => (0 ≤ q)%Qc
  | NInf => False
  | PInf | NaN => True
  end.

(** The two values a ratio of counts takes when its divisor is zero. *)
Definition degenerate (x : npfloat) : Prop := x = NaN ∨ x = PInf.

(** [x >= y]; every comparison with NaN is false. *)
Definition ge (x y : npfloat) : bool :=
  match x, y with
  | NaN, _ | _, NaN => false
  | Fin a, Fin b => bool_decide (b ≤ a)%Qc
  | PInf, _ => true
  | _, NInf => true
  | _, _ => false
  end.

(** [x == y]; NaN is not equal to itself. *)
Definition eqb (x y : npfloat) : bool :=
  match x, y with
  | Fin a, Fin b => bool_decide (a = b)
  | PInf, PInf | NInf, NInf => true
  | _, _ => false
  end.

(** [np.sign] *)
Definition sign (x : npfloat) : npfloat :=
  match x with
  | NaN => NaN
  | PInf => one
  | NInf => neg one
  | Fin q =>
      match (q ?= 0)%Qc with
      | Eq => zero
      | Gt => one
      | Lt => neg one
      end
  end.

(** [astype(bool)]: everything but zero is true, NaN included. *)
Definition astype_bool (x : npfloat) : bool :=
  match x with
  | Fin q => negb (bool_decide (q = 0%Qc))
  | _ => true
  end.

(** [np.sum] of a 1-d array (0.0 for the empty array). *)
Definition sum (v : list npfloat) : npfloat := foldr add zero v.

(** [np.sum] of a 1-d boolean or integer array. *)
Definition count (v : list bool) : Z :=
  Z.of_nat (length (filter (λ b, b = true) v)).

Definition zsum (v : list Z) : Z := foldr Z.add 0 v.

(** [np.mean] of an integer array; NaN for the empty array. *)
Definition mean (v : list Z) : npfloat :=
  div (of_Z (zsum v)) (of_nat (length v)).

(** Element-wise operations on arrays of one length. *)
Definition vadd : list npfloat → list npfloat → list npfloat := zip_with add.
Definition vsub : list npfloat → list npfloat → list npfloat := zip_with sub.
Definition vmul : list npfloat → list npfloat → list npfloat := zip_with mul.
Definition vdiv : list npfloat → list npfloat → list npfloat := zip_with div.

(** An array combined with a scalar. *)
Definition sdiv (v : list npfloat) (s : npfloat) : list npfloat :=
  map (λ x, div x s) v.

(** Element-wise product of two arrays whose shapes must agree. *)
Definition vmul_checked (a b : list npfloat) : result (list npfloat) :=
  if decide (length a = length b) then Ok (vmul a b) else Raise ValueError.

(** [a[mask] = v] for a boolean mask; the mask must have the length of
    the array. *)
Definition mask_assign (a : list npfloat) (mask : list bool) (v : npfloat)
  : result (list npfloat) :=
  if decide (length mask = length a)
  then Ok (zip_with (λ (m : bool) x, if m then v else x) mask a)
  else Raise IndexError.

(** A 2-d array: [ncols] is [shape[1]], [rows] has [shape[0]] entries of
    [ncols] elements each. *)
Record ndarray2 : Type := mk_ndarray2 {
  ncols : nat;
  rows : list (list npfloat)
}.

(** [m[idx, :]] for an integer index array. *)
Definition take_rows (m : ndarray2) (idx : list nat) : result ndarray2 :=
  match mapM (λ i, rows m !! i) idx with
  | Some rs => Ok (mk_ndarray2 (ncols m) rs)
  | None => Raise IndexError
  end.

(** [np.sum(m, axis=0)] *)
Definition sum_axis0 (m : ndarray2) : list npfloat :=
  foldr vadd (replicate (ncols m) zero) (rows m).

(** Inner product of two vectors of one length. *)
Definition inner (a b : list npfloat) : npfloat := sum (vmul a b).

(** [np.dot(m, v)] of a 2-d array with a 1-d array. *)
Definition dot (m : ndarray2) (v : list npfloat) : result (list npfloat) :=
  if decide (ncols m = length v)
  then Ok (map (λ r, inner r v) (rows m))
  else Raise ValueError.

(** [np.array_equal]: the shapes agree and so do all elements; on rows,
    and on 2-d arrays given by their rows. *)
Definition row_equal (a b : list npfloat) : bool :=
  bool_decide (length a = length b) &&
  forallb (λ q, eqb q.1 q.2) (zip a b).

Definition array_equal (a b : list (list npfloat)) : bool :=
  bool_decide (length a = length b) &&
  forallb (λ p, row_equal p.1 p.2) (zip a b).

(** [np.where(v)[0]]: the positions of the true entries. *)
Definition where_ (v : list bool) : list nat :=
  concat (imap (λ i (b : bool), if b then [i] else []) v).

(** [a[mask]] for a boolean mask of the length of the array. *)
Definition bool_index {A} (a : list A) (mask : list bool) : result (list A) :=
  if decide (length mask = length a)
  then Ok (concat (zip_with (λ (m : bool) x, if m then [x] else []) mask a))
  else Raise IndexError.

End Np.
Import Np.

(** ** float64 arithmetic *)

(** The values of [npfloat] are exact.  The arithmetic of the program is
    that of IEEE 754 doubles: the result of an operation is the double
    nearest to the exact result.  [F64] adds that rounding (53 significant
    bits, to nearest, ties to even; overflow and subnormal numbers are
    left out, the numbers met being far from both). *)
Module F64.

(** The integer nearest to [q]; of two that are equally near, the even one. *)
Definition round_half_even (q : Qc) : Z :=
  let n := Qnum q in
  let d := Z.pos (Qden q) in
  let f := n / d in
  match 2 * (n mod d) ?= d with
  | Lt => f
  | Gt => f + 1
  | Eq => if Z.even f then f else f + 1
  end.

Definition pow2 (e : Z) : Qc :=
  if decide (0 ≤ e) then Qc_of_Z (2 ^ e) else (/ Qc_of_Z (2 ^ (- e)))%Qc.

(** The exponent of a positive [q]: [2 ^ ilog2 q <= q < 2 ^ (ilog2 q + 1)]. *)
Definition ilog2 (q : Qc) : Z :=
  let k := Z.log2 (Qnum q) - Z.log2 (Z.pos (Qden q)) in
  if decide (pow2 k ≤ q)%Qc then k else k - 1.

(** The double nearest to a positive [q]. *)
Definition round_pos (q : Qc) : Qc :=
  let e := ilog2 q - 52 in
  (Qc_of_Z (round_half_even (q / pow2 e)) * pow2 e)%Qc.

Definition round64 (q : Qc) : Qc :=
  match (q ?= 0)%Qc with
  | Eq => 0%Qc
  | Gt => round_pos q
  | Lt => (- round_pos (- q))%Qc
  end.

Definition rnd (x : npfloat) : npfloat :=
  match x with
  | Fin q => Fin (round64 q)
  | _ => x
  end.

(** The float written as the decimal fraction [n / d]. *)
Definition f64 (n : Z) (d : positive) : npfloat := rnd (rat n d).

Definition fadd (x y : npfloat) : npfloat := rnd (add x y).
Definition fsub (x y : npfloat) : npfloat := rnd (sub x y).
Definition fmul (x y : npfloat) : npfloat := rnd (mul x y).
Definition fdiv (x y : npfloat) : npfloat := rnd (div x y).

End F64.
Import F64.

(** ** Topic-model decoding of a region of interest *)

(** A NIfTI image: its affine (the coordinate-frame reference) and its
    voxel data, listed in the order of [get_data().ravel()]. *)
Record Nifti1Image : Type := mk_Nifti1Image {
  affine : list (list npfloat);
  get_data : list npfloat
}.

(** The attributes of [nimare.annotate.topic.GCLDAModel] that the decoder
    reads. *)
Record GCLDAModel : Type := mk_GCLDAModel {
  mask : Nifti1Image;
  p_topic_g_voxel_ : ndarray2;   (* in-mask voxels x topics *)
  p_word_g_topic_ : ndarray2;    (* words x topics *)
  vocabulary : list string
}.

(** What a caller may pass as [roi]: a path, an image, or anything else. *)
Inductive roi_arg : Type :=
| RoiStr (path : string)
| RoiImage (img : Nifti1Image)
| RoiOther.

(** The one-column table [decoded_df]: index 'Term', column 'Weight'. *)
Record WeightFrame : Type := mk_WeightFrame {
  wf_index : list string;
  Weight : list npfloat
}.

Global Instance exn_eq_dec : EqDecision exn.
Proof. solve_decision. Defined.
Global Instance result_eq_dec {A} `{EqDecision A} : EqDecision (result A).
Proof. solve_decision. Defined.
Global Instance WeightFrame_eq_dec : EqDecision WeightFrame.
Proof. solve_decision. Defined.

(** [pd.DataFrame(index=..., columns=['Weight'], data=...)] *)
Definition weight_frame (index : list string) (data : list npfloat)
  : result WeightFrame :=
  if decide (length index = length data)
  then Ok (mk_WeightFrame index data)
  else Raise ValueError.

(** [topic_weights *= weighted_priors]: in place, so the right operand
    must have the shape of the left one or a single element. *)
Definition imul (a b : list npfloat) : result (list npfloat) :=
  if decide (length b = length a) then Ok (vmul a b)
  else match b with
       | [s] => Ok (map (λ x, mul x s) a)
       | _ => Raise ValueError
       end.

Definition default_prior_weight : npfloat := one.

Section Gclda.

(** [nibabel.load]: reading a file yields an image or raises. *)
Variable nib_load : string → result Nifti1Image.
(** [nimare.decode.utils.weight_priors] *)
Variable weight_priors : list npfloat → npfloat → list npfloat.

Definition gclda_decode_roi (model : GCLDAModel) (roi : roi_arg)
    (topic_priors : option (list npfloat)) (prior_weight : npfloat)
  : result (WeightFrame * list npfloat) :=
  roi ← match roi with
        | RoiStr path => nib_load path
        | RoiImage img => Ok img
        | RoiOther => Raise IOError
        end;
  let dset_aff := affine (mask model) in
  if negb (array_equal (affine roi) dset_aff) then Raise ValueError else
  (* ROI voxels overlapping with the brain mask *)
  let mask_vec := map astype_bool (get_data (mask model)) in
  let roi_vec := map astype_bool (get_data roi) in
  roi_vec ← bool_index roi_vec mask_vec;
  let roi_idx := where_ roi_vec in
  p_topic_g_roi ← take_rows (p_topic_g_voxel_ model) roi_idx;
  let topic_weights := sum_axis0 p_topic_g_roi in
  topic_weights ←
    match topic_priors with
    | Some topic_priors =>
        let weighted_priors := weight_priors topic_priors prior_weight in
        imul topic_weights weighted_priors
    | None => Ok topic_weights
    end;
  word_weights ← dot (p_word_g_topic_ model) topic_weights;
  decoded_df ← weight_frame (vocabulary model) word_weights;
  Ok (decoded_df, topic_weights).

End Gclda.

(** ** Statistics taken from scipy *)

Module Stats.

(** Binomial coefficient, by Pascal's rule. *)
Fixpoint choose (n k : nat) : nat :=
  match k, n with
  | O, _ => 1
  | S _, O => 0
  | S k', S n' => choose n' k' + choose n' k
  end.

(** Probability of exactly [i] successes in [n] trials. *)
Definition binom_pmf (n : nat) (p : Qc) (i : nat) : Qc :=
  (Qc_of_Z (Z.of_nat (choose n i)) * p ^ i * (1 - p) ^ (n - i))%Qc.

Definition qsum (v : list Qc) : Qc := foldr Qcplus 0%Qc v.

(** Probability of at most [k] successes in [n] trials. *)
Definition binom_cdf_exact (k n : nat) (p : Qc) : Qc :=
  qsum (map (binom_pmf n p) (seq 0 (S k))).

(** Probability of the numbers of successes [lo <= i < lo + len]. *)
Definition binom_range (lo len n : nat) (p : Qc) : Qc :=
  qsum (map (binom_pmf n p) (seq lo len)).

(** [scipy.stats.binom.cdf(k, n, p)] for an integer [k], a whole number of
    trials [n] and a scalar [p]: NaN outside the domain of the
    distribution, 0 below the support. *)
Definition binom_cdf (k n : Z) (p : npfloat) : npfloat :=
  match p with
  | Fin p =>
      if bool_decide (0 ≤ n) && bool_decide (0 ≤ p)%Qc && bool_decide (p ≤ 1)%Qc
      then if bool_decide (k < 0) then zero
           else Fin (binom_cdf_exact (Z.to_nat k) (Z.to_nat n) p)
      else NaN
  | _ => NaN
  end.

End Stats.
Import Stats.
(** ** Tables *)

(** The coordinates table.  The decoders read its column 'id' (one entry
    per focus) and its number of rows. *)
Record Coordinates : Type := mk_Coordinates {
  coord_id : list string
}.

(** The annotations table: its column 'id' and, by label, the other
    columns (each as long as 'id'; the labels are taken to be distinct). *)
Record Annotations : Type := mk_Annotations {
  ann_id : list string;
  ann_columns : list (string * list npfloat)
}.

(** A boolean table indexed by study id, kept column by column. *)
Record BoolFrame : Type := mk_BoolFrame {
  bf_index : list string;
  bf_columns : list (list bool)
}.

Definition str_le (a b : string) : Prop := String.leb a b = true.
Global Instance str_le_dec : RelDecision str_le.
Proof. intros a b. unfold str_le. apply _. Defined.

(** [sorted(list(s))] for a set of strings. *)
Definition sorted (s : gset string) : list string :=
  merge_sort str_le (elements s).

(** [mapM] for computations that may raise. *)
Fixpoint traverse {A B} (f : A → result B) (l : list A) : result (list B) :=
  match l with
  | [] => Ok []
  | x :: l => y ← f x; ys ← traverse f l; Ok (y :: ys)
  end.

(** [annotations.set_index('id')[features].ge(frequency_threshold)] *)
Definition binarize (annotations : Annotations) (features : list string)
    (frequency_threshold : npfloat) : result BoolFrame :=
  cols ← traverse (λ f,
            match list_find (λ c, c.1 = f) (ann_columns annotations) with
            | Some (_, c) => Ok (map (λ x, ge x frequency_threshold) c.2)
            | None => Raise KeyError
            end) features;
  Ok (mk_BoolFrame (ann_id annotations) cols).

(** The positions of an index that carry a label. *)
Definition label_positions (index : list string) (label : string) : list nat :=
  concat (imap (λ i l, if decide (l = label) then [i] else []) index).

(** [df[term]] for a frame whose columns carry the labels [labels]: the
    column with that label.  When several columns carry it the selection
    is a frame and not a column, and [df.loc[df[term] == 1]] raises. *)
Definition getitem (labels : list string) (df : BoolFrame) (term : string)
  : result (list bool) :=
  match label_positions labels term with
  | [] => Raise KeyError
  | [i] => match bf_columns df !! i with
           | Some col => Ok col
           | None => Raise KeyError
           end
  | _ => Raise ValueError
  end.

(** The row positions selected by [df.loc[labels]]; a label that is not in
    the index raises. *)
Definition loc (df : BoolFrame) (labels : list string) : result (list nat) :=
  ps ← traverse (λ l,
          match label_positions (bf_index df) l with
          | [] => Raise KeyError
          | ps => Ok ps
          end) labels;
  Ok (concat ps).

(** The columns of [df.loc[labels].values]. *)
Definition loc_values (df : BoolFrame) (labels : list string)
  : result (list (list bool)) :=
  ps ← loc df labels;
  Ok (map (λ col, map (λ p, default false (col !! p)) ps) (bf_columns df)).

(** [df.loc[col == b].index.values] *)
Definition index_where (index : list string) (col : list bool) (b : bool)
  : list string :=
  concat (zip_with (λ l (c : bool), if decide (c = b) then [l] else [])
                   index col).

(** [series.isin(values).sum()] *)
Definition isin_sum (series values : list string) : Z :=
  count (map (λ x, bool_decide (x ∈ values)) series).

(** Python's [a / b] on two [int]s. *)
Definition truediv (a b : Z) : result npfloat :=
  if decide (b = 0) then Raise ZeroDivisionError
  else Ok (div (of_Z a) (of_Z b)).

Definition id_cols : list string := ["id"; "study_id"; "contrast_id"].

(** [annotations.columns.values] without the reserved columns. *)
Definition default_features (annotations : Annotations) : list string :=
  filter (λ f, f ∉ id_cols) ("id" :: (ann_columns annotations).*1).

(** The 2 x 2 tables [cells[f]] of
    [np.array([[a, b], [c, d]]).T]: the transpose swaps [b] and [c]. *)
Definition cells_T (a b c d : list Z) : list (list (list Z)) :=
  zip_with (λ ab cd, [[ab.1; cd.1]; [ab.2; cd.2]]) (zip a b) (zip c d).

(** A scalar or an array, as an operand of an element-wise operation. *)
Inductive operand : Type :=
| Scalar (x : npfloat)
| Array (v : list npfloat).

Definition broadcast (n : nat) (o : operand) : list npfloat :=
  match o with
  | Scalar x => replicate n x
  | Array v => v
  end.

(** The result table of the two association decoders: index 'Term' and
    six columns.  The third column is 'likelihoodForward' for BrainMap and
    'probForward' for Neurosynth. *)
Record OutFrame : Type := mk_OutFrame {
  out_index : list string;
  pForward : list npfloat;
  zForward : list npfloat;
  effectForward : list npfloat;
  pReverse : list npfloat;
  zReverse : list npfloat;
  probReverse : list npfloat
}.

(** [pd.DataFrame(data=np.array([c1, ..., c6]).T, index=..., columns=...)] *)
Definition out_frame (index : list string) (c1 c2 c3 c4 c5 c6 : list npfloat)
  : result OutFrame :=
  if decide (Forall (λ c, length c = length index) [c1; c2; c3; c4; c5; c6])
  then Ok (mk_OutFrame index c1 c2 c3 c4 c5 c6)
  else Raise ValueError.

(** The defaults of the keyword arguments: what a decoder receives for an
    argument that its caller leaves out. *)
Definition default_frequency_threshold : npfloat := Fin (Q2Qc (1 # 1000)).
Definition default_u : npfloat := Fin (Q2Qc (5 # 100)).
Definition default_correction : option string := Some "fdr_bh".
Definition default_prior : option npfloat := Some (Fin (Q2Qc (1 # 2))).

(** ** The BrainMap and Neurosynth decoders *)

(** The local variables of [brainmap_decode] when it returns.  [p_fi] and
    [p_ri] are overwritten in place for rare features; the values they had
    before are kept as [p_fi_raw] and [p_ri_raw].  Likewise
    [p_term_g_selected_raw] is [p_term_g_selected] before it is normalized. *)
Record BrainmapLocals : Type := mk_BrainmapLocals {
  bm_unselected : list string;
  bm_features : list string;
  bm_n_selected : Z;
  bm_n_unselected : Z;
  bm_n_exps_across_terms : Z;
  bm_n_selected_term : list Z;
  bm_n_unselected_term : list Z;
  bm_n_selected_noterm : list Z;
  bm_n_unselected_noterm : list Z;
  bm_n_term : list Z;
  bm_p_term : list npfloat;
  bm_n_foci_in_database : Z;
  bm_p_selected : npfloat;
  bm_n_term_foci : list Z;
  bm_n_noterm_foci : list Z;
  bm_p_selected_g_term : list npfloat;
  bm_l_selected_g_term : list npfloat;
  bm_p_selected_g_noterm : list npfloat;
  bm_p_term_g_selected_raw : list npfloat;
  bm_p_term_g_selected : list npfloat;
  bm_p_fi_raw : list npfloat;
  bm_p_ri_raw : list npfloat;
  bm_p_fi : list npfloat;
  bm_p_ri : list npfloat;
  bm_p_corr_fi : list npfloat;
  bm_p_corr_ri : list npfloat;
  bm_out_df : OutFrame
}.

(** The local variables of [neurosynth_decode] when it returns; [ns_prior]
    is [prior] after the [if prior is None] statement. *)
Record NeurosynthLocals : Type := mk_NeurosynthLocals {
  ns_unselected : list string;
  ns_features : list string;
  ns_n_selected : Z;
  ns_n_unselected : Z;
  ns_n_selected_term : list Z;
  ns_n_unselected_term : list Z;
  ns_n_selected_noterm : list Z;
  ns_n_unselected_noterm : list Z;
  ns_n_term : list Z;
  ns_n_noterm : list Z;
  ns_p_term : list npfloat;
  ns_p_selected_g_term : list npfloat;
  ns_p_selected_g_noterm : list npfloat;
  ns_prior : operand;
  ns_p_corr_fi : list npfloat;
  ns_p_corr_ri : list npfloat;
  ns_p_selected_g_term_g_prior : list npfloat;
  ns_p_term_g_selected_g_prior : list npfloat;
  ns_out_df : OutFrame
}.

Definition zsub_from (n : Z) (v : list Z) : list Z := map (λ x, n - x) v.
Definition zadd : list Z → list Z → list Z := zip_with Z.add.
Definition floats (v : list Z) : list npfloat := map of_Z v.

(** What a call of statsmodels' [multipletests] does: it returns the
    corrected p-values (the second of its results), or it raises, a
    ZeroDivisionError when it is given no p-value (it computes
    [1./ntests]) and a ValueError for a method that it does not know. *)
Inductive multitest : Type :=
| Corrected (pvals_corrected : list npfloat)
| NoTests
| MethodNotRecognized.

Definition multitest_result (m : multitest) : result (list npfloat) :=
  match m with
  | Corrected pvals_corrected => Ok pvals_corrected
  | NoTests => Raise ZeroDivisionError
  | MethodNotRecognized => Raise ValueError
  end.

Section Decoders.

(** [nimare.stats.two_way], on the tables [cells[f]]. *)
Variable two_way : list (list (list Z)) → list npfloat.
(** [nimare.stats.one_way] *)
Variable one_way : list Z → list Z → list npfloat.
(** [nimare.stats.p_to_z] *)
Variable p_to_z : list npfloat → string → list npfloat.
(** [scipy.special.chdtrc], for one value. *)
Variable chdtrc : npfloat → npfloat → npfloat.
(** [multipletests(pvals, alpha, method, returnsorted=False)] *)
Variable multipletests : list npfloat → npfloat → string → multitest.

Definition brainmap_run (coordinates : Coordinates) (annotations : Annotations)
    (ids : list string) (ids2 : option (list string))
    (features : option (list string)) (frequency_threshold u : npfloat)
    (correction : option string) : result BrainmapLocals :=
  let dataset_ids := sorted (list_to_set (coord_id coordinates)) in
  let unselected :=
    match ids2 with
    | None => sorted (list_to_set dataset_ids ∖ list_to_set ids)
    | Some ids2 => ids2
    end in
  let features :=
    match features with
    | None => default_features annotations
    | Some features => features
    end in
  (* Binarize with frequency threshold *)
  features_df ← binarize annotations features frequency_threshold;
  sel_array ← loc_values features_df ids;
  unsel_array ← loc_values features_df unselected;
  let n_selected := Z.of_nat (length ids) in
  let n_unselected := Z.of_nat (length unselected) in
  let n_exps_across_terms := zsum (map count (bf_columns features_df)) in
  let n_selected_term := map count sel_array in
  let n_unselected_term := map count unsel_array in
  let n_selected_noterm := zsub_from n_selected n_selected_term in
  let n_unselected_noterm := zsub_from n_unselected n_unselected_term in
  let n_term := zadd n_selected_term n_unselected_term in
  let p_term := sdiv (floats n_term) (of_Z n_exps_across_terms) in
  let n_foci_in_database := Z.of_nat (length (coord_id coordinates)) in
  p_selected ← truediv n_selected n_foci_in_database;
  (* The loop over the features: [features_df[term]] *)
  term_columns ← traverse (getitem features features_df) features;
  let n_term_foci :=
    map (λ col, isin_sum (coord_id coordinates)
                  (index_where (bf_index features_df) col true))
        term_columns in
  let n_noterm_foci :=
    map (λ col, isin_sum (coord_id coordinates)
                  (index_where (bf_index features_df) col false))
        term_columns in
  let p_selected_g_term := vdiv (floats n_selected_term) (floats n_term_foci) in
  let l_selected_g_term := sdiv p_selected_g_term p_selected in
  let p_selected_g_noterm :=
    vdiv (floats n_selected_noterm) (floats n_noterm_foci) in
  let p_term_g_selected_raw := sdiv (vmul p_selected_g_term p_term) p_selected in
  let p_term_g_selected := sdiv p_term_g_selected_raw (sum p_term_g_selected_raw) in
  (* Significance testing *)
  let p_fi_raw :=
    map (sub one)
        (zip_with (λ k n, binom_cdf k n p_selected) n_selected_term n_term_foci) in
  let sign_fi :=
    map (λ k, sign (sub (of_Z k) (mean n_selected_term))) n_selected_term in
  let cells := cells_T n_selected_term n_selected_noterm
                       n_unselected_term n_unselected_noterm in
  let chi2_ri := two_way cells in
  let p_ri_raw := map (chdtrc one) chi2_ri in
  let sign_ri := map sign (vsub p_selected_g_term p_selected_g_noterm) in
  (* Ignore rare features *)
  let rare := map (λ k, bool_decide (k < 5)) n_selected_term in
  p_fi ← mask_assign p_fi_raw rare one;
  p_ri ← mask_assign p_ri_raw rare one;
  (* Multiple comparisons correction, separately for FI and RI *)
  let correct := λ p,
    match correction with
    | Some method => multitest_result (multipletests p u method)
    | None => Ok p
    end in
  p_corr_fi ← correct p_fi;
  p_corr_ri ← correct p_ri;
  (* z-values *)
  z_corr_fi ← vmul_checked (p_to_z p_corr_fi "two") sign_fi;
  z_corr_ri ← vmul_checked (p_to_z p_corr_ri "two") sign_ri;
  out_df ← out_frame features p_corr_fi z_corr_fi l_selected_g_term
                     p_corr_ri z_corr_ri p_term_g_selected;
  Ok (mk_BrainmapLocals unselected features n_selected n_unselected
        n_exps_across_terms n_selected_term n_unselected_term
        n_selected_noterm n_unselected_noterm n_term p_term
        n_foci_in_database p_selected n_term_foci n_noterm_foci
        p_selected_g_term l_selected_g_term p_selected_g_noterm
        p_term_g_selected_raw p_term_g_selected p_fi_raw p_ri_raw p_fi p_ri
        p_corr_fi p_corr_ri out_df).

Definition brainmap_decode (coordinates : Coordinates) (annotations : Annotations)
    (ids : list string) (ids2 : option (list string))
    (features : option (list string)) (frequency_threshold u : npfloat)
    (correction : option string) : result OutFrame :=
  bm_out_df <$> brainmap_run coordinates annotations ids ids2 features
                  frequency_threshold u correction.

Definition neurosynth_run (coordinates : Coordinates) (annotations : Annotations)
    (ids : list string) (ids2 : option (list string))
    (features : option (list string)) (frequency_threshold : npfloat)
    (prior : option npfloat) (u : npfloat) (correction : option string)
  : result NeurosynthLocals :=
  let dataset_ids := sorted (list_to_set (coord_id coordinates)) in
  let unselected :=
    match ids2 with
    | None => sorted (list_to_set dataset_ids ∖ list_to_set ids)
    | Some ids2 => ids2
    end in
  let features :=
    match features with
    | None => default_features annotations
    | Some features => features
    end in
  (* Binarize with frequency threshold *)
  features_df ← binarize annotations features frequency_threshold;
  sel_array ← loc_values features_df ids;
  unsel_array ← loc_values features_df unselected;
  let n_selected := Z.of_nat (length ids) in
  let n_unselected := Z.of_nat (length unselected) in
  let n_selected_term := map count sel_array in
  let n_unselected_term := map count unsel_array in
  let n_selected_noterm := zsub_from n_selected n_selected_term in
  let n_unselected_noterm := zsub_from n_unselected n_unselected_term in
  let n_term := zadd n_selected_term n_unselected_term in
  let n_noterm := zadd n_selected_noterm n_unselected_noterm in
  let p_term := vdiv (floats n_term) (floats (zadd n_term n_noterm)) in
  let p_selected_g_term := vdiv (floats n_selected_term) (floats n_term) in
  let p_selected_g_noterm := vdiv (floats n_selected_noterm) (floats n_noterm) in
  (* Empirically derived prior, or the inputted one *)
  let prior :=
    match prior with
    | None => Array p_term
    | Some prior => Scalar prior
    end in
  (* Significance testing *)
  let chi2_fi := one_way n_selected_term n_term in
  let p_fi := map (chdtrc one) chi2_fi in
  let sign_fi :=
    map (λ k, sign (sub (of_Z k) (mean n_selected_term))) n_selected_term in
  let cells := cells_T n_selected_term n_selected_noterm
                       n_unselected_term n_unselected_noterm in
  let chi2_ri := two_way cells in
  let p_ri := map (chdtrc one) chi2_ri in
  let sign_ri := map sign (vsub p_selected_g_term p_selected_g_noterm) in
  (* Multiple comparisons correction, separately for FI and RI *)
  let correct := λ p,
    match correction with
    | Some method => multitest_result (multipletests p u method)
    | None => Ok p
    end in
  p_corr_fi ← correct p_fi;
  p_corr_ri ← correct p_ri;
  (* z-values *)
  z_corr_fi ← vmul_checked (p_to_z p_corr_fi "two") sign_fi;
  z_corr_ri ← vmul_checked (p_to_z p_corr_ri "two") sign_ri;
  (* Effect size *)
  let n := length p_selected_g_term in
  let p_selected_g_term_g_prior :=
    vadd (vmul (broadcast n prior) p_selected_g_term)
         (vmul (map (sub one) (broadcast n prior)) p_selected_g_noterm) in
  let p_term_g_selected_g_prior :=
    vdiv (vmul p_selected_g_term (broadcast n prior)) p_selected_g_term_g_prior in
  out_df ← out_frame features p_corr_fi z_corr_fi p_selected_g_term_g_prior
                     p_corr_ri z_corr_ri p_term_g_selected_g_prior;
  Ok (mk_NeurosynthLocals unselected features n_selected n_unselected
        n_selected_term n_unselected_term n_selected_noterm
        n_unselected_noterm n_term n_noterm p_term p_selected_g_term
        p_selected_g_noterm prior p_corr_fi p_corr_ri
        p_selected_g_term_g_prior p_term_g_selected_g_prior out_df).

Definition neurosynth_decode (coordinates : Coordinates) (annotations : Annotations)
    (ids : list string) (ids2 : option (list string))
    (features : option (list string)) (frequency_threshold : npfloat)
    (prior : option npfloat) (u : npfloat) (correction : option string)
  : result OutFrame :=
  ns_out_df <$> neurosynth_run coordinates annotations ids ids2 features
                  frequency_threshold prior u correction.

End Decoders.

(** ** The arithmetic of the decoders in float64 *)

(** The decoders above compute with exact numbers, which is where their
    algebraic properties are proved.  Here is the arithmetic of
    [gclda_decode_roi] (lines 91-106, without a prior) and that of the
    effect sizes of [neurosynth_decode] (lines 265-313) once more, with
    the rounding of float64 after every operation; counts are whole
    numbers far below 2^53 and are exact as doubles. *)

Definition vadd64 : list npfloat → list npfloat → list npfloat := zip_with fadd.
Definition vmul64 : list npfloat → list npfloat → list npfloat := zip_with fmul.
Definition vdiv64 : list npfloat → list npfloat → list npfloat := zip_with fdiv.

(** [np.sum(m, axis=0)]: the rows are added up one after the other. *)
Definition sum_axis0_64 (m : ndarray2) : list npfloat :=
  foldl vadd64 (replicate (ncols m) zero) (rows m).

(** [np.dot(m, v)]: the products are added up one after the other.  (The
    order is that of the BLAS at hand; for two addends there is one.) *)
Definition inner64 (a b : list npfloat) : npfloat :=
  foldl fadd zero (vmul64 a b).

Definition dot64 (m : ndarray2) (v : list npfloat) : result (list npfloat) :=
  if decide (ncols m = length v)
  then Ok (map (λ r, inner64 r v) (rows m))
  else Raise ValueError.

(** The word weights and the topic weights of [gclda_decode_roi] for an
    image in the frame of the mask, without a prior. *)
Definition gclda_weights64 (model : GCLDAModel) (roi : Nifti1Image)
  : result (list npfloat * list npfloat) :=
  let mask_vec := map astype_bool (get_data (mask model)) in
  let roi_vec := map astype_bool (get_data roi) in
  roi_vec ← bool_index roi_vec mask_vec;
  let roi_idx := where_ roi_vec in
  p_topic_g_roi ← take_rows (p_topic_g_voxel_ model) roi_idx;
  let topic_weights := sum_axis0_64 p_topic_g_roi in
  word_weights ← dot64 (p_word_g_topic_ model) topic_weights;
  Ok (word_weights, topic_weights).

(** The two effect sizes of [neurosynth_decode], from its counts:
    [p_selected_g_term_g_prior] and [p_term_g_selected_g_prior]. *)
Definition neurosynth_effects64 (n_selected n_unselected : Z)
    (n_selected_term n_unselected_term : list Z) (prior : option npfloat)
  : list npfloat * list npfloat :=
  let n_selected_noterm := zsub_from n_selected n_selected_term in
  let n_unselected_noterm := zsub_from n_unselected n_unselected_term in
  let n_term := zadd n_selected_term n_unselected_term in
  let n_noterm := zadd n_selected_noterm n_unselected_noterm in
  let p_term := vdiv64 (floats n_term) (floats (zadd n_term n_noterm)) in
  let p_selected_g_term := vdiv64 (floats n_selected_term) (floats n_term) in
  let p_selected_g_noterm :=
    vdiv64 (floats n_selected_noterm) (floats n_noterm) in
  let prior :=
    match prior with
    | None => Array p_term
    | Some prior => Scalar prior
    end in
  let n := length p_selected_g_term in
  let p_selected_g_term_g_prior :=
    vadd64 (vmul64 (broadcast n prior) p_selected_g_term)
           (vmul64 (map (fsub one) (broadcast n prior)) p_selected_g_noterm) in
  let p_term_g_selected_g_prior :=
    vdiv64 (vmul64 p_selected_g_term (broadcast n prior))
           p_selected_g_term_g_prior in
  (p_selected_g_term_g_prior, p_term_g_selected_g_prior).

(** * Examples *)

(** ** The scenario of the topic decoder *)

(** The scenario of the specification: three voxels, the first two inside
    the mask; the ROI holds the last two, so that it selects exactly the
    in-mask voxel with topic row [0.2, 0.8].  The model has one word. *)
Definition eye4 : list (list npfloat) :=
  [[one; zero; zero; zero]; [zero; one; zero; zero];
   [zero; zero; one; zero]; [zero; zero; zero; one]].

Definition scenario_model (p_word_g_topic : ndarray2) (vocabulary : list string)
  : GCLDAModel :=
  mk_GCLDAModel (mk_Nifti1Image eye4 [one; one; zero])
    (mk_ndarray2 2 [[rat 1 2; rat 1 2]; [rat 2 10; rat 8 10]])
    p_word_g_topic vocabulary.

Definition scenario_roi : Nifti1Image :=
  mk_Nifti1Image eye4 [zero; one; one].

(** The same region in a frame shifted by one unit along the first axis. *)
Definition shifted_roi : Nifti1Image :=
  mk_Nifti1Image
    [[one; zero; zero; one]; [zero; one; zero; zero];
     [zero; zero; one; zero]; [zero; zero; zero; one]]
    [zero; one; one].

(** A region whose only voxel lies outside the mask, and the scenario's
    region without its out-of-mask voxel. *)
Definition outside_roi : Nifti1Image := mk_Nifti1Image eye4 [zero; zero; one].
Definition inside_roi : Nifti1Image := mk_Nifti1Image eye4 [zero; one; zero].

(** The word-by-topic matrix of the scenario, as the decoder reads it: one
    row for the word, one column per topic. *)
Definition scenario_words : ndarray2 := mk_ndarray2 2 [[rat 1 1; rat 5 10]].

(** The scenario as float64 arrays hold it: every entry is the double
    nearest to the number written. *)
Definition scenario_model64 : GCLDAModel :=
  mk_GCLDAModel (mk_Nifti1Image eye4 [one; one; zero])
    (mk_ndarray2 2 [[f64 1 2; f64 1 2]; [f64 2 10; f64 8 10]])
    (mk_ndarray2 2 [[f64 1 1; f64 5 10]]) ["w"].

(** Three in-mask voxels with the rows 0.1, 0.2 and 0.3 for one topic, one
    word; a region of the first voxel, one of the other two, and both. *)
Definition three_voxel_model64 : GCLDAModel :=
  mk_GCLDAModel (mk_Nifti1Image eye4 [one; one; one])
    (mk_ndarray2 1 [[f64 1 10]; [f64 2 10]; [f64 3 10]])
    (mk_ndarray2 1 [[f64 1 1]]) ["w"].
Definition voxel_1_roi : Nifti1Image := mk_Nifti1Image eye4 [one; zero; zero].
Definition voxels_23_roi : Nifti1Image := mk_Nifti1Image eye4 [zero; one; one].
Definition voxels_123_roi : Nifti1Image := mk_Nifti1Image eye4 [one; one; one].

(** Stand-ins for the collaborators of the topic decoder. *)
Definition no_files : string → result Nifti1Image := λ _, Raise IOError.
Definition priors_unweighted : list npfloat → npfloat → list npfloat := λ p _, p.


(** ** A worked example *)

(** Stand-ins for the collaborators: tests and transforms that keep the
    length of what they are given; the correction raises when it is given
    no p-value, as that of statsmodels does. *)
Definition two_way_ones : list (list (list Z)) → list npfloat := map (λ _, one).
Definition one_way_ones : list Z → list Z → list npfloat :=
  λ data _, map (λ _, one) data.
Definition p_to_z_id : list npfloat → string → list npfloat := λ p _, p.
Definition chdtrc_id : npfloat → npfloat → npfloat := λ _ x, x.
Definition multipletests_id : list npfloat → npfloat → string → multitest :=
  λ p _ _, match p with [] => NoTests | _ => Corrected p end.

(** Ten foci of seven studies; eight annotated studies, the last one
    ([s8], the only one showing 'memory') without any focus. *)
Definition ex_coordinates : Coordinates :=
  mk_Coordinates ["s1"; "s1"; "s2"; "s3"; "s3"; "s4"; "s5"; "s6"; "s7"; "s7"].

Definition ex_annotations : Annotations :=
  mk_Annotations ["s1"; "s2"; "s3"; "s4"; "s5"; "s6"; "s7"; "s8"]
    [("pain", [one; one; one; rat 1 10; rat 1 1000; one; zero; zero]);
     ("study_id", [zero; zero; zero; zero; zero; zero; zero; zero]);
     ("vision", [zero; one; zero; zero; rat 1 2000; zero; one; zero]);
     ("memory", [zero; zero; zero; zero; zero; zero; zero; one])].

Definition ex_ids : list string := ["s1"; "s2"; "s3"; "s4"; "s5"].

Definition ex_brainmap (coordinates : Coordinates)
    (features : option (list string)) : result BrainmapLocals :=
  brainmap_run two_way_ones p_to_z_id chdtrc_id multipletests_id
    coordinates ex_annotations ex_ids None features
    default_frequency_threshold default_u default_correction.

Definition ex_neurosynth (prior : option npfloat) : result NeurosynthLocals :=
  neurosynth_run two_way_ones one_way_ones p_to_z_id chdtrc_id multipletests_id
    ex_coordinates ex_annotations ex_ids None None
    default_frequency_threshold prior default_u default_correction.

(** The raw forward p-value as the specification writes it: the
    cumulative probability taken at n_selected_term - 1. *)
Definition p_forward_at_least (L : BrainmapLocals) : list npfloat :=
  map (sub one)
    (zip_with (λ k n, binom_cdf (k - 1) n (bm_p_selected L))
       (bm_n_selected_term L) (bm_n_term_foci L)).

(** The empirical term base rate of every feature. *)
Definition empirical_base_rate (L : NeurosynthLocals) : list npfloat :=
  vdiv (floats (ns_n_term L)) (floats (zadd (ns_n_term L) (ns_n_noterm L))).


(** ** Notions of the further properties *)

(** [np.where] by recursion, counting positions from [n]. *)
Fixpoint where_from (n : nat) (v : list bool) : list nat :=
  match v with
  | [] => []
  | b :: v => ((if b then [n] else []) ++ where_from (S n) v)%list
  end.

(** The number of voxels inside the mask of a model. *)
Definition n_mask_voxels (model : GCLDAModel) : nat :=
  length (filter (λ b, b = true) (map astype_bool (get_data (mask model)))).

(** A model whose arrays fit together: one row of [p_topic_g_voxel_] per
    in-mask voxel, every row with one entry per topic, one row of
    [p_word_g_topic_] per word of the vocabulary, with one entry per topic. *)
Definition consistent (model : GCLDAModel) : Prop :=
  Forall (λ r, length r = ncols (p_topic_g_voxel_ model))
         (rows (p_topic_g_voxel_ model)) ∧
  length (rows (p_topic_g_voxel_ model)) = n_mask_voxels model ∧
  ncols (p_word_g_topic_ model) = ncols (p_topic_g_voxel_ model) ∧
  length (vocabulary model) = length (rows (p_word_g_topic_ model)).

(** An image in the frame of the mask, with as many voxels. *)
Definition aligned (model : GCLDAModel) (img : Nifti1Image) : Prop :=
  array_equal (affine img) (affine (mask model)) = true ∧
  length (get_data img) = length (get_data (mask model)).

(** The sum of the rows at the positions [idx], missing rows being empty. *)
Definition row_sum (m : ndarray2) (idx : list nat) : list npfloat :=
  foldr (λ i acc, vadd (default [] (rows m !! i)) acc)
        (replicate (ncols m) zero) idx.

(** A region of one in-mask voxel, disjoint from [inside_roi], and the
    union of the two. *)
Definition first_voxel_roi : Nifti1Image := mk_Nifti1Image eye4 [one; zero; zero].
Definition both_voxels_roi : Nifti1Image := mk_Nifti1Image eye4 [one; one; zero].

(** The scenario's model with the row of the second in-mask voxel missing. *)
Definition short_model : GCLDAModel :=
  mk_GCLDAModel (mk_Nifti1Image eye4 [one; one; zero])
    (mk_ndarray2 2 [[rat 1 2; rat 1 2]]) scenario_words ["w"].

(** The features a decoder works on and the studies it compares the
    selected ones with, as both decoders compute them. *)
Definition features_of (annotations : Annotations)
    (features : option (list string)) : list string :=
  match features with
  | None => default_features annotations
  | Some features => features
  end.

Definition unselected_of (coordinates : Coordinates) (ids : list string)
    (ids2 : option (list string)) : list string :=
  match ids2 with
  | None => sorted (list_to_set (sorted (list_to_set (coord_id coordinates)))
                    ∖ list_to_set ids)
  | Some ids2 => ids2
  end.

(** Every feature is a column of the annotations, and every selected and
    every unselected study is annotated. *)
Definition known (coordinates : Coordinates) (annotations : Annotations)
    (ids : list string) (ids2 features : option (list string)) : Prop :=
  Forall (λ f, f ∈ (ann_columns annotations).*1) (features_of annotations features) ∧
  Forall (λ x, x ∈ ann_id annotations) ids ∧
  Forall (λ x, x ∈ ann_id annotations) (unselected_of coordinates ids ids2).

(** The column of the annotations that a feature is read from. *)
Definition column_of (annotations : Annotations) (f : string) : list npfloat :=
  match list_find (λ c, c.1 = f) (ann_columns annotations) with
  | Some (_, c) => c.2
  | None => []
  end.

(** The decoders of the example, with its stand-ins for the collaborators. *)
Definition ex_brainmap_decode :=
  brainmap_decode two_way_ones p_to_z_id chdtrc_id multipletests_id.
Definition ex_neurosynth_decode :=
  neurosynth_decode two_way_ones one_way_ones p_to_z_id chdtrc_id
    multipletests_id.


(** * Properties *)

(** ** Rounding *)

(** The doubles nearest to 0.1 and to 1/3, and three numbers that are
    doubles themselves. *)
Lemma round64_examples :
  f64 1 10 = Fin (Q2Qc (3602879701896397 # 36028797018963968)) ∧
  f64 1 3 = Fin (Q2Qc (6004799503160661 # 18014398509481984)) ∧
  f64 1 2 = rat 1 2 ∧ f64 5 1 = rat 5 1 ∧ rnd zero = zero.
Proof. split_and!; apply (bool_decide_unpack _); vm_compute; exact I. Qed.

(** ** The binomial distribution *)

Section Binomial.
Local Open Scope Qc_scope.

Variable p : Qc.

Lemma choose_gt (n k : nat) : (n < k)%nat → choose n k = 0%nat.
Proof.
  revert k. induction n as [|n IH]; intros [|k] Hk; simpl; try lia.
  rewrite !IH by lia. reflexivity.
Qed.

Lemma binom_pmf_gt (n i : nat) : (n < i)%nat → binom_pmf n p i = 0.
Proof.
  intros Hi. unfold binom_pmf. rewrite choose_gt by done.
  change (Z.of_nat 0) with 0%Z. rewrite Z2Qc_inj_0. ring.
Qed.

Lemma binom_pmf_0_0 : binom_pmf 0 p 0 = 1.
Proof.
  unfold binom_pmf. change (Z.of_nat (choose 0 0)) with 1%Z.
  rewrite Z2Qc_inj_1. simpl. ring.
Qed.

Lemma choose_0_r (n : nat) : choose n 0 = 1%nat.
Proof. by destruct n. Qed.

Lemma binom_pmf_S_0 (n : nat) : binom_pmf (S n) p 0 = (1 - p) * binom_pmf n p 0.
Proof.
  unfold binom_pmf. rewrite !Nat.sub_0_r, !choose_0_r.
  change (Z.of_nat 1) with 1%Z. rewrite Z2Qc_inj_1. simpl. ring.
Qed.

Lemma binom_pmf_S_S (n i : nat) :
  binom_pmf (S n) p (S i) = p * binom_pmf n p i + (1 - p) * binom_pmf n p (S i).
Proof.
  unfold binom_pmf. simpl choose. rewrite Nat2Z.inj_add, Z2Qc_inj_add.
  destruct (decide (i < n)%nat) as [Hi|Hi].
  - replace (n - i)%nat with (S (n - S i)) by lia.
    replace (S n - S i)%nat with (S (n - S i)) by lia.
    simpl. ring.
  - rewrite (choose_gt n (S i)) by lia.
    change (Z.of_nat 0) with 0%Z. rewrite Z2Qc_inj_0.
    replace (S n - S i)%nat with 0%nat by lia.
    replace (n - i)%nat with 0%nat by lia. simpl. ring.
Qed.

Lemma qsum_app (u v : list Qc) : qsum (u ++ v) = qsum u + qsum v.
Proof.
  induction u as [|x u IH]; simpl; [ring|]. rewrite IH. ring.
Qed.

Lemma binom_range_S (lo len n : nat) :
  binom_range lo (S len) n p = binom_range lo len n p + binom_pmf n p (lo + len).
Proof.
  unfold binom_range. rewrite seq_S, map_app, qsum_app. simpl. ring.
Qed.

Lemma binom_range_split (lo len len' n : nat) :
  binom_range lo (len + len') n p =
  binom_range lo len n p + binom_range (lo + len) len' n p.
Proof.
  unfold binom_range. by rewrite seq_app, map_app, qsum_app.
Qed.

(** One more trial: condition on its outcome. *)
Lemma binom_range_step (n m : nat) :
  binom_range 0 (S m) (S n) p =
  (1 - p) * binom_range 0 (S m) n p + p * binom_range 0 m n p.
Proof.
  induction m as [|m IH].
  - unfold binom_range. simpl. rewrite binom_pmf_S_0. ring.
  - rewrite binom_range_S, IH, !(binom_range_S 0 (S m)), (binom_range_S 0 m).
    simpl. rewrite binom_pmf_S_S. ring.
Qed.

(** The probabilities of 0, ..., n successes add up to 1. *)
Lemma binom_total (n : nat) : binom_range 0 (S n) n p = 1.
Proof.
  induction n as [|n IH].
  - unfold binom_range. simpl. rewrite binom_pmf_0_0. ring.
  - rewrite binom_range_step, (binom_range_S 0 (S n) n), IH. simpl.
    rewrite binom_pmf_gt by lia. ring.
Qed.

Lemma binom_range_beyond (lo len n : nat) :
  (n < lo)%nat → binom_range lo len n p = 0.
Proof.
  intros Hlo. induction len as [|len IH]; [done|].
  rewrite binom_range_S, IH, binom_pmf_gt by lia. ring.
Qed.

(** The upper tail: what is left of 1 above [k] successes. *)
Lemma binom_upper_tail (k n : nat) :
  1 - binom_cdf_exact k n p = binom_range (S k) (n - k) n p.
Proof.
  unfold binom_cdf_exact. fold (binom_range 0 (S k) n p).
  destruct (decide (k < n)%nat) as [Hk|Hk].
  - rewrite <- (binom_total n).
    replace (S n) with (S k + (n - k))%nat by lia.
    rewrite binom_range_split. simpl. ring.
  - replace (n - k)%nat with 0%nat by lia.
    replace (S k) with (S n + (k - n))%nat by lia.
    rewrite binom_range_split, binom_total.
    rewrite binom_range_beyond by lia. unfold binom_range. simpl. ring.
Qed.

End Binomial.

(** ** Arrays *)

Lemma eqb_eq (x y : npfloat) : eqb x y = true → x = y.
Proof.
  destruct x, y; simpl; try discriminate; try reflexivity.
  intros H. apply bool_decide_eq_true in H. by subst.
Qed.

Lemma forallb_zip_eq {A} (f : A → A → bool) :
  (∀ x y, f x y = true → x = y) →
  ∀ l1 l2, length l1 = length l2 →
    forallb (λ p, f p.1 p.2) (zip l1 l2) = true → l1 = l2.
Proof.
  intros Hf. induction l1 as [|x l1 IH]; intros [|y l2] Hlen Hall;
    simpl in *; try discriminate; [reflexivity|].
  apply andb_true_iff in Hall as [Hxy Hrest].
  f_equal; [by apply Hf | apply IH; [lia | done]].
Qed.

Lemma array_equal_eq (a b : list (list npfloat)) :
  array_equal a b = true → a = b.
Proof.
  unfold array_equal. intros H.
  apply andb_true_iff in H as [Hlen Hall].
  apply bool_decide_eq_true in Hlen.
  revert Hall. apply (forallb_zip_eq row_equal); [|done].
  intros r1 r2 Hr. apply andb_true_iff in Hr as [Hl Hr].
  apply bool_decide_eq_true in Hl.
  by apply (forallb_zip_eq eqb eqb_eq).
Qed.

(** The entries a boolean mask selects depend only on the entries at
    the true positions of the mask. *)
Lemma bool_index_ext {A} (a a' : list A) (mask : list bool) :
  length a = length a' →
  (∀ k, mask !! k = Some true → a !! k = a' !! k) →
  bool_index a mask = bool_index a' mask.
Proof.
  intros Hlen Hagree. unfold bool_index. rewrite <- Hlen.
  destruct (decide (length mask = length a)) as [Hm|]; [|done].
  f_equal. clear Hm. revert a a' Hlen Hagree.
  induction mask as [|m mask IH]; intros [|x a] [|x' a'] Hlen Hagree;
    simpl in *; try discriminate; try reflexivity.
  rewrite (IH a a'); [| lia | intros k Hk; apply (Hagree (S k) Hk)].
  destruct m; [|done].
  specialize (Hagree O eq_refl). simpl in Hagree. by simplify_eq.
Qed.

Lemma bool_index_Forall {A} (P : A → Prop) (a sel : list A) (mask : list bool) :
  (∀ k x, mask !! k = Some true → a !! k = Some x → P x) →
  bool_index a mask = Ok sel → Forall P sel.
Proof.
  unfold bool_index. intros HP.
  destruct (decide (length mask = length a)) as [_|]; [|done].
  intros [= <-]. revert a HP.
  induction mask as [|m mask IH]; intros [|x a] HP; simpl;
    try apply Forall_nil_2.
  apply Forall_app. split.
  - destruct m; [|apply Forall_nil_2].
    apply Forall_singleton. by apply (HP O).
  - apply IH. intros k y Hk Hy. by apply (HP (S k)).
Qed.

Lemma concat_imap_nil {A B} (P : A → Prop) (f : nat → A → list B) (v : list A) :
  (∀ i x, P x → f i x = []) → Forall P v → concat (imap f v) = [].
Proof.
  revert f. induction v as [|b v IH]; intros f Hf Hv; [done|].
  inversion Hv as [|?? Hb Hv']; subst. rewrite imap_cons. simpl.
  rewrite (Hf _ _ Hb). simpl. apply IH; [|done].
  intros i x Hx. by apply Hf.
Qed.

Lemma where_all_false (v : list bool) :
  Forall (λ b, b = false) v → where_ v = [].
Proof. apply concat_imap_nil. by intros i x ->. Qed.

(** ** [gclda_decode_roi] *)

Section GcldaSpec.

Variable nib_load : string → result Nifti1Image.
Variable weight_priors : list npfloat → npfloat → list npfloat.

Local Abbreviation decode := (gclda_decode_roi nib_load weight_priors).

(** C5.  An ROI image whose affine differs from the affine of the model
    mask makes [gclda_decode_roi] raise the [ValueError] of the alignment
    check, whatever the rest of the model and of the image holds (so before
    any voxel, topic or word array is touched), and whether the image was
    passed directly or loaded from a path. *)
Theorem gclda_affine_mismatch_raises (model : GCLDAModel) (img : Nifti1Image)
    (roi : roi_arg) (topic_priors : option (list npfloat)) (prior_weight : npfloat) :
  (roi = RoiImage img ∨ ∃ path, roi = RoiStr path ∧ nib_load path = Ok img) →
  affine img ≠ affine (mask model) →
  decode model roi topic_priors prior_weight = Raise ValueError.
Proof.
  intros Hroi Hne.
  assert (Hneq : array_equal (affine img) (affine (mask model)) = false).
  { destruct (array_equal _ _) eqn:E; [|done].
    by apply array_equal_eq in E. }
  unfold gclda_decode_roi.
  destruct Hroi as [-> | (path & -> & Hload)]; [|rewrite Hload];
    simpl; by rewrite Hneq.
Qed.

(** C10.  ROI voxels outside the model mask are ignored: two ROI images
    that agree (as booleans) on every in-mask voxel decode to the same
    result, so only voxels inside both the mask and the ROI contribute.
    An ROI without any nonzero in-mask voxel gives, for a model whose
    arrays fit together, the all-zero topic-weight vector and no error. *)
Theorem gclda_roi_outside_mask_ignored (model : GCLDAModel)
    (roi roi' : Nifti1Image) (prior_weight : npfloat) :
  (∀ topic_priors,
     affine roi = affine roi' →
     length (get_data roi) = length (get_data roi') →
     (∀ k m, get_data (mask model) !! k = Some m → astype_bool m = true →
        astype_bool <$> get_data roi !! k = astype_bool <$> get_data roi' !! k) →
     decode model (RoiImage roi) topic_priors prior_weight =
     decode model (RoiImage roi') topic_priors prior_weight) ∧
  (array_equal (affine roi) (affine (mask model)) = true →
   length (get_data roi) = length (get_data (mask model)) →
   (∀ k m x, get_data (mask model) !! k = Some m → astype_bool m = true →
      get_data roi !! k = Some x → astype_bool x = false) →
   ncols (p_word_g_topic_ model) = ncols (p_topic_g_voxel_ model) →
   length (vocabulary model) = length (rows (p_word_g_topic_ model)) →
   ∃ decoded_df,
     decode model (RoiImage roi) None prior_weight =
     Ok (decoded_df, replicate (ncols (p_topic_g_voxel_ model)) zero)).
Proof.
  split.
  - intros topic_priors Haff Hlen Hagree.
    unfold gclda_decode_roi. simpl. rewrite <- Haff.
    destruct (array_equal _ _); simpl; [|done].
    rewrite (bool_index_ext (map astype_bool (get_data roi))
               (map astype_bool (get_data roi'))); [done | | ].
    + by rewrite !length_map.
    + intros k Hk. rewrite !list_lookup_fmap.
      rewrite list_lookup_fmap in Hk.
      destruct (get_data (mask model) !! k) as [m|] eqn:Hm; [|done].
      simpl in Hk. injection Hk as Hk. by apply (Hagree k m).
  - intros Haff Hlen Hout Hcols Hvoc.
    unfold gclda_decode_roi. simpl. rewrite Haff. simpl.
    destruct (bool_index (map astype_bool (get_data roi))
                (map astype_bool (get_data (mask model)))) as [roi_vec|e] eqn:Hsel.
    2:{ unfold bool_index in Hsel. rewrite !length_map in Hsel.
        by destruct (decide _). }
    simpl.
    assert (Hfalse : Forall (λ b, b = false) roi_vec).
    { eapply bool_index_Forall; [|exact Hsel].
      intros k b Hk Hb. rewrite list_lookup_fmap in Hk, Hb.
      destruct (get_data (mask model) !! k) as [m|] eqn:Hm; [|done].
      destruct (get_data roi !! k) as [x|] eqn:Hx; [|done].
      simpl in *. injection Hk as Hk. injection Hb as <-.
      by apply (Hout k m x). }
    rewrite (where_all_false _ Hfalse). unfold take_rows. simpl.
    unfold sum_axis0. simpl. unfold dot.
    rewrite Hcols, length_replicate. rewrite decide_True by done. simpl.
    unfold weight_frame. rewrite length_map, Hvoc.
    rewrite decide_True by done. simpl. eauto.
Qed.

(** C8, amended.  Without a topic prior, a call that returns gives as
    topic weights the element-wise sum of the rows of [p_topic_g_voxel_]
    at the selected voxels, and as weight of each term the inner product
    of that term's row of [p_word_g_topic_] with the topic weights.  In
    the scenario, where [p_word_g_topic_] is [[1.0, 0.5]] (one word, two
    topics), the topic weights are [0.2, 0.8] and the weight of the term
    is 0.6 in exact arithmetic, and 0.6000000000000001 in the float64
    arithmetic of the program. *)
Theorem gclda_term_weights :
  (∀ model roi prior_weight decoded_df topic_weights,
     decode model roi None prior_weight = Ok (decoded_df, topic_weights) →
     ∃ img roi_vec p_topic_g_roi,
       (roi = RoiImage img ∨ ∃ path, roi = RoiStr path ∧ nib_load path = Ok img) ∧
       bool_index (map astype_bool (get_data img))
                  (map astype_bool (get_data (mask model))) = Ok roi_vec ∧
       Forall2 (λ i r, rows (p_topic_g_voxel_ model) !! i = Some r)
               (where_ roi_vec) p_topic_g_roi ∧
       topic_weights =
         foldr vadd (replicate (ncols (p_topic_g_voxel_ model)) zero)
               p_topic_g_roi ∧
       wf_index decoded_df = vocabulary model ∧
       Weight decoded_df =
         map (λ r, inner r topic_weights) (rows (p_word_g_topic_ model))) ∧
  decode (scenario_model scenario_words ["w"])
    (RoiImage scenario_roi) None default_prior_weight =
  Ok (mk_WeightFrame ["w"] [rat 6 10], [rat 2 10; rat 8 10]) ∧
  gclda_weights64 scenario_model64 scenario_roi =
  Ok ([f64 6000000000000001 10000000000000000], [f64 2 10; f64 8 10]).
Proof.
  split; [|split].
  - intros model roi prior_weight decoded_df topic_weights.
    unfold gclda_decode_roi.
    destruct (match roi with
              | RoiStr path => nib_load path
              | RoiImage img => Ok img
              | RoiOther => Raise IOError
              end) as [img|] eqn:Hroi; simpl; [|done].
    destruct (array_equal _ _); simpl; [|done].
    destruct (bool_index _ _) as [roi_vec|] eqn:Hsel; simpl; [|done].
    unfold take_rows.
    destruct (mapM _ _) as [rs|] eqn:Hrows; simpl; [|done].
    unfold dot. destruct (decide _); simpl; [|done].
    unfold weight_frame. destruct (decide _); simpl; [|done].
    intros [= <- <-]. exists img, roi_vec, rs. repeat split; try done.
    + destruct roi; simplify_eq; eauto.
    + by apply mapM_Some.
  - apply (bool_decide_unpack _). vm_compute. exact I.
  - apply (bool_decide_unpack _). vm_compute. exact I.
Qed.

End GcldaSpec.

(** C8, as stated: the program computes in float64, where the weight of
    the term in the scenario, 0.2 * 1.0 + 0.8 * 0.5, comes out as
    0.6000000000000001, which is not the double 0.6. *)
Lemma gclda_scenario_weight_in_float64 :
  gclda_weights64 scenario_model64 scenario_roi =
    Ok ([f64 6000000000000001 10000000000000000], [f64 2 10; f64 8 10]) ∧
  f64 6000000000000001 10000000000000000 ≠ f64 6 10.
Proof. split; apply (bool_decide_unpack _); vm_compute; exact I. Qed.

Lemma gclda_term_weights_witness :
  ∃ decoded_df topic_weights,
    gclda_decode_roi no_files priors_unweighted
      (scenario_model scenario_words ["w"])
      (RoiImage scenario_roi) None default_prior_weight =
      Ok (decoded_df, topic_weights) ∧
    Weight decoded_df =
      map (λ r, inner r topic_weights) (rows scenario_words).
Proof.
  destruct (gclda_term_weights no_files priors_unweighted) as (Hgen & Hex & _).
  eexists _, _. split; [exact Hex|].
  destruct (Hgen _ _ _ _ _ Hex) as (? & ? & ? & _ & _ & _ & _ & _ & Hw).
  exact Hw.
Defined.


(** ** The unselected studies *)

Global Instance str_le_total : Total str_le.
Proof. intros a b. apply String.leb_total. Qed.

Lemma elem_of_sorted (s : gset string) (x : string) : x ∈ sorted s ↔ x ∈ s.
Proof.
  unfold sorted. rewrite (merge_sort_Permutation str_le (elements s)).
  apply elem_of_elements.
Qed.

Lemma NoDup_sorted (s : gset string) : NoDup (sorted s).
Proof.
  unfold sorted. rewrite (merge_sort_Permutation str_le (elements s)).
  apply NoDup_elements.
Qed.

Lemma Sorted_sorted (s : gset string) : Sorted str_le (sorted s).
Proof. apply (Sorted_merge_sort str_le). Qed.

(** The complement both decoders compute when [ids2] is [None]. *)
Lemma complement_spec (coord_ids ids : list string) (x : string) :
  x ∈ sorted (list_to_set (sorted (list_to_set coord_ids)) ∖ list_to_set ids)
  ↔ x ∈ coord_ids ∧ x ∉ ids.
Proof.
  rewrite elem_of_sorted, elem_of_difference, !elem_of_list_to_set.
  by rewrite elem_of_sorted, elem_of_list_to_set.
Qed.

(** ** Steps of the decoders *)

Lemma mask_assign_lookup (a a' : list npfloat) (mask : list bool) (v : npfloat) :
  mask_assign a mask v = Ok a' →
  length a' = length a ∧
  ∀ i (m : bool), mask !! i = Some m →
    a' !! i = if m then Some v else a !! i.
Proof.
  unfold mask_assign. destruct (decide _) as [Hlen|]; [|done].
  intros [= <-]. split.
  { rewrite length_zip_with. lia. }
  intros i m Hm. rewrite lookup_zip_with, Hm. simpl.
  destruct (a !! i) as [x|] eqn:Hx; simpl.
  - by destruct m.
  - apply lookup_ge_None in Hx. apply lookup_lt_Some in Hm. lia.
Qed.

Lemma out_frame_inv (index : list string) (c1 c2 c3 c4 c5 c6 : list npfloat)
    (o : OutFrame) :
  out_frame index c1 c2 c3 c4 c5 c6 = Ok o →
  o = mk_OutFrame index c1 c2 c3 c4 c5 c6 ∧
  Forall (λ c, length c = length index) [c1; c2; c3; c4; c5; c6].
Proof.
  unfold out_frame. destruct (decide _) as [Hlen|]; [|done].
  by intros [= <-].
Qed.

Lemma traverse_length {A B} (f : A → result B) (l : list A) (l' : list B) :
  traverse f l = Ok l' → length l' = length l.
Proof.
  revert l'. induction l as [|x l IH]; intros l'; simpl.
  - by intros [= <-].
  - destruct (f x) as [y|]; simpl; [|done].
    destruct (traverse f l) as [ys|]; simpl; [|done].
    intros [= <-]. simpl. f_equal. by apply IH.
Qed.

Lemma binarize_inv (annotations : Annotations) (features : list string)
    (frequency_threshold : npfloat) (features_df : BoolFrame) :
  binarize annotations features frequency_threshold = Ok features_df →
  bf_index features_df = ann_id annotations ∧
  length (bf_columns features_df) = length features.
Proof.
  unfold binarize. destruct (traverse _ _) as [cols|] eqn:Hcols; simpl; [|done].
  intros [= <-]. simpl. split; [done|]. by apply traverse_length in Hcols.
Qed.

Lemma loc_values_length (df : BoolFrame) (labels : list string)
    (arr : list (list bool)) :
  loc_values df labels = Ok arr → length arr = length (bf_columns df).
Proof.
  unfold loc_values. destruct (loc df labels); simpl; [|done].
  intros [= <-]. by rewrite length_map.
Qed.

Lemma count_nonneg (v : list bool) : 0 ≤ count v.
Proof. unfold count. lia. Qed.

Lemma truediv_inv (a b : Z) (x : npfloat) :
  truediv a b = Ok x → b ≠ 0 ∧ x = Fin (Qc_of_Z a / Qc_of_Z b)%Qc.
Proof.
  unfold truediv. destruct (decide (b = 0)) as [|Hb]; [done|].
  intros [= <-]. split; [done|]. unfold div, of_Z.
  destruct (decide (Qc_of_Z b = 0%Qc)) as [Hq|]; [|done].
  rewrite <- Z2Qc_inj_0 in Hq. by apply Z2Qc_inj in Hq.
Qed.

Lemma Qc_of_Z_nonneg (a : Z) : 0 ≤ a → (0 ≤ Qc_of_Z a)%Qc.
Proof. intros Ha. rewrite <- Z2Qc_inj_0. apply (proj1 (Z2Qc_inj_le 0 a) Ha). Qed.

Lemma Qc_of_Z_pos (a : Z) : 0 < a → (0 < Qc_of_Z a)%Qc.
Proof. intros Ha. rewrite <- Z2Qc_inj_0. apply (proj1 (Z2Qc_inj_lt 0 a) Ha). Qed.

Lemma Qc_div_nonneg (a b : Z) : 0 ≤ a → 0 < b → (0 ≤ Qc_of_Z a / Qc_of_Z b)%Qc.
Proof.
  intros Ha Hb. unfold Qcdiv.
  rewrite <- (Qcmult_0_l (/ Qc_of_Z b)).
  apply Qcmult_le_compat_r.
  - by apply Qc_of_Z_nonneg.
  - apply Qclt_le_weak, Qcinv_pos. by apply Qc_of_Z_pos.
Qed.

Lemma div_of_Z (a b : Z) : b ≠ 0 → div (of_Z a) (of_Z b) = Fin (Qc_of_Z a / Qc_of_Z b)%Qc.
Proof.
  intros Hb. unfold div, of_Z.
  destruct (decide (Qc_of_Z b = 0%Qc)) as [Hq|]; [|done].
  rewrite <- Z2Qc_inj_0 in Hq. by apply Z2Qc_inj in Hq.
Qed.

Lemma Qc_of_Z_ne_0 (a : Z) : a ≠ 0 → Qc_of_Z a ≠ 0%Qc.
Proof. intros Ha Hq. rewrite <- Z2Qc_inj_0 in Hq. by apply Z2Qc_inj in Hq. Qed.

(** The prior-weighted mixture with the empirical prior, for one feature
    shown by [a] selected and [b] unselected studies out of [S] and [U]. *)
Lemma mixture_empirical_prior (S U a b : Z) :
  0 < a + b → 0 < (S - a) + (U - b) →
  add (mul (div (of_Z (a + b)) (of_Z ((a + b) + ((S - a) + (U - b)))))
           (div (of_Z a) (of_Z (a + b))))
      (mul (sub one (div (of_Z (a + b)) (of_Z ((a + b) + ((S - a) + (U - b))))))
           (div (of_Z (S - a)) (of_Z ((S - a) + (U - b)))))
  = Fin (Qc_of_Z S / Qc_of_Z (S + U))%Qc.
Proof.
  intros Ht Hn.
  rewrite !div_of_Z by lia. unfold sub, one. simpl. f_equal.
  replace (a + b + (S - a + (U - b))) with (S + U) by lia.
  assert (Qc_of_Z (a + b) ≠ 0%Qc) by (apply Qc_of_Z_ne_0; lia).
  assert (Qc_of_Z (S - a + (U - b)) ≠ 0%Qc) by (apply Qc_of_Z_ne_0; lia).
  assert (Hsu : Qc_of_Z (S + U) ≠ 0%Qc) by (apply Qc_of_Z_ne_0; lia).
  replace (S - a + (U - b)) with (S + U - (a + b)) in * by lia.
  replace (S - a) with (S - a) by lia.
  rewrite !Z2Qc_inj_sub, !Z2Qc_inj_add in *.
  set (qa := Qc_of_Z a) in *. set (qb := Qc_of_Z b) in *.
  set (qS := Qc_of_Z S) in *. set (qU := Qc_of_Z U) in *.
  field. repeat split; assumption.
Qed.


(** The same for the arrays of the decoder, at one position. *)
Lemma mixture_empirical_prior_lookup (S U : Z) (sel unsel : list Z) (i : nat)
    (n_term n_noterm : Z) :
  let n_selected_noterm := zsub_from S sel in
  let n_unselected_noterm := zsub_from U unsel in
  let n_term_v := zadd sel unsel in
  let n_noterm_v := zadd n_selected_noterm n_unselected_noterm in
  let p_term := vdiv (floats n_term_v) (floats (zadd n_term_v n_noterm_v)) in
  let p_selected_g_term := vdiv (floats sel) (floats n_term_v) in
  let p_selected_g_noterm := vdiv (floats n_selected_noterm) (floats n_noterm_v) in
  n_term_v !! i = Some n_term → n_noterm_v !! i = Some n_noterm →
  0 < n_term → 0 < n_noterm →
  vadd (vmul (broadcast (length p_selected_g_term) (Array p_term)) p_selected_g_term)
       (vmul (map (sub one) (broadcast (length p_selected_g_term) (Array p_term)))
             p_selected_g_noterm) !! i
  = Some (Fin (Qc_of_Z S / Qc_of_Z (S + U))%Qc).
Proof.
  simpl. unfold vadd, vmul, vdiv, zadd, zsub_from, floats.
  intros Ht Hn Htpos Hnpos. revert Ht Hn.
  rewrite !lookup_zip_with, !list_lookup_fmap, !lookup_zip_with,
    !list_lookup_fmap, !lookup_zip_with, !list_lookup_fmap.
  destruct (sel !! i) as [a|]; simpl; [|done].
  destruct (unsel !! i) as [b|]; simpl; [|done].
  intros [= <-] [= <-]. f_equal. by apply mixture_empirical_prior.
Qed.

(** ** Finite values and the normalization of a vector *)

Lemma finite_of_Z (z : Z) : finite (of_Z z).
Proof. by eexists. Qed.

Lemma finite_nonzero_of_Z (z : Z) : z ≠ 0 → finite_nonzero (of_Z z).
Proof. intros Hz. eexists. split; [done|]. by apply Qc_of_Z_ne_0. Qed.

Lemma finite_nonzero_iff (x : npfloat) :
  finite_nonzero x ↔ finite x ∧ x ≠ zero.
Proof.
  split.
  - intros (q & -> & Hq). split; [by eexists|]. intros [= ->]. done.
  - intros [[q ->] Hq]. exists q. split; [done|]. intros ->. done.
Qed.

Lemma finite_div (x y : npfloat) : finite x → finite_nonzero y → finite (div x y).
Proof.
  intros [a ->] (b & -> & Hb). unfold div.
  rewrite decide_False by done. by eexists.
Qed.

Lemma finite_mul (x y : npfloat) : finite x → finite y → finite (mul x y).
Proof. intros [a ->] [b ->]. by eexists. Qed.

Lemma Forall_zip_with_2 {A B C} (P : A → Prop) (Q : B → Prop) (R : C → Prop)
    (f : A → B → C) (l : list A) (k : list B) :
  (∀ x y, P x → Q y → R (f x y)) →
  Forall P l → Forall Q k → Forall R (zip_with f l k).
Proof.
  intros Hf Hl. revert k. induction Hl as [|x l Hx Hl IH]; intros k Hk; [done|].
  destruct Hk as [|y k Hy Hk]; simpl; [done|].
  constructor; [by apply Hf | by apply IH].
Qed.

Lemma Forall_finite_inv (v : list npfloat) :
  Forall finite v → ∃ qs, v = map Fin qs.
Proof.
  induction 1 as [|x v [q ->] _ [qs ->]]; [by exists []|].
  by exists (q :: qs).
Qed.

Lemma sum_map_Fin (qs : list Qc) : sum (map Fin qs) = Fin (qsum qs).
Proof.
  induction qs as [|q qs IH]; [done|].
  cbn [map]. unfold sum. cbn [foldr]. fold (sum (map Fin qs)). by rewrite IH.
Qed.

Lemma qsum_map_div (qs : list Qc) (s : Qc) :
  qsum (map (λ q, q / s)%Qc qs) = (qsum qs / s)%Qc.
Proof.
  induction qs as [|q qs IH]; simpl.
  - unfold Qcdiv. ring.
  - rewrite IH. unfold Qcdiv. ring.
Qed.

(** A vector of finite values with a non-zero sum, divided by its sum,
    adds up to 1. *)
Lemma normalized_sum (v : list npfloat) :
  Forall finite v → sum v ≠ zero → sum (sdiv v (sum v)) = one.
Proof.
  intros Hfin Hsum. destruct (Forall_finite_inv v Hfin) as [qs ->].
  rewrite sum_map_Fin in *.
  assert (Hs : qsum qs ≠ 0%Qc) by (intros Hq; apply Hsum; by rewrite Hq).
  unfold sdiv. rewrite map_map.
  rewrite (map_ext _ (λ q, Fin (q / qsum qs)%Qc)).
  2:{ intros q. unfold div. by rewrite decide_False. }
  rewrite <- (map_map (λ q, q / qsum qs)%Qc Fin), sum_map_Fin, qsum_map_div.
  unfold one. f_equal. unfold Qcdiv. by apply Qcmult_inv_r.
Qed.

Global Instance finite_dec (x : npfloat) : Decision (finite x).
Proof.
  destruct x as [q| | |]; [left; by exists q | right .. ]; by intros [q Hq].
Defined.

Lemma finite_sum (v : list npfloat) : Forall finite v → finite (sum v).
Proof.
  intros Hv. destruct (Forall_finite_inv v Hv) as [qs ->].
  rewrite sum_map_Fin. by eexists.
Qed.

Lemma finite_div_inv (x s : npfloat) :
  finite (div x s) → finite s → finite x ∧ finite_nonzero s.
Proof.
  intros [q Hq] [b ->]. destruct x as [a| | |]; simpl in Hq.
  - destruct (decide (b = 0%Qc)) as [->|Hb].
    + exfalso. unfold inf_signed in Hq. by destruct (a ?= 0)%Qc.
    + split; [by eexists | by exists b].
  - by destruct (decide (b < 0)%Qc).
  - by destruct (decide (b < 0)%Qc).
  - done.
Qed.

Lemma not_finite_div_inf (x s : npfloat) :
  ¬ finite x → ¬ finite s → ¬ finite (div x s).
Proof.
  intros Hx Hs [q Hq]. destruct x as [a| | |], s as [b| | |]; simpl in Hq;
    try done; try (apply Hx; by eexists); try (apply Hs; by eexists).
Qed.

(** A non-empty vector whose normalized entries are all finite has finite
    entries and a finite, non-zero sum. *)
Lemma normalized_finite_inv (v : list npfloat) :
  v ≠ [] → Forall finite (sdiv v (sum v)) →
  Forall finite v ∧ sum v ≠ zero.
Proof.
  intros Hne Hfin. unfold sdiv in Hfin.
  apply (proj1 (Forall_fmap (λ x, div x (sum v)) finite v)) in Hfin.
  assert (Hs : finite (sum v)).
  { destruct (decide (Forall finite v)) as [Hv | Hv]; [by apply finite_sum|].
    apply not_Forall_Exists in Hv; [|apply _].
    destruct (decide (finite (sum v))) as [|Hns]; [done|].
    exfalso. apply Exists_exists in Hv as (x & Hx & Hnf).
    apply (proj1 (Forall_forall _ _) Hfin) in Hx. simpl in Hx.
    by apply (not_finite_div_inf x (sum v)). }
  assert (Hall : Forall (λ x, finite x ∧ finite_nonzero (sum v)) v).
  { eapply Forall_impl; [exact Hfin|]. intros x Hx. simpl in Hx.
    by apply finite_div_inv. }
  split.
  - eapply Forall_impl; [exact Hall|]. by intros x [Hx _].
  - destruct v as [|x v]; [done|].
    apply Forall_cons in Hall as [[_ Hnz] _].
    by apply finite_nonzero_iff in Hnz as [_ Hnz].
Qed.

(** ** Values of a division by zero *)

Lemma inf_signed_nonneg (q : Qc) : (0 ≤ q)%Qc → degenerate (inf_signed q).
Proof.
  intros Hq. unfold inf_signed, degenerate.
  destruct (q ?= 0)%Qc eqn:Hc; [by left | | by right].
  apply Qclt_alt in Hc. by apply Qcle_not_lt in Hq.
Qed.

Lemma div_by_zero_degenerate (k : Z) :
  0 ≤ k → degenerate (div (of_Z k) (of_Z 0)).
Proof.
  intros Hk. unfold div, of_Z. rewrite decide_True by apply Z2Qc_inj_0.
  by apply inf_signed_nonneg, Qc_of_Z_nonneg.
Qed.

Lemma degenerate_nonneg (x : npfloat) : degenerate x → nonneg x.
Proof. by intros [-> | ->]. Qed.

Lemma nonneg_div_of_Z (a b : Z) : 0 ≤ a → 0 ≤ b → nonneg (div (of_Z a) (of_Z b)).
Proof.
  intros Ha Hb. destruct (decide (b = 0)) as [-> | Hb0].
  - by apply degenerate_nonneg, div_by_zero_degenerate.
  - rewrite div_of_Z by done. simpl. apply Qc_div_nonneg; lia.
Qed.

Lemma mul_degenerate (x y : npfloat) :
  degenerate x → nonneg y → degenerate (mul x y).
Proof.
  intros [-> | ->] Hy; destruct y as [q| | |]; simpl in *;
    try done; try (by left); try (by right).
  by apply inf_signed_nonneg.
Qed.

Lemma div_degenerate_Fin (x : npfloat) (p : Qc) :
  degenerate x → (0 ≤ p)%Qc → degenerate (div x (Fin p)).
Proof.
  intros [-> | ->] Hp; simpl; [by left|].
  rewrite decide_False by by apply Qcle_not_lt. by right.
Qed.

Lemma add_degenerate_l (x y : npfloat) : degenerate x → degenerate (add x y).
Proof.
  intros [-> | ->]; destruct y; simpl; try (by left); by right.
Qed.

Lemma add_degenerate_r (x y : npfloat) : degenerate y → degenerate (add x y).
Proof.
  intros [-> | ->]; destruct x; simpl; try (by left); by right.
Qed.

Lemma sum_degenerate (v : list npfloat) (x : npfloat) :
  x ∈ v → degenerate x → degenerate (sum v).
Proof.
  intros Hx Hd. induction Hx as [x v|x y v _ IH]; unfold sum; cbn [foldr].
  - by apply add_degenerate_l.
  - by apply add_degenerate_r, IH.
Qed.

Lemma div_by_degenerate (x s : npfloat) :
  degenerate s → div x s = NaN ∨ div x s = zero.
Proof.
  intros [-> | ->]; destruct x; simpl; try (by left); by right.
Qed.

(** ** Steps that do not raise *)

Lemma traverse_is_Ok {A B} (f : A → result B) (l : list A) :
  Forall (λ x, is_Ok (f x)) l → is_Ok (traverse f l).
Proof.
  induction 1 as [|x l [y Hy] _ [ys Hys]]; simpl; [by eexists|].
  rewrite Hy. simpl. rewrite Hys. simpl. by eexists.
Qed.

Lemma binarize_is_Ok (annotations : Annotations) (features : list string)
    (frequency_threshold : npfloat) :
  Forall (λ f, f ∈ (ann_columns annotations).*1) features →
  is_Ok (binarize annotations features frequency_threshold).
Proof.
  intros Hfeat. unfold binarize.
  destruct (traverse_is_Ok
              (λ f, match list_find (λ c, c.1 = f) (ann_columns annotations) with
                    | Some (_, c) => Ok (map (λ x, ge x frequency_threshold) c.2)
                    | None => Raise KeyError
                    end) features) as [cols Hcols].
  - eapply Forall_impl; [exact Hfeat|]. intros f Hf. simpl in *.
    apply list_elem_of_fmap in Hf as (c & -> & Hc).
    destruct (list_find_elem_of (λ c', c'.1 = c.1) _ c Hc eq_refl) as [[i c'] Hfind].
    rewrite Hfind. by eexists.
  - rewrite Hcols. simpl. by eexists.
Qed.

Lemma concat_imap_not_nil {A B} (f : nat → A → list B) (v : list A) (x : A) :
  x ∈ v → (∀ i, f i x ≠ []) → concat (imap f v) ≠ [].
Proof.
  intros Hx. revert f. induction Hx as [x v|x y v _ IH]; intros f Hf.
  - rewrite imap_cons. simpl. intros Hnil.
    apply app_eq_nil in Hnil as [Hnil _]. by apply (Hf 0%nat).
  - rewrite imap_cons. simpl. intros Hnil.
    apply app_eq_nil in Hnil as [_ Hnil]. revert Hnil. apply IH.
    intros i. apply Hf.
Qed.

Lemma label_positions_not_nil (index : list string) (label : string) :
  label ∈ index → label_positions index label ≠ [].
Proof.
  intros Hl. unfold label_positions.
  apply (concat_imap_not_nil _ _ label Hl).
  intros i. by rewrite decide_True.
Qed.

Lemma loc_values_is_Ok (df : BoolFrame) (labels : list string) :
  Forall (λ l, l ∈ bf_index df) labels → is_Ok (loc_values df labels).
Proof.
  intros Hl. unfold loc_values, loc.
  destruct (traverse_is_Ok
              (λ l, match label_positions (bf_index df) l with
                    | [] => Raise KeyError
                    | ps => Ok ps
                    end) labels) as [ps Hps].
  - eapply Forall_impl; [exact Hl|]. intros l Hin. simpl in *.
    pose proof (label_positions_not_nil _ _ Hin) as Hne.
    destruct (label_positions (bf_index df) l); [done | by eexists].
  - rewrite Hps. simpl. by eexists.
Qed.

Lemma default_features_columns (annotations : Annotations) :
  Forall (λ f, f ∈ (ann_columns annotations).*1) (default_features annotations).
Proof.
  apply Forall_forall. intros f Hf. unfold default_features in Hf.
  apply list_elem_of_filter in Hf as [Hid Hf].
  apply elem_of_cons in Hf as [-> | Hf]; [|done].
  exfalso. apply Hid. unfold id_cols. apply elem_of_cons. by left.
Qed.

Lemma length_cells_T (a b c d : list Z) :
  length b = length a → length c = length a → length d = length a →
  length (cells_T a b c d) = length a.
Proof.
  intros Hb Hc Hd. unfold cells_T. rewrite length_zip_with, !length_zip. lia.
Qed.

Lemma zsum_count_nonneg (cols : list (list bool)) : 0 ≤ zsum (map count cols).
Proof.
  induction cols as [|col cols IH]; simpl; [lia|].
  pose proof (count_nonneg col). lia.
Qed.

(** ** The columns of the loop over the features *)

Lemma traverse_spec {A B} (f : A → result B) (l : list A) :
  match traverse f l with
  | Ok l' => Forall2 (λ x y, f x = Ok y) l l'
  | Raise e => ∃ x, x ∈ l ∧ f x = Raise e
  end.
Proof.
  induction l as [|x l IH]; cbn [traverse]; [constructor|].
  unfold mbind, result_bind. destruct (f x) as [y|e] eqn:Hx.
  - destruct (traverse f l) as [ys|e].
    + by constructor.
    + destruct IH as (x' & Hin & Hx'). exists x'. split; [by right|done].
  - exists x. split; [by left|done].
Qed.

Lemma concat_imap_filter_length {A} (P : A → Prop) `{∀ x, Decision (P x)}
    (g : nat → nat) (v : list A) :
  length (concat (imap (λ i x, if decide (P x) then [g i] else []) v)) =
  length (filter P v).
Proof.
  revert g. induction v as [|x v IH]; intros g; [done|].
  rewrite imap_cons. cbn [concat]. rewrite length_app.
  pose proof (IH (g ∘ S)) as IH'. unfold compose in *.
  destruct (decide (P x)).
  - rewrite filter_cons_True by done. cbn [length]. f_equal. exact IH'.
  - rewrite filter_cons_False by done. exact IH'.
Qed.

(** A label stands at as many positions as it occurs in the index: at one
    position, in an index without duplicates. *)
Lemma label_positions_length (index : list string) (label : string) :
  length (label_positions index label) =
  length (filter (λ x, x = label) index).
Proof. exact (concat_imap_filter_length (λ x, x = label) id index). Qed.

Lemma filter_eq_NoDup_length (index : list string) (label : string) :
  NoDup index → label ∈ index →
  length (filter (λ x, x = label) index) = 1%nat.
Proof.
  induction 1 as [|x index Hx _ IH]; intros Hin; [by apply elem_of_nil in Hin|].
  destruct (decide (x = label)) as [->|Hne].
  - rewrite filter_cons_True by done. cbn [length]. f_equal.
    apply length_zero_iff_nil.
    destruct (filter (λ x, x = label) index) as [|y ys] eqn:Hf; [done|].
    assert (Hy : y ∈ filter (λ x, x = label) index) by (rewrite Hf; by left).
    apply list_elem_of_filter in Hy as [-> Hy]. done.
  - rewrite filter_cons_False by done. apply IH.
    apply elem_of_cons in Hin as [->|]; done.
Qed.

Lemma elem_of_concat_imap {A} (P : A → Prop) `{∀ x, Decision (P x)}
    (g : nat → nat) (v : list A) (k : nat) :
  k ∈ concat (imap (λ i x, if decide (P x) then [g i] else []) v) ↔
  ∃ i x, k = g i ∧ v !! i = Some x ∧ P x.
Proof.
  revert g. induction v as [|y v IH]; intros g.
  - split; [by intros ?%elem_of_nil | by intros (i & x & _ & ? & _)].
  - rewrite imap_cons. cbn [concat]. rewrite elem_of_app.
    pose proof (IH (g ∘ S)) as IH'. unfold compose in IH'. rewrite IH'.
    split.
    + intros [Hk | (i & x & -> & Hi & Hx)].
      * destruct (decide (P y)); [|by apply elem_of_nil in Hk].
        apply list_elem_of_singleton in Hk as ->. by exists 0%nat, y.
      * by exists (S i), x.
    + intros ([|i] & x & -> & Hi & Hx); cbn in Hi.
      * injection Hi as ->. left. rewrite decide_True by done.
        by apply list_elem_of_singleton.
      * right. by exists i, x.
Qed.

Lemma elem_of_label_positions (index : list string) (label : string) (i : nat) :
  i ∈ label_positions index label ↔ index !! i = Some label.
Proof.
  unfold label_positions.
  rewrite (elem_of_concat_imap (λ x, x = label) id index i). split.
  - by intros (j & x & -> & Hj & ->).
  - intros Hi. by exists i, label.
Qed.

(** A label that stands once in the index stands at one position. *)
Lemma label_positions_NoDup (index : list string) (i : nat) (label : string) :
  NoDup index → index !! i = Some label → label_positions index label = [i].
Proof.
  intros Hnd Hi.
  pose proof (label_positions_length index label) as Hlen.
  rewrite filter_eq_NoDup_length in Hlen
    by (try done; by eapply list_elem_of_lookup_2).
  destruct (label_positions index label) as [|j [|j' ps]] eqn:Hps; try done.
  f_equal. symmetry.
  assert (Hj : j ∈ label_positions index label) by (rewrite Hps; by left).
  apply elem_of_label_positions in Hj.
  by apply (NoDup_lookup index i j label).
Qed.

(** The loop over the features passes exactly when no feature is listed
    twice, and then it meets the columns of the frame in their order. *)
Lemma term_columns_inv (features : list string) (features_df : BoolFrame)
    (term_columns : list (list bool)) :
  length (bf_columns features_df) = length features →
  traverse (getitem features features_df) features = Ok term_columns →
  NoDup features ∧ term_columns = bf_columns features_df.
Proof.
  intros Hlen Htrav.
  pose proof (traverse_spec (getitem features features_df) features) as Hspec.
  rewrite Htrav in Hspec.
  assert (Hpos : ∀ i term, features !! i = Some term →
            label_positions features term = [i] ∧
            term_columns !! i = bf_columns features_df !! i).
  { intros i term Hi.
    destruct (Forall2_lookup_l _ _ _ _ _ Hspec Hi) as (col & Hcol & Hget).
    unfold getitem in Hget.
    destruct (label_positions features term) as [|j [|j' ps]] eqn:Hps;
      try done.
    assert (Hin : i ∈ label_positions features term)
      by by apply elem_of_label_positions.
    rewrite Hps in Hin. apply list_elem_of_singleton in Hin as ->.
    split; [done|].
    destruct (bf_columns features_df !! j) as [col'|]; [|done].
    injection Hget as ->. done. }
  split.
  - apply NoDup_alt. intros i j term Hi Hj.
    destruct (Hpos i term Hi) as [Hpi _], (Hpos j term Hj) as [Hpj _].
    congruence.
  - apply list_eq_same_length with (length features);
      [done | symmetry; by eapply Forall2_length |].
    intros i x y Hi Hx Hy.
    destruct (lookup_lt_is_Some_2 features i Hi) as [term Hterm].
    destruct (Hpos i term Hterm) as [_ Heq]. congruence.
Qed.

Lemma term_columns_ok (features : list string) (features_df : BoolFrame) :
  length (bf_columns features_df) = length features →
  NoDup features →
  traverse (getitem features features_df) features
    = Ok (bf_columns features_df).
Proof.
  intros Hlen Hnd.
  pose proof (traverse_spec (getitem features features_df) features) as Hspec.
  assert (Hget : ∀ i term, features !! i = Some term →
            ∃ col, bf_columns features_df !! i = Some col ∧
                   getitem features features_df term = Ok col).
  { intros i term Hi.
    destruct (lookup_lt_is_Some_2 (bf_columns features_df) i) as [col Hcol].
    { rewrite Hlen. by eapply lookup_lt_Some. }
    exists col. split; [done|]. unfold getitem.
    by rewrite (label_positions_NoDup _ i term Hnd Hi), Hcol. }
  destruct (traverse _ features) as [cols|e].
  - f_equal.
    apply list_eq_same_length with (length features);
      [done | symmetry; by eapply Forall2_length |].
    intros i x y Hi Hx Hy.
    destruct (lookup_lt_is_Some_2 features i Hi) as [term Hterm].
    destruct (Hget i term Hterm) as (col & Hcol & Hok).
    destruct (Forall2_lookup_l _ _ _ _ _ Hspec Hterm) as (col' & Hcol' & Hok').
    congruence.
  - destruct Hspec as (term & Hin & Hraise).
    apply list_elem_of_lookup_1 in Hin as [i Hi].
    destruct (Hget i term Hi) as (col & _ & Hok). congruence.
Qed.

Lemma term_columns_raise (features : list string) (features_df : BoolFrame)
    (e : exn) :
  length (bf_columns features_df) = length features →
  traverse (getitem features features_df) features = Raise e →
  e = ValueError ∧ ¬ NoDup features.
Proof.
  intros Hlen Htrav. split.
  - pose proof (traverse_spec (getitem features features_df) features) as Hspec.
    rewrite Htrav in Hspec. destruct Hspec as (term & Hin & Hraise).
    unfold getitem in Hraise.
    destruct (label_positions features term) as [|i [|i' ps]] eqn:Hps.
    + by apply label_positions_not_nil in Hin.
    + assert (Hi : i ∈ label_positions features term) by (rewrite Hps; by left).
      apply elem_of_label_positions, lookup_lt_Some in Hi.
      destruct (lookup_lt_is_Some_2 (bf_columns features_df) i) as [col Hcol];
        [lia|]. by rewrite Hcol in Hraise.
    + by injection Hraise as <-.
  - intros Hnd. by rewrite (term_columns_ok _ _ Hlen Hnd) in Htrav.
Qed.

(** What the correction step returned. *)
Lemma correct_inv (multipletests : list npfloat → npfloat → string → multitest)
    (correction : option string) (u : npfloat) (p p_corr : list npfloat) :
  match correction with
  | Some method => multitest_result (multipletests p u method)
  | None => Ok p
  end = Ok p_corr →
  match correction with
  | Some method => multipletests p u method = Corrected p_corr
  | None => p_corr = p
  end.
Proof.
  destruct correction as [method|]; [|by intros [= <-]].
  destruct (multipletests p u method); cbn; [by intros [= <-] | done..].
Qed.

(** Lengths of the vectors of the decoders. *)
Ltac len :=
  unfold vdiv, vmul, vsub, vadd, sdiv, floats, zadd, zsub_from, cells_T;
  repeat (rewrite ?length_map, ?length_zip_with, ?length_zip).

(** Inversion of a run that returned: every step that could raise did not. *)
Ltac run_inv H :=
  unfold brainmap_run, neurosynth_run, mbind, result_bind in H;
  cbv beta zeta in H;
  repeat match type of H with
         | context [match ?m with Ok _ => _ | Raise _ => _ end] =>
             let E := fresh "E" in
             destruct m eqn:E; [|discriminate H]
         end;
  try match goal with
      | Hb : binarize _ ?fs _ = Ok ?df,
        Ht : traverse (getitem ?fs ?df) ?fs = Ok _ |- _ =>
          let Hnd := fresh "Hnd" in
          destruct (term_columns_inv _ _ _
                      (proj2 (binarize_inv _ _ _ _ Hb)) Ht) as [Hnd ->]
      end;
  repeat match goal with
         | Hc : match _ with
                | Some _ => multitest_result _
                | None => Ok _
                end = Ok _ |- _ => apply correct_inv in Hc
         end;
  injection H as <-.

Section DecoderSpec.

Variable two_way : list (list (list Z)) → list npfloat.
Variable one_way : list Z → list Z → list npfloat.
Variable p_to_z : list npfloat → string → list npfloat.
Variable chdtrc : npfloat → npfloat → npfloat.
Variable multipletests : list npfloat → npfloat → string → multitest.

Local Abbreviation bm_run :=
  (brainmap_run two_way p_to_z chdtrc multipletests).
Local Abbreviation ns_run :=
  (neurosynth_run two_way one_way p_to_z chdtrc multipletests).

(** What the decoders return is the table of a run that returned. *)
Lemma brainmap_decode_run (coordinates : Coordinates)
    (annotations : Annotations) (ids : list string) (ids2 features : option (list string))
    (frequency_threshold u : npfloat) (correction : option string)
    (L : BrainmapLocals) :
  bm_run coordinates annotations ids ids2 features
    frequency_threshold u correction = Ok L →
  brainmap_decode two_way p_to_z chdtrc multipletests coordinates annotations
    ids ids2 features frequency_threshold u correction = Ok (bm_out_df L).
Proof. intros H. unfold brainmap_decode. by rewrite H. Qed.

Lemma neurosynth_decode_run (coordinates : Coordinates)
    (annotations : Annotations) (ids : list string) (ids2 features : option (list string))
    (frequency_threshold : npfloat) (prior : option npfloat) (u : npfloat)
    (correction : option string) (L : NeurosynthLocals) :
  ns_run coordinates annotations ids ids2 features
    frequency_threshold prior u correction = Ok L →
  neurosynth_decode two_way one_way p_to_z chdtrc multipletests coordinates
    annotations ids ids2 features frequency_threshold prior u correction =
    Ok (ns_out_df L).
Proof. intros H. unfold neurosynth_decode. by rewrite H. Qed.

(** C7.  In both decoders, without [ids2] the unselected studies are the
    sorted, duplicate-free list of exactly those study ids of the
    coordinates table that are not selected (hence disjoint from [ids],
    and together with [ids] covering the table's ids); with [ids2] they
    are [ids2] itself. *)
Theorem unselected_is_sorted_complement (coordinates : Coordinates)
    (annotations : Annotations) (ids : list string) (ids2 features : option (list string))
    (frequency_threshold u : npfloat) (prior : option npfloat)
    (correction : option string) (unselected : list string) :
  (∃ L, bm_run coordinates annotations ids ids2 features
          frequency_threshold u correction = Ok L ∧
        bm_unselected L = unselected) ∨
  (∃ L, ns_run coordinates annotations ids ids2 features
          frequency_threshold prior u correction = Ok L ∧
        ns_unselected L = unselected) →
  match ids2 with
  | None =>
      Sorted str_le unselected ∧ NoDup unselected ∧
      (∀ x, x ∈ unselected ↔ x ∈ coord_id coordinates ∧ x ∉ ids) ∧
      (∀ x, ¬ (x ∈ ids ∧ x ∈ unselected)) ∧
      (∀ x, x ∈ coord_id coordinates → x ∈ ids ∨ x ∈ unselected)
  | Some ids2 => unselected = ids2
  end.
Proof.
  intros HL.
  assert (unselected =
          match ids2 with
          | Some ids2 => ids2
          | None => sorted (list_to_set (sorted (list_to_set (coord_id coordinates)))
                            ∖ list_to_set ids)
          end) as ->.
  { destruct HL as [(L & H & <-) | (L & H & <-)]; run_inv H; reflexivity. }
  destruct ids2 as [ids2|]; [reflexivity|].
  split; [apply Sorted_sorted|]. split; [apply NoDup_sorted|].
  split; [apply complement_spec|]. split.
  - intros x [Hsel Hun]. apply complement_spec in Hun. tauto.
  - intros x Hx. destruct (decide (x ∈ ids)); [by left|].
    right. by apply complement_spec.
Qed.

(** C3.  In [brainmap_decode] the raw p-values are the binomial tail and
    the chi-square tail; then, for every feature with fewer than 5
    selected studies showing it, both p-values are overwritten with 1 and
    all others are kept; and it is these vectors that the correction (if
    any) receives and whose corrected values the table reports. *)
Theorem rare_features_suppressed (coordinates : Coordinates)
    (annotations : Annotations) (ids : list string) (ids2 features : option (list string))
    (frequency_threshold u : npfloat) (correction : option string)
    (L : BrainmapLocals) :
  bm_run coordinates annotations ids ids2 features
    frequency_threshold u correction = Ok L →
  bm_p_fi_raw L =
    map (sub one)
      (zip_with (λ k n, binom_cdf k n (bm_p_selected L))
         (bm_n_selected_term L) (bm_n_term_foci L)) ∧
  bm_p_ri_raw L =
    map (chdtrc one)
      (two_way (cells_T (bm_n_selected_term L) (bm_n_selected_noterm L)
                        (bm_n_unselected_term L) (bm_n_unselected_noterm L))) ∧
  (∀ i k, bm_n_selected_term L !! i = Some k →
     bm_p_fi L !! i = (if bool_decide (k < 5) then Some one else bm_p_fi_raw L !! i) ∧
     bm_p_ri L !! i = (if bool_decide (k < 5) then Some one else bm_p_ri_raw L !! i)) ∧
  match correction with
  | Some method => multipletests (bm_p_fi L) u method = Corrected (bm_p_corr_fi L)
  | None => bm_p_corr_fi L = bm_p_fi L
  end ∧
  match correction with
  | Some method => multipletests (bm_p_ri L) u method = Corrected (bm_p_corr_ri L)
  | None => bm_p_corr_ri L = bm_p_ri L
  end ∧
  pForward (bm_out_df L) = bm_p_corr_fi L ∧
  pReverse (bm_out_df L) = bm_p_corr_ri L.
Proof.
  intros H. run_inv H. simpl.
  match goal with
  | Hout : out_frame _ _ _ _ _ _ _ = Ok _ |- _ =>
      apply out_frame_inv in Hout as [-> _]
  end.
  repeat match goal with
         | Hm : mask_assign _ _ _ = Ok _ |- _ =>
             apply mask_assign_lookup in Hm as [_ Hm]
         end.
  simpl. repeat split; try reflexivity; try assumption;
    match goal with
    | Hm : ∀ i m, _ → ?l !! i = _ |- ?l !! _ = _ =>
        apply Hm; by rewrite list_lookup_fmap, H
    end.
Qed.

(** C1, amended.  The raw forward p-value of every feature is
    1 - CDF_binomial(n_selected_term; n_term_foci, p_selected) with
    p_selected = n_selected / n_foci_in_database: the cumulative
    probability is taken at n_selected_term itself.  For p_selected <= 1
    this is the probability of more than n_selected_term successes in
    n_term_foci trials. *)
Theorem forward_p_value_is_binomial_tail (coordinates : Coordinates)
    (annotations : Annotations) (ids : list string) (ids2 features : option (list string))
    (frequency_threshold u : npfloat) (correction : option string)
    (L : BrainmapLocals) :
  bm_run coordinates annotations ids ids2 features
    frequency_threshold u correction = Ok L →
  bm_n_selected L = Z.of_nat (length ids) ∧
  bm_n_foci_in_database L = Z.of_nat (length (coord_id coordinates)) ∧
  bm_p_selected L =
    div (of_Z (bm_n_selected L)) (of_Z (bm_n_foci_in_database L)) ∧
  length (bm_p_fi_raw L) = length (bm_features L) ∧
  bm_p_fi_raw L =
    map (sub one)
      (zip_with (λ k n, binom_cdf k n (bm_p_selected L))
         (bm_n_selected_term L) (bm_n_term_foci L)) ∧
  ∀ i k n p,
    bm_n_selected_term L !! i = Some k →
    bm_n_term_foci L !! i = Some n →
    bm_p_selected L = Fin p → (p ≤ 1)%Qc →
    bm_p_fi_raw L !! i =
      Some (Fin (binom_range (S (Z.to_nat k)) (Z.to_nat n - Z.to_nat k)
                   (Z.to_nat n) p)).
Proof.
  intros H. run_inv H. simpl.
  match goal with
  | Hb : binarize _ _ _ = Ok _ |- _ => apply binarize_inv in Hb as [Hidx Hcols]
  end.
  repeat match goal with
         | Hv : loc_values _ _ = Ok _ |- _ => apply loc_values_length in Hv
         end.
  match goal with
  | Ht : truediv _ _ = Ok _ |- _ => apply truediv_inv in Ht as [Hfoci ->]
  end.
  repeat split; try reflexivity.
  - unfold div, of_Z.
    destruct (decide _) as [Hq|]; [|done].
    rewrite <- Z2Qc_inj_0 in Hq. by apply Z2Qc_inj in Hq.
  - rewrite length_map, length_zip_with, !length_map. lia.
  - intros i k n p Hk Hn [= <-] Hp1.
    rewrite list_lookup_fmap, lookup_zip_with, Hk. simpl. rewrite Hn. simpl.
    rewrite list_lookup_fmap in Hk, Hn.
    destruct (_ !! i) as [selcol|] in Hk; [|done].
    destruct (_ !! i) as [col|] in Hn; [|done].
    simpl in Hk, Hn. injection Hk as <-. injection Hn as <-.
    f_equal. unfold binom_cdf.
    rewrite (bool_decide_eq_true_2 (0 ≤ isin_sum _ _)) by apply count_nonneg.
    rewrite (bool_decide_eq_true_2 (0 ≤ _)%Qc) by (apply Qc_div_nonneg; lia).
    rewrite (bool_decide_eq_true_2 _ Hp1). simpl.
    rewrite bool_decide_eq_false_2 by (pose proof (count_nonneg selcol); lia).
    unfold sub, one. simpl. f_equal. apply binom_upper_tail.
Qed.

(** C2, amended.  The prior is the empirical base rate of every feature
    exactly when the caller passes [None] for it; a caller that leaves it
    out gets the default 0.5, and any number passed is used as it is, for
    every feature.  The forward and reverse effect sizes are computed
    from that prior. *)
Theorem prior_is_base_rate_only_for_None (coordinates : Coordinates)
    (annotations : Annotations) (ids : list string) (ids2 features : option (list string))
    (frequency_threshold : npfloat) (prior : option npfloat) (u : npfloat)
    (correction : option string) (L : NeurosynthLocals) :
  ns_run coordinates annotations ids ids2 features
    frequency_threshold prior u correction = Ok L →
  (prior = None → ns_prior L = Array (empirical_base_rate L)) ∧
  (prior = default_prior → ns_prior L = Scalar (rat 1 2)) ∧
  (∀ x, prior = Some x → ns_prior L = Scalar x) ∧
  let prior_f := broadcast (length (ns_p_selected_g_term L)) (ns_prior L) in
  effectForward (ns_out_df L) =
    vadd (vmul prior_f (ns_p_selected_g_term L))
         (vmul (map (sub one) prior_f) (ns_p_selected_g_noterm L)) ∧
  probReverse (ns_out_df L) =
    vdiv (vmul (ns_p_selected_g_term L) prior_f) (effectForward (ns_out_df L)).
Proof.
  intros H. run_inv H. simpl.
  match goal with
  | Hout : out_frame _ _ _ _ _ _ _ = Ok _ |- _ =>
      apply out_frame_inv in Hout as [-> _]
  end.
  simpl. repeat split; try (intros ->; reflexivity).
  intros x ->. reflexivity.
Qed.

(** C9, amended.  With [prior=None], every feature shown by some and not
    shown by some of the selected and unselected studies (n_term > 0,
    n_noterm > 0) has, in exact arithmetic, the same forward effect size,
    n_selected / (n_selected + n_unselected).  The float64 values that
    the program computes for two features can differ in the last place:
    with 5 selected and 2 unselected studies, 0.7142857142857143 for a
    feature with counts 5 and 1, 0.7142857142857144 for one with counts
    1 and 1. *)
Theorem empirical_prior_forward_effect_constant :
  (∀ (coordinates : Coordinates) (annotations : Annotations)
     (ids : list string) (ids2 features : option (list string))
     (frequency_threshold u : npfloat)
     (correction : option string) (L : NeurosynthLocals),
     ns_run coordinates annotations ids ids2 features
       frequency_threshold None u correction = Ok L →
     ns_n_selected L = Z.of_nat (length ids) ∧
     ns_n_unselected L = Z.of_nat (length (ns_unselected L)) ∧
     ∀ i n_term n_noterm,
       ns_n_term L !! i = Some n_term → ns_n_noterm L !! i = Some n_noterm →
       0 < n_term → 0 < n_noterm →
       effectForward (ns_out_df L) !! i =
         Some (Fin (Qc_of_Z (ns_n_selected L) /
                    Qc_of_Z (ns_n_selected L + ns_n_unselected L))%Qc)) ∧
  (neurosynth_effects64 5 2 [5; 1; 0] [1; 1; 0] None).1 =
    [f64 7142857142857143 10000000000000000;
     f64 7142857142857144 10000000000000000; NaN].
Proof.
  split; [|apply (bool_decide_unpack _); vm_compute; exact I].
  intros coordinates annotations ids ids2 features frequency_threshold u
    correction L H.
  run_inv H. simpl.
  match goal with
  | Hout : out_frame _ _ _ _ _ _ _ = Ok _ |- _ =>
      apply out_frame_inv in Hout as [-> _]
  end.
  simpl. split; [reflexivity|]. split; [reflexivity|].
  intros i n_term n_noterm Ht Hn Htpos Hnpos.
  by apply (mixture_empirical_prior_lookup _ _ _ _ i n_term n_noterm).
Qed.

(** C4.  The reverse effect sizes that [brainmap_decode] returns are the
    un-normalized values divided by their sum over all features.  When no
    divisor of that computation is zero (the foci count of each feature,
    the number of annotations, p_selected, and the sum itself), they add
    up to 1; put differently, they add up to 1 whenever there is a feature
    and every returned reverse effect size is finite. *)
Theorem reverse_effects_sum_to_one (coordinates : Coordinates)
    (annotations : Annotations) (ids : list string) (ids2 features : option (list string))
    (frequency_threshold u : npfloat) (correction : option string)
    (L : BrainmapLocals) :
  bm_run coordinates annotations ids ids2 features
    frequency_threshold u correction = Ok L →
  probReverse (bm_out_df L) =
    sdiv (bm_p_term_g_selected_raw L) (sum (bm_p_term_g_selected_raw L)) ∧
  (Forall (λ n, n ≠ 0) (bm_n_term_foci L) →
   bm_n_exps_across_terms L ≠ 0 →
   bm_p_selected L ≠ zero →
   sum (bm_p_term_g_selected_raw L) ≠ zero →
   sum (probReverse (bm_out_df L)) = one) ∧
  (bm_features L ≠ [] →
   Forall finite (probReverse (bm_out_df L)) →
   sum (probReverse (bm_out_df L)) = one).
Proof.
  intros H. run_inv H. simpl.
  match goal with
  | Hout : out_frame _ _ _ _ _ _ _ = Ok _ |- _ =>
      apply out_frame_inv in Hout as [-> Hlen]
  end.
  match goal with
  | Ht : truediv _ _ = Ok _ |- _ => apply truediv_inv in Ht as [_ ->]
  end.
  simpl. split; [reflexivity|]. split.
  - intros Hfoci Hexps Hsel Hsum.
    apply normalized_sum; [|exact Hsum].
    match type of Hsel with
    | ?p ≠ zero => assert (Hpsel : finite_nonzero p)
    end.
    { apply finite_nonzero_iff. split; [by eexists | done]. }
    unfold sdiv at 1. apply Forall_fmap, Forall_forall. intros x Hx. simpl.
    revert x Hx. apply Forall_forall.
    eapply Forall_impl; [|intros x Hx; apply finite_div; [exact Hx | exact Hpsel]].
    apply (Forall_zip_with_2 finite finite); [apply finite_mul | |].
    + apply (Forall_zip_with_2 finite finite_nonzero); [apply finite_div | |].
      * apply Forall_fmap, Forall_true. intros z. apply finite_of_Z.
      * unfold floats. apply Forall_fmap. eapply Forall_impl; [exact Hfoci|].
        intros z Hz. by apply finite_nonzero_of_Z.
    + unfold sdiv, floats. apply Forall_fmap, Forall_fmap, Forall_true.
      intros z. unfold compose.
      apply finite_div; [apply finite_of_Z | by apply finite_nonzero_of_Z].
  - intros Hfeat Hfin.
    apply normalized_finite_inv in Hfin as [Hraw Hsum].
    + by apply normalized_sum.
    + intros Hnil.
      do 5 (apply Forall_cons in Hlen as [_ Hlen]).
      apply Forall_cons in Hlen as [Hl _]. rewrite Hnil in Hl.
      apply Hfeat. symmetry in Hl. by apply nil_length_inv in Hl.
Qed.

(** C6, amended.  A feature without foci does not make [brainmap_decode]
    raise.  For a non-empty coordinates table, features that the
    annotations know and none of which is listed twice, study ids that the
    annotations know, tests that keep the length of their input and a
    correction that returns as many p-values as there are features, the
    call returns a table with one row per feature; in it the forward ratio
    of every feature is computed from the counts of that feature alone,
    and it is NaN or +inf for a feature with n_term_foci = 0.  The reverse
    effect sizes are not independent: with such a feature the normalizing
    sum is NaN or +inf, and the reverse effect size of every feature is
    NaN or 0. *)
Theorem degenerate_feature_does_not_raise (coordinates : Coordinates)
    (annotations : Annotations) (ids : list string) (ids2 features : option (list string))
    (frequency_threshold u : npfloat) (correction : option string) :
  coord_id coordinates ≠ [] →
  (∀ fs, features = Some fs →
     Forall (λ f, f ∈ (ann_columns annotations).*1) fs) →
  NoDup (features_of annotations features) →
  Forall (λ x, x ∈ ann_id annotations) ids →
  Forall (λ x, x ∈ ann_id annotations)
    (match ids2 with Some ids2 => ids2 | None => coord_id coordinates end) →
  (∀ cells, length (two_way cells) = length cells) →
  (∀ p tail, length (p_to_z p tail) = length p) →
  (∀ method p, correction = Some method →
     length p = length (features_of annotations features) →
     ∃ p_corr, multipletests p u method = Corrected p_corr ∧
               length p_corr = length p) →
  ∃ L,
    bm_run coordinates annotations ids ids2 features
      frequency_threshold u correction = Ok L ∧
    out_index (bm_out_df L) = bm_features L ∧
    Forall (λ c, length c = length (bm_features L))
      [pForward (bm_out_df L); zForward (bm_out_df L);
       effectForward (bm_out_df L); pReverse (bm_out_df L);
       zReverse (bm_out_df L); probReverse (bm_out_df L)] ∧
    (∀ j k n,
       bm_n_selected_term L !! j = Some k → bm_n_term_foci L !! j = Some n →
       effectForward (bm_out_df L) !! j =
         Some (div (div (of_Z k) (of_Z n)) (bm_p_selected L))) ∧
    (∀ i, bm_n_term_foci L !! i = Some 0 →
       (∃ x, effectForward (bm_out_df L) !! i = Some x ∧ degenerate x) ∧
       Forall (λ x, x = NaN ∨ x = zero) (probReverse (bm_out_df L))).
Proof.
  intros Hcoord Hfeat Hnd Hids Hids2 Htw Hpz Hmt.
  unfold brainmap_run, mbind, result_bind. cbv beta zeta.
  unfold features_of in Hnd, Hmt.
  set (features' := match features with
                    | Some features => features
                    | None => default_features annotations
                    end) in *.
  set (unselected := match ids2 with
                     | Some ids2 => ids2
                     | None => sorted _
                     end).
  (* binarize *)
  destruct (binarize_is_Ok annotations features' frequency_threshold)
    as [features_df Hbin].
  { subst features'. destruct features as [fs|];
      [by apply Hfeat | apply default_features_columns]. }
  rewrite Hbin. apply binarize_inv in Hbin as [Hindex Hcols].
  (* the two selections *)
  destruct (loc_values_is_Ok features_df ids) as [sel_array Hsel].
  { by rewrite Hindex. }
  rewrite Hsel. apply loc_values_length in Hsel as Hsel_len.
  destruct (loc_values_is_Ok features_df unselected) as [unsel_array Hunsel].
  { rewrite Hindex. subst unselected. destruct ids2 as [l|]; [done|].
    apply Forall_forall. intros x Hx. apply complement_spec in Hx as [Hx _].
    by apply (proj1 (Forall_forall _ _) Hids2). }
  rewrite Hunsel. apply loc_values_length in Hunsel as Hunsel_len.
  (* p_selected *)
  assert (Hfoci : Z.of_nat (length (coord_id coordinates)) ≠ 0).
  { destruct (coord_id coordinates); [done | simpl; lia]. }
  unfold truediv at 1. rewrite decide_False by done.
  rewrite div_of_Z by done.
  (* the loop over the features *)
  rewrite (term_columns_ok features' features_df Hcols Hnd).
  set (n_selected_term := map count sel_array).
  set (n_term_foci := map (λ col, isin_sum (coord_id coordinates)
                             (index_where (bf_index features_df) col true))
                          (bf_columns features_df)).
  set (n_noterm_foci := map (λ col, isin_sum (coord_id coordinates)
                               (index_where (bf_index features_df) col false))
                            (bf_columns features_df)).
  set (n_unselected_term := map count unsel_array).
  set (p_selected := Fin _).
  assert (Hlen_sel : length n_selected_term = length features').
  { subst n_selected_term. rewrite length_map. lia. }
  assert (Hlen_unsel : length n_unselected_term = length features').
  { subst n_unselected_term. rewrite length_map. lia. }
  assert (Hlen_foci : length n_term_foci = length features').
  { subst n_term_foci. rewrite length_map. lia. }
  assert (Hlen_nofoci : length n_noterm_foci = length features').
  { subst n_noterm_foci. rewrite length_map. lia. }
  (* rare features *)
  unfold mask_assign at 1. rewrite decide_True by (len; lia).
  unfold mask_assign at 1. rewrite decide_True by (len; rewrite Htw; len; lia).
  set (p_fi := zip_with _ _ (map (sub one) _)).
  set (p_ri := zip_with _ _ (map (chdtrc one) _)).
  assert (Hlen_fi : length p_fi = length features') by (subst p_fi; len; lia).
  assert (Hlen_ri : length p_ri = length features').
  { subst p_ri. len. rewrite Htw. len. lia. }
  assert (Hcorr : ∀ p, length p = length features' →
            ∃ p_corr,
              match correction with
              | Some method => multitest_result (multipletests p u method)
              | None => Ok p
              end = Ok p_corr ∧ length p_corr = length features').
  { intros p Hp. destruct correction as [method|]; [|by exists p].
    destruct (Hmt method p eq_refl Hp) as (p_corr & -> & Hq).
    exists p_corr. split; [done | congruence]. }
  destruct (Hcorr p_fi Hlen_fi) as (p_corr_fi & -> & Hlen_cfi).
  destruct (Hcorr p_ri Hlen_ri) as (p_corr_ri & -> & Hlen_cri).
  unfold vmul_checked at 1. rewrite decide_True by (rewrite Hpz; len; lia).
  unfold vmul_checked at 1. rewrite decide_True by (rewrite Hpz; len; lia).
  unfold out_frame. rewrite decide_True.
  2:{ repeat constructor; try done; len; rewrite ?Hpz; len; lia. }
  eexists. split; [reflexivity|].
  cbn [bm_out_df bm_features bm_n_selected_term bm_n_term_foci bm_p_selected
       out_index pForward zForward effectForward pReverse zReverse probReverse].
  split; [reflexivity|]. split.
  { repeat constructor; try done; len; rewrite ?Hpz; len; lia. }
  assert (Hfwd : ∀ j k n,
            n_selected_term !! j = Some k → n_term_foci !! j = Some n →
            sdiv (vdiv (floats n_selected_term) (floats n_term_foci)) p_selected
              !! j = Some (div (div (of_Z k) (of_Z n)) p_selected)).
  { intros j k n Hk Hn. unfold sdiv, vdiv, floats.
    by rewrite list_lookup_fmap, lookup_zip_with, !list_lookup_fmap, Hk, Hn. }
  split; [exact Hfwd|].
  intros i Hi.
  destruct (n_selected_term !! i) as [k|] eqn:Hk.
  2:{ apply lookup_ge_None in Hk. apply lookup_lt_Some in Hi. lia. }
  destruct (n_unselected_term !! i) as [k'|] eqn:Hk'.
  2:{ apply lookup_ge_None in Hk'. apply lookup_lt_Some in Hi. lia. }
  assert (Hk0 : 0 ≤ k).
  { subst n_selected_term. rewrite list_lookup_fmap in Hk.
    destruct (sel_array !! i); [|done]. injection Hk as <-. apply count_nonneg. }
  assert (Hk'0 : 0 ≤ k').
  { subst n_unselected_term. rewrite list_lookup_fmap in Hk'.
    destruct (unsel_array !! i); [|done]. injection Hk' as <-. apply count_nonneg. }
  assert (Hp0 : (0 ≤ Qc_of_Z (Z.of_nat (length ids)) /
                     Qc_of_Z (Z.of_nat (length (coord_id coordinates))))%Qc).
  { apply Qc_div_nonneg; lia. }
  pose proof (div_by_zero_degenerate k Hk0) as Hdeg.
  split.
  - eexists. split; [by apply Hfwd|]. by apply div_degenerate_Fin.
  - unfold sdiv at 1. apply Forall_fmap, Forall_true. intros x. unfold compose.
    apply div_by_degenerate.
    apply (sum_degenerate _
             (div (mul (div (of_Z k) (of_Z 0))
                       (div (of_Z (k + k'))
                            (of_Z (zsum (map count (bf_columns features_df))))))
                  p_selected)).
    + apply list_elem_of_lookup. exists i.
      unfold sdiv, vmul, vdiv, floats, zadd.
      rewrite list_lookup_fmap, lookup_zip_with, lookup_zip_with,
        !list_lookup_fmap, lookup_zip_with, Hk, Hi, Hk'. reflexivity.
    + apply div_degenerate_Fin; [|exact Hp0].
      apply mul_degenerate; [exact Hdeg|].
      apply nonneg_div_of_Z; [lia | apply zsum_count_nonneg].
Qed.

End DecoderSpec.

(** Evaluation of a run that returned. *)
Ltac run_eval E := vm_compute in E; first [discriminate E | injection E as <-].

(** C1, as stated: in the example 'pain' has 5 selected studies and 8
    foci, p_selected is 1/2; the code gives 37/256, the probability of at
    least 5 successes is 93/256. *)
Lemma forward_p_value_not_at_least :
  ∃ L, ex_brainmap ex_coordinates None = Ok L ∧
       bm_p_fi_raw L !! 0%nat = Some (rat 37 256) ∧
       p_forward_at_least L !! 0%nat = Some (rat 93 256) ∧
       bm_p_fi_raw L ≠ p_forward_at_least L.
Proof.
  destruct (ex_brainmap ex_coordinates None) as [L|] eqn:E; run_eval E.
  eexists. split; [reflexivity|].
  split; [|split]; apply (bool_decide_unpack _); vm_compute; exact I.
Qed.

Lemma forward_p_value_is_binomial_tail_witness :
  ∃ L p, ex_brainmap ex_coordinates None = Ok L ∧
         bm_p_selected L = Fin p ∧ (p ≤ 1)%Qc ∧
         bm_p_fi_raw L !! 0%nat = Some (Fin (binom_range 6 3 8 p)).
Proof.
  destruct (ex_brainmap ex_coordinates None) as [L|] eqn:E.
  - unfold ex_brainmap in E.
    pose proof (forward_p_value_is_binomial_tail _ _ _ _ _ _ _ _ _ _ _ _ _ E)
      as (_ & _ & _ & _ & _ & Htail).
    exists L.
    assert (Hk : bm_n_selected_term L !! 0%nat = Some 5)
      by (run_eval E; reflexivity).
    assert (Hn : bm_n_term_foci L !! 0%nat = Some 8)
      by (run_eval E; reflexivity).
    destruct (bm_p_selected L) as [p| | |] eqn:Hp;
      try (run_eval E; discriminate Hp).
    assert (Hp1 : (p ≤ 1)%Qc).
    { run_eval E. injection Hp as <-. by vm_compute. }
    exists p. split; [reflexivity|]. split; [reflexivity|].
    split; [exact Hp1|].
    apply (Htail 0%nat 5 8 p Hk Hn eq_refl Hp1).
  - run_eval E.
Defined.

Lemma rare_features_suppressed_witness :
  ∃ L, ex_brainmap ex_coordinates None = Ok L ∧
       bm_n_selected_term L = [5; 1; 0] ∧
       bm_p_fi L !! 0%nat = bm_p_fi_raw L !! 0%nat ∧
       bm_p_fi L !! 1%nat = Some one ∧ bm_p_ri L !! 1%nat = Some one.
Proof.
  destruct (ex_brainmap ex_coordinates None) as [L|] eqn:E.
  - unfold ex_brainmap in E.
    pose proof (rare_features_suppressed _ _ _ _ _ _ _ _ _ _ _ _ _ E)
      as (_ & _ & Hrare & _).
    assert (Hk : bm_n_selected_term L = [5; 1; 0])
      by (run_eval E; reflexivity).
    exists L. split; [reflexivity|]. split; [exact Hk|].
    rewrite Hk in Hrare.
    split; [apply (Hrare 0%nat 5 eq_refl) | apply (Hrare 1%nat 1 eq_refl)].
  - run_eval E.
Defined.

Lemma unselected_is_sorted_complement_witness :
  (∃ L, ex_brainmap ex_coordinates None = Ok L ∧
        bm_unselected L = ["s6"; "s7"] ∧
        Sorted str_le (bm_unselected L) ∧
        ∀ x, x ∈ bm_unselected L ↔ x ∈ coord_id ex_coordinates ∧ x ∉ ex_ids) ∧
  (∃ L, ex_neurosynth default_prior = Ok L ∧
        ns_unselected L = ["s6"; "s7"] ∧
        Sorted str_le (ns_unselected L) ∧
        ∀ x, x ∈ ns_unselected L ↔ x ∈ coord_id ex_coordinates ∧ x ∉ ex_ids) ∧
  (∃ L, neurosynth_run two_way_ones one_way_ones p_to_z_id chdtrc_id
          multipletests_id ex_coordinates ex_annotations ex_ids
          (Some ["s8"; "s6"]) None default_frequency_threshold default_prior
          default_u default_correction = Ok L ∧
        ns_unselected L = ["s8"; "s6"]).
Proof.
  split; [|split].
  - destruct (ex_brainmap ex_coordinates None) as [L|] eqn:E.
    + unfold ex_brainmap in E.
      pose proof (unselected_is_sorted_complement two_way_ones one_way_ones
                    p_to_z_id chdtrc_id multipletests_id _ _ _ _ _ _ _ None _
                    (bm_unselected L)
                    (or_introl (ex_intro _ L (conj E eq_refl))))
        as (Hsorted & _ & Hmem & _).
      exists L. split; [reflexivity|].
      split; [|split; [exact Hsorted | exact Hmem]].
      run_eval E. reflexivity.
    + run_eval E.
  - destruct (ex_neurosynth default_prior) as [L|] eqn:E.
    + unfold ex_neurosynth in E.
      pose proof (unselected_is_sorted_complement two_way_ones one_way_ones
                    p_to_z_id chdtrc_id multipletests_id _ _ _ _ _ _
                    default_u _ _ (ns_unselected L)
                    (or_intror (ex_intro _ L (conj E eq_refl))))
        as (Hsorted & _ & Hmem & _).
      exists L. split; [reflexivity|].
      split; [|split; [exact Hsorted | exact Hmem]].
      run_eval E. reflexivity.
    + run_eval E.
  - destruct (neurosynth_run two_way_ones one_way_ones p_to_z_id chdtrc_id
                multipletests_id ex_coordinates ex_annotations ex_ids
                (Some ["s8"; "s6"]) None default_frequency_threshold
                default_prior default_u default_correction) as [L|] eqn:E.
    + exists L. split; [reflexivity|].
      exact (unselected_is_sorted_complement two_way_ones one_way_ones
               p_to_z_id chdtrc_id multipletests_id _ _ _ _ _ _
               default_u _ _ (ns_unselected L)
               (or_intror (ex_intro _ L (conj E eq_refl)))).
    + run_eval E.
Defined.

(** C2, as stated: a caller that supplies no prior gets the default 0.5
    for every feature, not the base rates 6/7, 2/7 and 0 of the example. *)
Lemma default_prior_is_not_base_rate :
  ∃ L, ex_neurosynth default_prior = Ok L ∧
       broadcast (length (ns_features L)) (ns_prior L) =
         [rat 1 2; rat 1 2; rat 1 2] ∧
       empirical_base_rate L = [rat 6 7; rat 2 7; zero] ∧
       broadcast (length (ns_features L)) (ns_prior L) ≠ empirical_base_rate L.
Proof.
  destruct (ex_neurosynth default_prior) as [L|] eqn:E; run_eval E.
  eexists. split; [reflexivity|].
  split; [|split]; apply (bool_decide_unpack _); vm_compute; exact I.
Qed.

Lemma prior_is_base_rate_only_for_None_witness :
  ∃ L, ex_neurosynth None = Ok L ∧
       ns_prior L = Array (empirical_base_rate L).
Proof.
  destruct (ex_neurosynth None) as [L|] eqn:E.
  - unfold ex_neurosynth in E.
    pose proof (prior_is_base_rate_only_for_None _ _ _ _ _ _ _ _ _ _ _ _ _ _ _ E)
      as (Hnone & _).
    exists L. split; [reflexivity|]. by apply Hnone.
  - run_eval E.
Defined.

(** C9, as stated: in the float64 arithmetic of the program the forward
    effect sizes of the example are 0.7142857142857143 for 'pain' and
    0.7142857142857144 for 'vision': not the same constant. *)
Lemma empirical_prior_forward_effect_in_float64 :
  ∃ L, ex_neurosynth None = Ok L ∧
       ns_n_term L = [6; 2; 0] ∧ ns_n_noterm L = [1; 5; 7] ∧
       (neurosynth_effects64 (ns_n_selected L) (ns_n_unselected L)
          (ns_n_selected_term L) (ns_n_unselected_term L) None).1 =
         [f64 7142857142857143 10000000000000000;
          f64 7142857142857144 10000000000000000; NaN] ∧
       f64 7142857142857143 10000000000000000 ≠
       f64 7142857142857144 10000000000000000.
Proof.
  destruct (ex_neurosynth None) as [L|] eqn:E; run_eval E.
  eexists. split; [reflexivity|].
  split; [|split; [|split]]; apply (bool_decide_unpack _); vm_compute; exact I.
Qed.

Lemma empirical_prior_forward_effect_constant_witness :
  ∃ L, ex_neurosynth None = Ok L ∧
       ns_n_term L = [6; 2; 0] ∧ ns_n_noterm L = [1; 5; 7] ∧
       ns_n_selected L = 5 ∧ ns_n_unselected L = 2 ∧
       effectForward (ns_out_df L) !! 0%nat =
         Some (Fin (Qc_of_Z 5 / Qc_of_Z (5 + 2))%Qc) ∧
       effectForward (ns_out_df L) !! 1%nat =
         Some (Fin (Qc_of_Z 5 / Qc_of_Z (5 + 2))%Qc).
Proof.
  destruct (ex_neurosynth None) as [L|] eqn:E.
  - unfold ex_neurosynth in E.
    pose proof (proj1 (empirical_prior_forward_effect_constant _ _ _ _ _)
                  _ _ _ _ _ _ _ _ _ E) as (_ & _ & Hconst).
    assert (Ht : ns_n_term L = [6; 2; 0]) by (run_eval E; reflexivity).
    assert (Hn : ns_n_noterm L = [1; 5; 7]) by (run_eval E; reflexivity).
    assert (Hs : ns_n_selected L = 5) by (run_eval E; reflexivity).
    assert (Hu : ns_n_unselected L = 2) by (run_eval E; reflexivity).
    rewrite Ht, Hn, Hs, Hu in Hconst.
    exists L. split; [reflexivity|].
    split; [exact Ht|]. split; [exact Hn|].
    split; [exact Hs|]. split; [exact Hu|]. split.
    + apply (Hconst 0%nat 6 1); [reflexivity | reflexivity | lia | lia].
    + apply (Hconst 1%nat 2 5); [reflexivity | reflexivity | lia | lia].
  - run_eval E.
Defined.

Lemma reverse_effects_sum_to_one_witness :
  ∃ L, ex_brainmap ex_coordinates (Some ["pain"; "vision"]) = Ok L ∧
       bm_n_term_foci L = [8; 3] ∧
       Forall finite (probReverse (bm_out_df L)) ∧
       sum (probReverse (bm_out_df L)) = one.
Proof.
  destruct (ex_brainmap ex_coordinates (Some ["pain"; "vision"]))
    as [L|] eqn:E.
  - unfold ex_brainmap in E.
    pose proof (reverse_effects_sum_to_one _ _ _ _ _ _ _ _ _ _ _ _ _ E)
      as (_ & Hsum & _).
    exists L. split; [reflexivity|].
    split; [run_eval E; reflexivity|].
    split; [run_eval E; repeat constructor; by eexists|].
    apply Hsum; run_eval E; apply (bool_decide_unpack _); vm_compute; exact I.
  - run_eval E.
Defined.

(** C6, as stated: in the example 'memory' has no foci.  The call returns,
    but the reverse effect size of 'pain', whose own un-normalized value
    is 5/6, comes out as NaN, while it is 45/53 when 'memory' is left out
    of the features.  And the call raises with an empty coordinates table,
    where no feature has foci, and when 'memory' is listed twice. *)
Lemma degenerate_feature_affects_others :
  (∃ L, ex_brainmap ex_coordinates None = Ok L ∧
        bm_features L = ["pain"; "vision"; "memory"] ∧
        bm_n_term_foci L = [8; 3; 0] ∧
        bm_p_term_g_selected_raw L !! 0%nat = Some (rat 5 6) ∧
        probReverse (bm_out_df L) = [NaN; NaN; NaN]) ∧
  (∃ L, ex_brainmap ex_coordinates (Some ["pain"; "vision"]) = Ok L ∧
        probReverse (bm_out_df L) = [rat 45 53; rat 8 53]) ∧
  ex_brainmap (mk_Coordinates []) None = Raise ZeroDivisionError ∧
  ex_brainmap ex_coordinates (Some ["pain"; "memory"; "memory"])
    = Raise ValueError.
Proof.
  split; [|split].
  - destruct (ex_brainmap ex_coordinates None) as [L|] eqn:E; run_eval E.
    eexists. split; [reflexivity|].
    split; [|split; [|split]]; apply (bool_decide_unpack _); vm_compute; exact I.
  - destruct (ex_brainmap ex_coordinates (Some ["pain"; "vision"]))
      as [L|] eqn:E; run_eval E.
    eexists. split; [reflexivity|].
    apply (bool_decide_unpack _); vm_compute; exact I.
  - split; vm_compute; reflexivity.
Qed.

Lemma degenerate_feature_does_not_raise_witness :
  ∃ L, ex_brainmap ex_coordinates None = Ok L ∧
       bm_n_term_foci L !! 2%nat = Some 0 ∧
       (∃ x, effectForward (bm_out_df L) !! 2%nat = Some x ∧ degenerate x) ∧
       Forall (λ x, x = NaN ∨ x = zero) (probReverse (bm_out_df L)).
Proof.
  destruct (degenerate_feature_does_not_raise two_way_ones p_to_z_id chdtrc_id
              multipletests_id ex_coordinates ex_annotations ex_ids None None
              default_frequency_threshold default_u default_correction)
    as (L & E & _ & _ & _ & Hdeg).
  - discriminate.
  - intros fs Hfs. discriminate Hfs.
  - apply (bool_decide_unpack _). vm_compute. exact I.
  - apply (bool_decide_unpack _). vm_compute. exact I.
  - apply (bool_decide_unpack _). vm_compute. exact I.
  - intros cells. apply length_map.
  - reflexivity.
  - intros method [|x p] _ Hp; [discriminate Hp|]. by exists (x :: p).
  - assert (Hfoci : bm_n_term_foci L !! 2%nat = Some 0)
      by (run_eval E; reflexivity).
    exists L. split; [exact E|]. split; [exact Hfoci|]. by apply Hdeg.
Defined.

Lemma gclda_affine_mismatch_raises_witness :
  affine shifted_roi ≠ affine (mask (scenario_model scenario_words ["w"])) ∧
  gclda_decode_roi no_files priors_unweighted
    (scenario_model scenario_words ["w"]) (RoiImage shifted_roi)
    None default_prior_weight = Raise ValueError.
Proof.
  assert (Hne : affine shifted_roi ≠
                affine (mask (scenario_model scenario_words ["w"]))).
  { apply (bool_decide_unpack _). vm_compute. exact I. }
  split; [exact Hne|].
  apply (gclda_affine_mismatch_raises no_files priors_unweighted
           _ shifted_roi); [by left | exact Hne].
Defined.

Lemma gclda_roi_outside_mask_ignored_witness :
  gclda_decode_roi no_files priors_unweighted
    (scenario_model scenario_words ["w"]) (RoiImage scenario_roi)
    None default_prior_weight =
  gclda_decode_roi no_files priors_unweighted
    (scenario_model scenario_words ["w"]) (RoiImage inside_roi)
    None default_prior_weight ∧
  ∃ decoded_df,
    gclda_decode_roi no_files priors_unweighted
      (scenario_model scenario_words ["w"]) (RoiImage outside_roi)
      None default_prior_weight = Ok (decoded_df, [zero; zero]).
Proof.
  split.
  - apply (proj1 (gclda_roi_outside_mask_ignored no_files priors_unweighted
                    (scenario_model scenario_words ["w"])
                    scenario_roi inside_roi default_prior_weight));
      [reflexivity | reflexivity |].
    intros [|[|[|k]]] m Hm Hmask; try reflexivity; try discriminate Hm.
    injection Hm as <-. discriminate Hmask.
  - apply (proj2 (gclda_roi_outside_mask_ignored no_files priors_unweighted
                    (scenario_model scenario_words ["w"])
                    outside_roi outside_roi default_prior_weight));
      [reflexivity | reflexivity | | reflexivity | reflexivity].
    intros [|[|[|k]]] m x Hm Hmask Hx; try discriminate Hm;
      injection Hm as <-; injection Hx as <-;
      first [reflexivity | discriminate Hmask].
Defined.

(** * Further properties *)

(** ** Selections by a boolean mask *)

Lemma where_where_from (v : list bool) : where_ v = where_from 0 v.
Proof.
  unfold where_.
  assert (∀ n, concat (imap (λ i (b : bool), if b then [(n + i)%nat] else []) v)
               = where_from n v) as Hgen.
  { induction v as [|b v IH]; intros n; [done|].
    rewrite imap_cons. cbn [concat where_from]. rewrite Nat.add_0_r. f_equal.
    rewrite <- IH. f_equal. apply imap_ext. intros i x _.
    unfold compose. by rewrite Nat.add_succ_r. }
  apply (Hgen 0%nat).
Qed.

Lemma elem_of_where_from (n : nat) (v : list bool) (x : nat) :
  x ∈ where_from n v ↔ (n ≤ x)%nat ∧ v !! (x - n)%nat = Some true.
Proof.
  revert n. induction v as [|b v IH]; intros n; cbn [where_from].
  - split; [by intros ?%elem_of_nil | by intros [_ ?]].
  - rewrite elem_of_app, IH. split.
    + intros [Hx | [Hle Hx]].
      * destruct b; [|by apply elem_of_nil in Hx].
        apply list_elem_of_singleton in Hx as ->.
        split; [lia|]. by rewrite Nat.sub_diag.
      * split; [lia|]. by replace (x - n)%nat with (S (x - S n)) by lia.
    + intros [Hle Hx]. destruct (decide (x = n)) as [-> | Hne].
      * left. rewrite Nat.sub_diag in Hx. injection Hx as ->.
        by apply list_elem_of_singleton.
      * right. split; [lia|].
        by replace (x - n)%nat with (S (x - S n)) in Hx by lia.
Qed.

Lemma NoDup_where_from (n : nat) (v : list bool) : NoDup (where_from n v).
Proof.
  revert n. induction v as [|b v IH]; intros n; cbn [where_from];
    [apply NoDup_nil_2|].
  apply NoDup_app. split; [|split; [|apply IH]].
  - destruct b; [apply NoDup_singleton | apply NoDup_nil_2].
  - intros x Hx Hin. apply elem_of_where_from in Hin as [Hle _].
    destruct b; [|by apply elem_of_nil in Hx].
    apply list_elem_of_singleton in Hx. lia.
Qed.

(** [np.where(v)[0]] holds exactly the positions of the true entries of
    [v], each once. *)
Lemma elem_of_where (v : list bool) (i : nat) :
  i ∈ where_ v ↔ v !! i = Some true.
Proof.
  rewrite where_where_from, elem_of_where_from, Nat.sub_0_r.
  split; [by intros [_ ?] | intros ?; split; [lia | done]].
Qed.

Lemma NoDup_where (v : list bool) : NoDup (where_ v).
Proof. rewrite where_where_from. apply NoDup_where_from. Qed.

(** The entries a mask keeps, by recursion on the mask. *)
Lemma bool_index_cons {A} (x : A) (a : list A) (m : bool) (mask : list bool)
    (sel : list A) :
  bool_index a mask = Ok sel →
  bool_index (x :: a) (m :: mask) = Ok ((if m then [x] else []) ++ sel)%list.
Proof.
  unfold bool_index. cbn [length].
  destruct (decide (length mask = length a)) as [Hl|]; [|done].
  intros [= <-]. by rewrite decide_True by lia.
Qed.

Lemma bool_index_length_ok {A} (a : list A) (mask : list bool) :
  length mask = length a → ∃ sel, bool_index a mask = Ok sel.
Proof. intros Hl. unfold bool_index. rewrite decide_True by done. by eexists. Qed.

Lemma bool_index_length_inv {A} (a sel : list A) (mask : list bool) :
  bool_index a mask = Ok sel → length mask = length a.
Proof. unfold bool_index. by destruct (decide _). Qed.

(** Number of entries a mask keeps. *)
Lemma bool_index_length {A} (a sel : list A) (mask : list bool) :
  bool_index a mask = Ok sel →
  length sel = length (filter (λ b, b = true) mask).
Proof.
  unfold bool_index. destruct (decide _) as [Hl|]; [|done].
  intros [= <-]. revert a Hl.
  induction mask as [|m mask IH]; intros [|x a] Hl; cbn [length] in Hl;
    try done.
  cbn [zip_with concat]. rewrite length_app, (IH a) by lia.
  destruct m; [by rewrite filter_cons_True | by rewrite filter_cons_False].
Qed.

(** ** More on [gclda_decode_roi] *)

Lemma sum_rows_length (n : nat) (rs : list (list npfloat)) :
  Forall (λ r, length r = n) rs →
  length (foldr vadd (replicate n zero) rs) = n.
Proof.
  induction 1 as [|r rs Hr _ IH]; cbn [foldr]; [apply length_replicate|].
  unfold vadd at 1. rewrite length_zip_with, IH. lia.
Qed.

Lemma take_rows_ok (m : ndarray2) (idx : list nat) :
  Forall (λ i, (i < length (rows m))%nat) idx →
  ∃ rs, take_rows m idx = Ok (mk_ndarray2 (ncols m) rs) ∧
        Forall (λ r, r ∈ rows m) rs ∧ length rs = length idx.
Proof.
  intros Hidx. unfold take_rows.
  destruct (mapM (λ i, rows m !! i) idx) as [rs|] eqn:Hrs.
  - exists rs. split; [done|]. apply mapM_Some in Hrs. split.
    + clear Hidx. induction Hrs as [|i r idx rs Hi _ IH]; constructor; [|done].
      by eapply list_elem_of_lookup_2.
    + symmetry. by eapply Forall2_length.
  - exfalso. assert (is_Some (mapM (λ i, rows m !! i) idx)) as [rs Hsome].
    { apply mapM_is_Some. eapply Forall_impl; [exact Hidx|].
      intros i Hi. by apply lookup_lt_is_Some. }
    congruence.
Qed.

Lemma where_bound (v : list bool) :
  Forall (λ i, (i < length v)%nat) (where_ v).
Proof.
  apply Forall_forall. intros i Hi. apply elem_of_where in Hi.
  by eapply lookup_lt_Some.
Qed.

Section GcldaMore.

Variable nib_load : string → result Nifti1Image.
Variable weight_priors : list npfloat → npfloat → list npfloat.

Local Abbreviation decode := (gclda_decode_roi nib_load weight_priors).

(** X1.  For a model whose arrays fit together and an ROI image in the
    frame of the mask with as many voxels, decoding without a topic prior
    never raises: it returns one weight per topic and one weight per word
    of the vocabulary, indexed by the vocabulary in its order. *)
Theorem gclda_consistent_model_returns (model : GCLDAModel) (img : Nifti1Image)
    (prior_weight : npfloat) :
  consistent model → aligned model img →
  ∃ decoded_df topic_weights,
    decode model (RoiImage img) None prior_weight = Ok (decoded_df, topic_weights) ∧
    length topic_weights = ncols (p_topic_g_voxel_ model) ∧
    wf_index decoded_df = vocabulary model ∧
    length (Weight decoded_df) = length (vocabulary model).
Proof.
  intros (Hwf & Hrows & Hcols & Hvoc) [Haff Hlen].
  unfold gclda_decode_roi, mbind, result_bind. cbv beta iota zeta.
  rewrite Haff. cbn [negb].
  destruct (bool_index_length_ok (map astype_bool (get_data img))
              (map astype_bool (get_data (mask model)))) as [roi_vec Hsel].
  { by rewrite !length_map. }
  rewrite Hsel. cbv beta iota zeta. apply bool_index_length in Hsel.
  destruct (take_rows_ok (p_topic_g_voxel_ model) (where_ roi_vec))
    as (rs & Hrs & Hin & _).
  { rewrite Hrows. unfold n_mask_voxels. rewrite <- Hsel. apply where_bound. }
  rewrite Hrs. cbv beta iota zeta. unfold sum_axis0. cbn [ncols rows].
  assert (Hl : length (foldr vadd (replicate (ncols (p_topic_g_voxel_ model)) zero) rs)
               = ncols (p_topic_g_voxel_ model)).
  { apply sum_rows_length. apply Forall_forall. intros r Hr.
    apply (proj1 (Forall_forall _ _) Hin) in Hr.
    by apply (proj1 (Forall_forall _ _) Hwf). }
  unfold dot. rewrite decide_True by (by rewrite Hl). cbv beta iota zeta.
  unfold weight_frame. rewrite decide_True by (by rewrite length_map).
  cbv beta iota zeta. eexists _, _. split; [reflexivity|]. cbn [wf_index Weight].
  split; [exact Hl|]. split; [reflexivity|]. by rewrite length_map.
Qed.

(** X2.  The input errors of the topic decoder, in the order in which they
    are met: an [roi] that is neither a path nor an image raises [IOError]
    and a path that cannot be loaded raises the error of the load, both
    whatever the model holds; an image in the frame of the mask whose
    number of voxels differs from the mask's raises [IndexError], and so
    does an image that selects an in-mask voxel for which
    [p_topic_g_voxel_] has no row. *)
Theorem gclda_input_errors (model : GCLDAModel)
    (topic_priors : option (list npfloat)) (prior_weight : npfloat) :
  decode model RoiOther topic_priors prior_weight = Raise IOError ∧
  (∀ path e, nib_load path = Raise e →
     decode model (RoiStr path) topic_priors prior_weight = Raise e) ∧
  (∀ img,
     array_equal (affine img) (affine (mask model)) = true →
     length (get_data img) ≠ length (get_data (mask model)) →
     decode model (RoiImage img) topic_priors prior_weight = Raise IndexError) ∧
  (∀ img roi_vec i,
     array_equal (affine img) (affine (mask model)) = true →
     bool_index (map astype_bool (get_data img))
                (map astype_bool (get_data (mask model))) = Ok roi_vec →
     roi_vec !! i = Some true →
     (length (rows (p_topic_g_voxel_ model)) ≤ i)%nat →
     decode model (RoiImage img) topic_priors prior_weight = Raise IndexError).
Proof.
  split; [reflexivity|]. split; [|split].
  - intros path e Hload. unfold gclda_decode_roi. by rewrite Hload.
  - intros img Haff Hlen. unfold gclda_decode_roi, mbind, result_bind.
    cbv beta iota zeta. rewrite Haff. cbn [negb].
    unfold bool_index. rewrite !length_map.
    by rewrite decide_False by congruence.
  - intros img roi_vec i Haff Hsel Hi Hrows.
    unfold gclda_decode_roi, mbind, result_bind. cbv beta iota zeta.
    rewrite Haff. cbn [negb]. rewrite Hsel. cbv beta iota zeta.
    unfold take_rows.
    destruct (mapM _ _) as [rs|] eqn:Hrs; [|done].
    exfalso. assert (is_Some (mapM (λ i, rows (p_topic_g_voxel_ model) !! i)
                                (where_ roi_vec))) as Hsome by by eexists.
    apply mapM_is_Some_1 in Hsome.
    apply elem_of_where in Hi.
    apply (proj1 (Forall_forall _ _) Hsome) in Hi as [r Hr].
    apply lookup_lt_Some in Hr. lia.
Qed.

(** X3.  A topic prior rescales the topic weights and nothing else: when
    decoding without a prior returns the topic weights [tw] and the
    weighted prior has one entry per topic, decoding with the prior returns
    the element-wise product of [tw] and the weighted prior, and the weight
    of every term is the inner product of its row of [p_word_g_topic_] with
    that product.  A weighted prior of another length, other than 1,
    raises [ValueError]. *)
Theorem gclda_topic_prior_rescales (model : GCLDAModel) (roi : roi_arg)
    (topic_priors : list npfloat) (prior_weight : npfloat)
    (decoded_df : WeightFrame) (tw : list npfloat) :
  decode model roi None prior_weight = Ok (decoded_df, tw) →
  let weighted_priors := weight_priors topic_priors prior_weight in
  (length weighted_priors = length tw →
   decode model roi (Some topic_priors) prior_weight =
     Ok (mk_WeightFrame (vocabulary model)
           (map (λ r, inner r (vmul tw weighted_priors))
                (rows (p_word_g_topic_ model))),
         vmul tw weighted_priors)) ∧
  (length weighted_priors ≠ length tw → length weighted_priors ≠ 1%nat →
   decode model roi (Some topic_priors) prior_weight = Raise ValueError).
Proof.
  unfold gclda_decode_roi, mbind, result_bind. cbv beta iota zeta.
  destruct (match roi with
            | RoiStr path => nib_load path
            | RoiImage img => Ok img
            | RoiOther => Raise IOError
            end) as [img|]; [|done].
  destruct (array_equal _ _); cbn [negb]; [|done].
  destruct (bool_index _ _) as [roi_vec|]; [|done].
  destruct (take_rows _ _) as [p_topic_g_roi|]; [|done].
  unfold dot at 1. destruct (decide _) as [Hcols|]; [|done].
  unfold weight_frame at 1. destruct (decide _) as [Hvoc|]; [|done].
  intros [= <- <-]. split.
  - intros Hlen. unfold imul. rewrite decide_True by done.
    unfold dot. rewrite decide_True.
    2:{ unfold vmul. rewrite length_zip_with. lia. }
    unfold weight_frame. rewrite decide_True; [done|].
    rewrite length_map in *. done.
  - intros Hlen Hone. unfold imul. rewrite decide_False by done.
    destruct (weight_priors topic_priors prior_weight) as [|s [|s' ws]];
      cbn [length] in *; done.
Qed.

End GcldaMore.

(** ** Sums of rows *)

Lemma add_comm (x y : npfloat) : add x y = add y x.
Proof. destruct x, y; simpl; try done. f_equal. ring. Qed.

Lemma add_assoc (x y z : npfloat) : add x (add y z) = add (add x y) z.
Proof. destruct x, y, z; simpl; try done. f_equal. ring. Qed.

Lemma add_zero_l (x : npfloat) : add zero x = x.
Proof. destruct x; simpl; try done. f_equal. ring. Qed.

Lemma vadd_assoc (a b c : list npfloat) : vadd a (vadd b c) = vadd (vadd a b) c.
Proof.
  unfold vadd. revert b c. induction a as [|x a IH]; intros [|y b] [|z c];
    cbn [zip_with]; try done. by rewrite add_assoc, IH.
Qed.

Lemma vadd_comm (a b : list npfloat) : vadd a b = vadd b a.
Proof.
  unfold vadd. revert b. induction a as [|x a IH]; intros [|y b];
    cbn [zip_with]; try done. by rewrite add_comm, IH.
Qed.

Lemma vadd_zeros_l (a : list npfloat) :
  vadd (replicate (length a) zero) a = a.
Proof.
  unfold vadd. induction a as [|x a IH]; [done|].
  cbn [length replicate zip_with]. by rewrite add_zero_l, IH.
Qed.

Lemma take_rows_row_sum (m m' : ndarray2) (idx : list nat) :
  take_rows m idx = Ok m' → sum_axis0 m' = row_sum m idx.
Proof.
  unfold take_rows. destruct (mapM _ _) as [rs|] eqn:Hrs; [|done].
  intros [= <-]. unfold sum_axis0, row_sum. cbn [ncols rows].
  apply mapM_Some in Hrs.
  induction Hrs as [|i r idx rs Hi _ IH]; cbn [foldr]; [done|].
  by rewrite Hi, IH.
Qed.

Lemma row_sum_length (m : ndarray2) (idx : list nat) :
  Forall (λ r, length r = ncols m) (rows m) →
  Forall (λ i, (i < length (rows m))%nat) idx →
  length (row_sum m idx) = ncols m.
Proof.
  intros Hwf. unfold row_sum.
  induction 1 as [|i idx Hi _ IH]; cbn [foldr]; [apply length_replicate|].
  apply lookup_lt_is_Some in Hi as [r Hr]. rewrite Hr. cbn [default].
  unfold vadd at 1. rewrite length_zip_with, IH.
  apply list_elem_of_lookup_2 in Hr.
  apply (proj1 (Forall_forall _ _) Hwf) in Hr. cbv beta in Hr. unfold id. lia.
Qed.

Lemma row_sum_Permutation (m : ndarray2) (idx idx' : list nat) :
  idx ≡ₚ idx' → row_sum m idx = row_sum m idx'.
Proof.
  intros Hp. unfold row_sum. apply (foldr_permutation eq); try exact Hp.
  { solve_proper. }
  intros j1 a1 j2 a2 b _ _ _.
  by rewrite !vadd_assoc, (vadd_comm (default [] (rows m !! a1))).
Qed.

Lemma row_sum_app (m : ndarray2) (idx idx' : list nat) :
  Forall (λ r, length r = ncols m) (rows m) →
  Forall (λ i, (i < length (rows m))%nat) idx →
  Forall (λ i, (i < length (rows m))%nat) idx' →
  row_sum m (idx ++ idx') = vadd (row_sum m idx) (row_sum m idx').
Proof.
  intros Hwf Hidx Hidx'.
  pose proof (row_sum_length m idx' Hwf Hidx') as Hl'.
  unfold row_sum in *. rewrite foldr_app.
  induction Hidx as [|i idx Hi _ IH]; cbn [foldr].
  - set (y := foldr _ _ idx') in *.
    transitivity (vadd (replicate (length y) zero) y);
      [symmetry; apply vadd_zeros_l | by rewrite Hl'].
  - by rewrite IH, vadd_assoc.
Qed.

(** The positions selected by the union of two disjoint boolean vectors. *)
Lemma where_union (v1 v2 : list bool) :
  length v1 = length v2 →
  Forall (λ b, b = false) (zip_with andb v1 v2) →
  where_ (zip_with orb v1 v2) ≡ₚ (where_ v1 ++ where_ v2)%list.
Proof.
  intros Hlen Hdis.
  assert (Hno : ∀ i, v1 !! i = Some true → v2 !! i = Some true → False).
  { intros i H1 H2.
    assert (zip_with andb v1 v2 !! i = Some true) as Hi
      by by rewrite lookup_zip_with, H1, H2.
    apply list_elem_of_lookup_2 in Hi.
    by apply (proj1 (Forall_forall _ _) Hdis) in Hi. }
  apply NoDup_Permutation.
  - apply NoDup_where.
  - apply NoDup_app. split; [apply NoDup_where|]. split; [|apply NoDup_where].
    intros i H1 H2. apply elem_of_where in H1, H2. by apply (Hno i).
  - intros i. rewrite elem_of_app, !elem_of_where, lookup_zip_with.
    destruct (v1 !! i) as [b1|] eqn:H1, (v2 !! i) as [b2|] eqn:H2; simpl.
    + destruct b1, b2; simpl; intuition congruence.
    + apply lookup_lt_Some in H1. apply lookup_ge_None in H2. lia.
    + apply lookup_lt_Some in H2. apply lookup_ge_None in H1. lia.
    + intuition congruence.
Qed.

Lemma bool_index_zip_with {A B C} (f : A → B → C) (a : list A) (b : list B)
    (mask : list bool) (sa : list A) (sb : list B) :
  bool_index a mask = Ok sa → bool_index b mask = Ok sb →
  bool_index (zip_with f a b) mask = Ok (zip_with f sa sb).
Proof.
  unfold bool_index.
  destruct (decide (length mask = length a)) as [Ha|]; [|done].
  destruct (decide (length mask = length b)) as [Hb|]; [|done].
  intros [= <-] [= <-].
  rewrite decide_True by (rewrite length_zip_with; lia). f_equal.
  revert a b Ha Hb. induction mask as [|m mask IH]; intros [|x a] [|y b] Ha Hb;
    cbn [length] in *; try done.
  cbn [zip_with concat]. rewrite (IH a b) by lia.
  by destruct m.
Qed.

Section GcldaAdditive.

Variable nib_load : string → result Nifti1Image.
Variable weight_priors : list npfloat → npfloat → list npfloat.

Local Abbreviation decode := (gclda_decode_roi nib_load weight_priors).

(** What a decoding without prior that returned went through. *)
Lemma gclda_decode_image_inv (model : GCLDAModel) (img : Nifti1Image)
    (prior_weight : npfloat) (decoded_df : WeightFrame) (tw : list npfloat) :
  decode model (RoiImage img) None prior_weight = Ok (decoded_df, tw) →
  ∃ roi_vec,
    array_equal (affine img) (affine (mask model)) = true ∧
    bool_index (map astype_bool (get_data img))
               (map astype_bool (get_data (mask model))) = Ok roi_vec ∧
    Forall (λ i, (i < length (rows (p_topic_g_voxel_ model)))%nat) (where_ roi_vec) ∧
    tw = row_sum (p_topic_g_voxel_ model) (where_ roi_vec) ∧
    ncols (p_word_g_topic_ model) = length tw ∧
    length (vocabulary model) = length (rows (p_word_g_topic_ model)) ∧
    decoded_df =
      mk_WeightFrame (vocabulary model)
        (map (λ r, inner r tw) (rows (p_word_g_topic_ model))).
Proof.
  unfold gclda_decode_roi, mbind, result_bind. cbv beta iota zeta.
  destruct (array_equal _ _); cbn [negb]; [|done].
  destruct (bool_index _ _) as [roi_vec|]; [|done].
  destruct (take_rows _ _) as [p_topic_g_roi|] eqn:Hrows; [|done].
  unfold dot. destruct (decide _) as [Hcols|]; [|done].
  unfold weight_frame. destruct (decide _) as [Hvoc|]; [|done].
  intros [= <- <-]. exists roi_vec.
  rewrite (take_rows_row_sum _ _ _ Hrows) in *.
  split_and!; try done.
  - unfold take_rows in Hrows.
    destruct (mapM _ _) as [rs|] eqn:Hrs; [|done].
    assert (is_Some (mapM (λ i, rows (p_topic_g_voxel_ model) !! i)
                          (where_ roi_vec))) as Hsome by by eexists.
    apply mapM_is_Some_1 in Hsome. eapply Forall_impl; [exact Hsome|].
    intros i [r Hr]. by eapply lookup_lt_Some.
  - by rewrite length_map in Hvoc.
Qed.

(** X4.  In exact arithmetic, topic weights add up over disjoint
    regions: if two ROI images without a common voxel are decoded (without
    a topic prior, against a model all of whose voxel rows have one entry
    per topic) to the topic weights [tw1] and [tw2], an image in the same
    frame whose voxels are those of the one or the other is decoded to
    their element-wise sum.  (In float64 the two sides can differ in the
    last place, see [topic_weights_not_additive_in_float64].) *)
Theorem gclda_topic_weights_additive (model : GCLDAModel)
    (roi1 roi2 roi12 : Nifti1Image) (prior_weight : npfloat)
    (df1 df2 : WeightFrame) (tw1 tw2 : list npfloat) :
  Forall (λ r, length r = ncols (p_topic_g_voxel_ model))
         (rows (p_topic_g_voxel_ model)) →
  affine roi12 = affine roi1 →
  map astype_bool (get_data roi12) =
    zip_with orb (map astype_bool (get_data roi1))
                 (map astype_bool (get_data roi2)) →
  Forall (λ b, b = false)
    (zip_with andb (map astype_bool (get_data roi1))
                   (map astype_bool (get_data roi2))) →
  decode model (RoiImage roi1) None prior_weight = Ok (df1, tw1) →
  decode model (RoiImage roi2) None prior_weight = Ok (df2, tw2) →
  ∃ df12,
    decode model (RoiImage roi12) None prior_weight = Ok (df12, vadd tw1 tw2).
Proof.
  intros Hwf Haff Hunion Hdis H1 H2.
  apply gclda_decode_image_inv in H1
    as (v1 & Haff1 & Hsel1 & Hidx1 & -> & Hcols1 & Hvoc & _).
  apply gclda_decode_image_inv in H2
    as (v2 & _ & Hsel2 & Hidx2 & -> & _ & _ & _).
  pose proof (bool_index_zip_with orb _ _ _ _ _ Hsel1 Hsel2) as Hsel12.
  pose proof (bool_index_zip_with andb _ _ _ _ _ Hsel1 Hsel2) as Hand.
  assert (Hdis' : Forall (λ b, b = false) (zip_with andb v1 v2)).
  { eapply bool_index_Forall; [|exact Hand]. intros k b _ Hb.
    apply list_elem_of_lookup_2 in Hb.
    by apply (proj1 (Forall_forall _ _) Hdis) in Hb. }
  assert (Hlen : length v1 = length v2).
  { apply bool_index_length in Hsel1, Hsel2. congruence. }
  pose proof (where_union v1 v2 Hlen Hdis') as Hperm.
  assert (Hidx12 : Forall (λ i, (i < length (rows (p_topic_g_voxel_ model)))%nat)
                     (where_ (zip_with orb v1 v2))).
  { rewrite Hperm. by apply Forall_app. }
  unfold gclda_decode_roi, mbind, result_bind. cbv beta iota zeta.
  rewrite Haff, Haff1. cbn [negb]. rewrite Hunion, Hsel12. cbv beta iota zeta.
  destruct (take_rows_ok _ _ Hidx12) as (rs & Hrs & _ & _).
  rewrite Hrs. cbv beta iota zeta.
  rewrite (take_rows_row_sum _ _ _ Hrs), (row_sum_Permutation _ _ _ Hperm),
    row_sum_app by done.
  unfold dot. rewrite decide_True.
  2:{ unfold vadd. rewrite length_zip_with, !row_sum_length by done.
      rewrite row_sum_length in Hcols1 by done. lia. }
  cbv beta iota zeta. unfold weight_frame.
  rewrite decide_True by by rewrite length_map.
  by eexists.
Qed.

(** X5.  An ROI without any voxel inside the mask gives every term the
    weight zero, provided the entries of [p_word_g_topic_] are finite. *)
Theorem gclda_roi_outside_mask_zero_weights (model : GCLDAModel)
    (roi : Nifti1Image) (prior_weight : npfloat)
    (decoded_df : WeightFrame) (tw : list npfloat) :
  (∀ k m x, get_data (mask model) !! k = Some m → astype_bool m = true →
     get_data roi !! k = Some x → astype_bool x = false) →
  Forall (Forall finite) (rows (p_word_g_topic_ model)) →
  decode model (RoiImage roi) None prior_weight = Ok (decoded_df, tw) →
  tw = replicate (ncols (p_topic_g_voxel_ model)) zero ∧
  Weight decoded_df = replicate (length (vocabulary model)) zero.
Proof.
  intros Hout Hfin H.
  apply gclda_decode_image_inv in H
    as (roi_vec & _ & Hsel & _ & Htw & _ & Hvoc & ->).
  assert (Hfalse : Forall (λ b, b = false) roi_vec).
  { eapply bool_index_Forall; [|exact Hsel].
    intros k b Hk Hb. rewrite list_lookup_fmap in Hk, Hb.
    destruct (get_data (mask model) !! k) as [m|] eqn:Hm; [|done].
    destruct (get_data roi !! k) as [x|] eqn:Hx; [|done].
    cbn in Hk, Hb. injection Hk as Hk. injection Hb as <-.
    by apply (Hout k m x). }
  rewrite (where_all_false _ Hfalse) in Htw. cbn in Htw. split; [exact Htw|].
  cbn [Weight]. rewrite Hvoc, Htw. clear -Hfin.
  induction Hfin as [|r rs Hr _ IH]; [done|].
  cbn [map length replicate]. f_equal; [|exact IH].
  unfold inner, vmul.
  generalize (ncols (p_topic_g_voxel_ model)) as n.
  induction Hr as [|x r [q ->] _ IHr]; intros n; [by destruct n|].
  destruct n as [|n]; [done|]. cbn [replicate zip_with].
  unfold sum. cbn [foldr]. fold (sum (zip_with mul r (replicate n zero))).
  rewrite IHr. unfold zero. cbn. f_equal. ring.
Qed.

End GcldaAdditive.

(** Addition in float64 is not associative: with the rows 0.1, 0.2 and 0.3
    the first voxel weighs 0.1 and the other two 0.5, which add up to 0.6,
    while the three together weigh 0.6000000000000001. *)
Lemma topic_weights_not_additive_in_float64 :
  gclda_weights64 three_voxel_model64 voxel_1_roi
    = Ok ([f64 1 10], [f64 1 10]) ∧
  gclda_weights64 three_voxel_model64 voxels_23_roi
    = Ok ([f64 5 10], [f64 5 10]) ∧
  gclda_weights64 three_voxel_model64 voxels_123_roi
    = Ok ([f64 6000000000000001 10000000000000000],
          [f64 6000000000000001 10000000000000000]) ∧
  vadd64 [f64 1 10] [f64 5 10] = [f64 6 10] ∧
  f64 6 10 ≠ f64 6000000000000001 10000000000000000.
Proof. split_and!; apply (bool_decide_unpack _); vm_compute; exact I. Qed.

(** ** The further properties of the topic decoder at the scenario *)

Lemma scenario_model_consistent : consistent (scenario_model scenario_words ["w"]).
Proof.
  unfold consistent. split_and!; [|reflexivity..].
  cbn. by repeat constructor.
Qed.

Lemma gclda_consistent_model_returns_witness :
  ∃ decoded_df topic_weights,
    gclda_decode_roi no_files priors_unweighted
      (scenario_model scenario_words ["w"]) (RoiImage scenario_roi) None
      default_prior_weight = Ok (decoded_df, topic_weights) ∧
    length topic_weights = 2%nat ∧
    wf_index decoded_df = ["w"] ∧
    length (Weight decoded_df) = 1%nat.
Proof.
  apply (gclda_consistent_model_returns no_files priors_unweighted
           (scenario_model scenario_words ["w"]) scenario_roi).
  - exact scenario_model_consistent.
  - split; reflexivity.
Defined.

Lemma gclda_input_errors_witness :
  gclda_decode_roi no_files priors_unweighted
    (scenario_model scenario_words ["w"]) (RoiStr "roi.nii") None
    default_prior_weight = Raise IOError ∧
  gclda_decode_roi no_files priors_unweighted
    (scenario_model scenario_words ["w"])
    (RoiImage (mk_Nifti1Image eye4 [one; one])) None
    default_prior_weight = Raise IndexError ∧
  gclda_decode_roi no_files priors_unweighted
    short_model (RoiImage scenario_roi) None
    default_prior_weight = Raise IndexError.
Proof.
  split_and!.
  - apply (gclda_input_errors no_files priors_unweighted). reflexivity.
  - apply (gclda_input_errors no_files priors_unweighted);
      [reflexivity | cbn; lia].
  - apply (proj2 (proj2 (proj2
      (gclda_input_errors no_files priors_unweighted short_model None
         default_prior_weight))) scenario_roi [false; true] 1%nat);
      [reflexivity | reflexivity | reflexivity | cbn; lia].
Defined.

Lemma gclda_topic_prior_rescales_witness :
  gclda_decode_roi no_files priors_unweighted
    (scenario_model scenario_words ["w"]) (RoiImage scenario_roi)
    (Some [rat 2 1; rat 1 2]) default_prior_weight =
    Ok (mk_WeightFrame ["w"]
          (map (λ r, inner r (vmul [rat 2 10; rat 8 10] [rat 2 1; rat 1 2]))
               (rows scenario_words)),
        vmul [rat 2 10; rat 8 10] [rat 2 1; rat 1 2]) ∧
  gclda_decode_roi no_files priors_unweighted
    (scenario_model scenario_words ["w"]) (RoiImage scenario_roi)
    (Some [one; one; one]) default_prior_weight = Raise ValueError.
Proof.
  assert (E : gclda_decode_roi no_files priors_unweighted
    (scenario_model scenario_words ["w"]) (RoiImage scenario_roi) None
    default_prior_weight = Ok (mk_WeightFrame ["w"] [rat 6 10], [rat 2 10; rat 8 10])).
  { apply (bool_decide_unpack _). vm_compute. exact I. }
  split.
  - apply (proj1 (gclda_topic_prior_rescales no_files priors_unweighted
             _ _ [rat 2 1; rat 1 2] _ _ _ E)). reflexivity.
  - apply (proj2 (gclda_topic_prior_rescales no_files priors_unweighted
             _ _ [one; one; one] _ _ _ E)); cbn; lia.
Defined.

Lemma gclda_topic_weights_additive_witness :
  ∃ df12,
    gclda_decode_roi no_files priors_unweighted
      (scenario_model scenario_words ["w"]) (RoiImage both_voxels_roi) None
      default_prior_weight =
    Ok (df12, vadd [rat 1 2; rat 1 2] [rat 2 10; rat 8 10]).
Proof.
  apply (gclda_topic_weights_additive no_files priors_unweighted
           (scenario_model scenario_words ["w"])
           first_voxel_roi inside_roi both_voxels_roi default_prior_weight
           (mk_WeightFrame ["w"] [rat 3 4]) (mk_WeightFrame ["w"] [rat 6 10])).
  - cbn. by repeat constructor.
  - reflexivity.
  - reflexivity.
  - cbn. by repeat constructor.
  - apply (bool_decide_unpack _). vm_compute. exact I.
  - apply (bool_decide_unpack _). vm_compute. exact I.
Defined.

Lemma gclda_roi_outside_mask_zero_weights_witness :
  [zero; zero] = replicate 2 zero ∧ [zero] = replicate 1 zero.
Proof.
  apply (gclda_roi_outside_mask_zero_weights no_files priors_unweighted
           (scenario_model scenario_words ["w"]) outside_roi
           default_prior_weight (mk_WeightFrame ["w"] [zero]) [zero; zero]).
  - intros [|[|[|k]]] m x; cbn; intros [= <-] Hm [= <-]; try done.
  - cbn. repeat constructor; by eexists.
  - apply (bool_decide_unpack _). vm_compute. exact I.
Defined.

(** ** Look-ups of the association decoders *)

Lemma binarize_spec (annotations : Annotations) (features : list string)
    (frequency_threshold : npfloat) :
  match binarize annotations features frequency_threshold with
  | Ok features_df =>
      Forall (λ f, f ∈ (ann_columns annotations).*1) features ∧
      bf_index features_df = ann_id annotations
  | Raise e =>
      e = KeyError ∧ Exists (λ f, f ∉ (ann_columns annotations).*1) features
  end.
Proof.
  unfold binarize, mbind, result_bind.
  match goal with |- context [traverse ?f ?l] =>
    pose proof (traverse_spec f l) as H; destruct (traverse f l) as [cols|e] end.
  - split; [|done]. apply Forall_forall. intros f Hf.
    apply list_elem_of_lookup_1 in Hf as [i Hi].
    destruct (Forall2_lookup_l _ _ _ _ _ H Hi) as (y & _ & Hy).
    cbv beta in Hy.
    destruct (list_find _ _) as [[j c]|] eqn:Hfind; [|done].
    apply list_find_Some in Hfind as (Hj & <- & _).
    apply list_elem_of_fmap. exists c. split; [done|].
    by eapply list_elem_of_lookup_2.
  - destruct H as (f & Hf & Hraise). cbv beta in Hraise.
    destruct (list_find _ _) as [[j c]|] eqn:Hfind; [done|].
    injection Hraise as <-. split; [done|].
    apply Exists_exists. exists f. split; [done|]. intros Hin.
    apply list_elem_of_fmap in Hin as (c & -> & Hc).
    destruct (list_find_elem_of (λ c', c'.1 = c.1) _ c Hc eq_refl)
      as [[i c'] Hfind'].
    congruence.
Qed.

Lemma label_positions_nil (index : list string) (label : string) :
  label ∉ index → label_positions index label = [].
Proof.
  intros Hl. apply (concat_imap_nil (λ x, x ≠ label)).
  - intros i x Hx. by rewrite decide_False.
  - apply Forall_forall. by intros x Hx ->.
Qed.

Lemma loc_values_spec (df : BoolFrame) (labels : list string) :
  match loc_values df labels with
  | Ok _ => Forall (λ l, l ∈ bf_index df) labels
  | Raise e => e = KeyError ∧ Exists (λ l, l ∉ bf_index df) labels
  end.
Proof.
  unfold loc_values, loc, mbind, result_bind.
  match goal with |- context [traverse ?f ?l] =>
    pose proof (traverse_spec f l) as H; destruct (traverse f l) as [ps|e] end.
  - apply Forall_forall. intros l Hl.
    apply list_elem_of_lookup_1 in Hl as [i Hi].
    destruct (Forall2_lookup_l _ _ _ _ _ H Hi) as (y & _ & Hy).
    cbv beta in Hy. destruct (decide (l ∈ bf_index df)) as [|Hn]; [done|].
    by rewrite (label_positions_nil _ _ Hn) in Hy.
  - destruct H as (l & Hl & Hraise). cbv beta in Hraise.
    destruct (label_positions (bf_index df) l) eqn:Hps; [|done].
    injection Hraise as <-. split; [done|].
    apply Exists_exists. exists l. split; [done|]. intros Hin.
    by apply label_positions_not_nil in Hin.
Qed.

Lemma unselected_of_None (coordinates : Coordinates) (ids : list string) (x : string) :
  x ∈ unselected_of coordinates ids None ↔ x ∈ coord_id coordinates ∧ x ∉ ids.
Proof. apply complement_spec. Qed.

Lemma known_lookups (coordinates : Coordinates) (annotations : Annotations)
    (ids : list string) (ids2 features : option (list string))
    (frequency_threshold : npfloat) :
  known coordinates annotations ids ids2 features →
  ∃ features_df sel_array unsel_array,
    binarize annotations (features_of annotations features) frequency_threshold
      = Ok features_df ∧
    bf_index features_df = ann_id annotations ∧
    length (bf_columns features_df) = length (features_of annotations features) ∧
    loc_values features_df ids = Ok sel_array ∧
    length sel_array = length (features_of annotations features) ∧
    loc_values features_df (unselected_of coordinates ids ids2) = Ok unsel_array ∧
    length unsel_array = length (features_of annotations features).
Proof.
  intros (Hfeat & Hids & Hunsel).
  destruct (binarize_is_Ok annotations _ frequency_threshold Hfeat)
    as [features_df Hbin].
  destruct (binarize_inv _ _ _ _ Hbin) as [Hindex Hcols].
  destruct (loc_values_is_Ok features_df ids) as [sel_array Hsel];
    [by rewrite Hindex|].
  destruct (loc_values_is_Ok features_df (unselected_of coordinates ids ids2))
    as [unsel_array Hun]; [by rewrite Hindex|].
  exists features_df, sel_array, unsel_array. split_and!; try done.
  - apply loc_values_length in Hsel. congruence.
  - apply loc_values_length in Hun. congruence.
Qed.

Lemma unknown_lookups (coordinates : Coordinates) (annotations : Annotations)
    (ids : list string) (ids2 features : option (list string))
    (frequency_threshold : npfloat) :
  ¬ known coordinates annotations ids ids2 features →
  binarize annotations (features_of annotations features) frequency_threshold
    = Raise KeyError ∨
  ∃ features_df,
    binarize annotations (features_of annotations features) frequency_threshold
      = Ok features_df ∧
    (loc_values features_df ids = Raise KeyError ∨
     ∃ sel_array,
       loc_values features_df ids = Ok sel_array ∧
       loc_values features_df (unselected_of coordinates ids ids2) = Raise KeyError).
Proof.
  intros Hunknown.
  pose proof (binarize_spec annotations (features_of annotations features)
                frequency_threshold) as Hbin.
  destruct (binarize _ _ _) as [features_df|e]; [|left; by destruct Hbin as [-> _]].
  destruct Hbin as [Hfeat Hindex]. right. exists features_df. split; [done|].
  pose proof (loc_values_spec features_df ids) as Hsel.
  destruct (loc_values features_df ids) as [sel_array|e];
    [|left; by destruct Hsel as [-> _]].
  right. exists sel_array. split; [done|].
  pose proof (loc_values_spec features_df (unselected_of coordinates ids ids2))
    as Hun.
  destruct (loc_values features_df (unselected_of _ _ _)) as [unsel_array|e];
    [|by destruct Hun as [-> _]].
  exfalso. apply Hunknown. rewrite Hindex in *. by split_and!.
Qed.

Section DecoderErrors.

Variable two_way : list (list (list Z)) → list npfloat.
Variable one_way : list Z → list Z → list npfloat.
Variable p_to_z : list npfloat → string → list npfloat.
Variable chdtrc : npfloat → npfloat → npfloat.
Variable multipletests : list npfloat → npfloat → string → multitest.

Local Abbreviation bm_decode :=
  (brainmap_decode two_way p_to_z chdtrc multipletests).
Local Abbreviation ns_decode :=
  (neurosynth_decode two_way one_way p_to_z chdtrc multipletests).

(** The decoders as a chain of steps, with the look-ups named. *)
Ltac decoder_steps :=
  unfold brainmap_decode, neurosynth_decode, brainmap_run, neurosynth_run,
    fmap, result_fmap, mbind, result_bind;
  cbv beta zeta;
  match goal with
  | |- context [binarize ?a (match ?fs with Some _ => _ | None => _ end) _] =>
      fold (features_of a fs)
  end;
  match goal with
  | |- context [coord_id ?c] =>
      match goal with
      | |- context [match ?i2 with Some _ => _ | None => sorted (_ ∖ list_to_set ?i) end] =>
          fold (unselected_of c i i2)
      end
  end.

(** After the look-ups, a step that raises gives its own exception. *)
Ltac later_steps :=
  unfold truediv, mask_assign, vmul_checked, out_frame;
  repeat (match goal with
          | |- context [decide ?P] => destruct (decide P)
          | |- context [traverse (getitem ?fs ?df) ?fs] =>
              let E := fresh "Eloop" in
              destruct (traverse (getitem fs df) fs) as [?|?] eqn:E;
              [|apply term_columns_raise in E as [-> _]; [|assumption]]
          | |- context [match ?c with
                        | Some _ => multitest_result _
                        | None => _
                        end] => destruct c
          | |- context [multitest_result ?m] =>
              let E := fresh "Ecorr" in destruct m eqn:E
          end; cbn [multitest_result]; cbv beta iota).

(** X6.  Both decoders raise [KeyError] exactly when a look-up fails: a
    feature that is no column of the annotations, or a selected or an
    unselected study that the annotations do not list ([df.loc] with a
    list of labels raises for a missing label).  No later step raises it,
    and a failed look-up comes before every other error. *)
Theorem decoders_key_error_iff_unknown (coordinates : Coordinates)
    (annotations : Annotations) (ids : list string)
    (ids2 features : option (list string)) (frequency_threshold u : npfloat)
    (prior : option npfloat) (correction : option string) :
  (bm_decode coordinates annotations ids ids2 features frequency_threshold u
     correction = Raise KeyError
   ↔ ¬ known coordinates annotations ids ids2 features) ∧
  (ns_decode coordinates annotations ids ids2 features frequency_threshold
     prior u correction = Raise KeyError
   ↔ ¬ known coordinates annotations ids ids2 features).
Proof.
  split; (split; [intros Hraise Hknown | intros Hunknown]).
  - destruct (known_lookups _ _ _ _ _ frequency_threshold Hknown)
      as (features_df & sel & unsel & Hbin & _ & Hcols & Hsel & _ & Hun & _).
    revert Hraise. decoder_steps. rewrite Hbin. cbv beta iota.
    rewrite Hsel. cbv beta iota. rewrite Hun. cbv beta iota.
    later_steps; discriminate.
  - decoder_steps.
    destruct (unknown_lookups _ _ _ _ _ frequency_threshold Hunknown)
      as [-> | (features_df & -> & [-> | (sel & -> & ->)])]; reflexivity.
  - destruct (known_lookups _ _ _ _ _ frequency_threshold Hknown)
      as (features_df & sel & unsel & Hbin & _ & _ & Hsel & _ & Hun & _).
    revert Hraise. decoder_steps. rewrite Hbin. cbv beta iota.
    rewrite Hsel. cbv beta iota. rewrite Hun. cbv beta iota.
    later_steps; discriminate.
  - decoder_steps.
    destruct (unknown_lookups _ _ _ _ _ frequency_threshold Hunknown)
      as [-> | (features_df & -> & [-> | (sel & -> & ->)])]; reflexivity.
Qed.


(** X8.  The table of a call that returns, for both decoders: its index is
    the list of features in the order given, and each of its six columns
    has one entry per feature.  With [features=None] the rows are the
    columns of the annotations in their order, without the id columns.
    Without [ids2] a call returns only if every study of the coordinates
    table is annotated. *)
Theorem decoders_table_shape (coordinates : Coordinates)
    (annotations : Annotations) (ids : list string)
    (ids2 features : option (list string)) (frequency_threshold u : npfloat)
    (prior : option npfloat) (correction : option string) (out : OutFrame) :
  bm_decode coordinates annotations ids ids2 features frequency_threshold u
    correction = Ok out ∨
  ns_decode coordinates annotations ids ids2 features frequency_threshold
    prior u correction = Ok out →
  out_index out = features_of annotations features ∧
  Forall (λ c, length c = length (out_index out))
    [pForward out; zForward out; effectForward out;
     pReverse out; zReverse out; probReverse out] ∧
  (features = None →
   out_index out = filter (λ f, f ∉ id_cols) (ann_columns annotations).*1) ∧
  (ids2 = None → Forall (λ x, x ∈ ann_id annotations) (coord_id coordinates)).
Proof.
  intros Hret.
  assert (Hdec : Decision (known coordinates annotations ids ids2 features))
    by (unfold known; apply _).
  destruct Hdec as [Hknown|Hunknown].
  2:{ exfalso. destruct Hret as [Hret|Hret]; revert Hret; decoder_steps;
      destruct (unknown_lookups _ _ _ _ _ frequency_threshold Hunknown)
        as [-> | (features_df & -> & [-> | (sel & -> & ->)])]; discriminate. }
  assert (Hshape : out_index out = features_of annotations features ∧
            Forall (λ c, length c = length (out_index out))
              [pForward out; zForward out; effectForward out;
               pReverse out; zReverse out; probReverse out]).
  { destruct (known_lookups _ _ _ _ _ frequency_threshold Hknown)
      as (features_df & sel & unsel & Hbin & _ & Hcols & Hsel & _ & Hun & _).
    destruct Hret as [Hret|Hret]; revert Hret; decoder_steps;
      rewrite Hbin; cbv beta iota; rewrite Hsel; cbv beta iota;
      rewrite Hun; cbv beta iota; later_steps; try discriminate;
      by intros [= <-]. }
  destruct Hshape as [Hindex Hcols]. split_and!; try done.
  - intros ->. rewrite Hindex. unfold features_of, default_features.
    by rewrite filter_cons_False by (intros Hid; apply Hid; by left).
  - intros ->. destruct Hknown as (_ & Hids & Hunsel).
    apply Forall_forall. intros x Hx.
    destruct (decide (x ∈ ids)) as [Hin|Hout].
    + by apply (proj1 (Forall_forall _ _) Hids).
    + apply (proj1 (Forall_forall _ _) Hunsel). by apply unselected_of_None.
Qed.

(** X9.  [neurosynth_decode] returns whenever the look-ups succeed, for
    collaborators that return arrays of the length of what they are given
    (the correction: for the method of the call and as many p-values as
    there are features): every division it does is one of arrays.  This
    holds for a coordinates table without rows too. *)
Theorem neurosynth_returns_when_known (coordinates : Coordinates)
    (annotations : Annotations) (ids : list string)
    (ids2 features : option (list string)) (frequency_threshold u : npfloat)
    (prior : option npfloat) (correction : option string) :
  known coordinates annotations ids ids2 features →
  (∀ cells, length (two_way cells) = length cells) →
  (∀ data ref, length (one_way data ref) = length data) →
  (∀ p tail, length (p_to_z p tail) = length p) →
  (∀ method p, correction = Some method →
     length p = length (features_of annotations features) →
     ∃ p_corr, multipletests p u method = Corrected p_corr ∧
               length p_corr = length p) →
  ∃ out,
    ns_decode coordinates annotations ids ids2 features frequency_threshold
      prior u correction = Ok out ∧
    out_index out = features_of annotations features.
Proof.
  intros Hknown Htw How Hpz Hmt.
  destruct (known_lookups _ _ _ _ _ frequency_threshold Hknown)
    as (features_df & sel & unsel & Hbin & _ & _ & Hsel & Hlsel & Hun & Hlun).
  decoder_steps. rewrite Hbin. cbv beta iota.
  rewrite Hsel. cbv beta iota. rewrite Hun. cbv beta iota.
  assert (Hcorr : ∀ p, length p = length (features_of annotations features) →
            ∃ p_corr,
              match correction with
              | Some method => multitest_result (multipletests p u method)
              | None => Ok p
              end = Ok p_corr ∧
              length p_corr = length (features_of annotations features)).
  { intros p Hp. destruct correction as [method|]; [|by exists p].
    destruct (Hmt method p eq_refl Hp) as (p_corr & -> & Hq).
    exists p_corr. split; [done | congruence]. }
  match goal with
  | |- context [multipletests ?p u _] =>
      destruct (Hcorr p) as (p_corr_fi & -> & Hfi);
      [len; by rewrite How; len|]
  | |- _ => destruct (Hcorr (map (chdtrc one)
              (one_way (map count sel) (zadd (map count sel) (map count unsel)))))
            as (p_corr_fi & -> & Hfi); [len; by rewrite How; len|]
  end.
  cbv beta iota.
  match goal with
  | |- context [multipletests ?p u _] =>
      destruct (Hcorr p) as (p_corr_ri & -> & Hri);
      [len; rewrite Htw; len; lia|]
  | |- _ => destruct (Hcorr (map (chdtrc one)
              (two_way (cells_T (map count sel)
                 (zsub_from (Z.of_nat (length ids)) (map count sel))
                 (map count unsel)
                 (zsub_from (Z.of_nat (length (unselected_of coordinates ids ids2)))
                    (map count unsel))))))
            as (p_corr_ri & -> & Hri); [len; rewrite Htw; len; lia|]
  end.
  cbv beta iota.
  unfold vmul_checked at 1. rewrite decide_True by (rewrite Hpz; len; lia).
  unfold vmul_checked at 1. rewrite decide_True by (rewrite Hpz; len; lia).
  cbv beta iota. unfold out_frame. rewrite decide_True.
  2:{ repeat constructor; try done; len; rewrite ?Hpz;
      destruct prior; cbn [broadcast]; len; rewrite ?length_replicate; len; lia. }
  by eexists.
Qed.

(** X19.  [brainmap_decode] cannot take a feature twice: its loop over the
    features selects the column of each by its label, and with a label
    that two columns carry the selection raises [ValueError].  So with
    look-ups that succeed and a coordinates table that has rows, a list
    of features with a repetition raises [ValueError], and a call that
    returns had distinct features. *)
Theorem brainmap_repeated_feature_raises (coordinates : Coordinates)
    (annotations : Annotations) (ids : list string)
    (ids2 features : option (list string)) (frequency_threshold u : npfloat)
    (correction : option string) :
  (known coordinates annotations ids ids2 features →
   coord_id coordinates ≠ [] →
   ¬ NoDup (features_of annotations features) →
   bm_decode coordinates annotations ids ids2 features frequency_threshold u
     correction = Raise ValueError) ∧
  (∀ out,
     bm_decode coordinates annotations ids ids2 features frequency_threshold
       u correction = Ok out →
     NoDup (features_of annotations features)).
Proof.
  split.
  - intros Hknown Hcoord Hdup.
    destruct (known_lookups _ _ _ _ _ frequency_threshold Hknown)
      as (features_df & sel & unsel & Hbin & _ & Hcols & Hsel & _ & Hun & _).
    decoder_steps. rewrite Hbin. cbv beta iota.
    rewrite Hsel. cbv beta iota. rewrite Hun. cbv beta iota.
    unfold truediv. rewrite decide_False.
    2:{ destruct (coord_id coordinates); [done | cbn; lia]. }
    cbv beta iota.
    destruct (traverse _ (features_of annotations features))
      as [term_columns|e] eqn:Eloop.
    + by apply term_columns_inv in Eloop as [Hnd _].
    + by apply term_columns_raise in Eloop as [-> _].
  - intros out.
    assert (Hdec : Decision (known coordinates annotations ids ids2 features))
      by (unfold known; apply _).
    destruct Hdec as [Hknown|Hunknown].
    + destruct (known_lookups _ _ _ _ _ frequency_threshold Hknown)
        as (features_df & sel & unsel & Hbin & _ & Hcols & Hsel & _ & Hun & _).
      decoder_steps. rewrite Hbin. cbv beta iota.
      rewrite Hsel. cbv beta iota. rewrite Hun. cbv beta iota.
      destruct (truediv _ _); [|done]. cbv beta iota.
      destruct (traverse _ (features_of annotations features))
        as [term_columns|e] eqn:Eloop; [|done].
      intros _. by apply term_columns_inv in Eloop as [Hnd _].
    + decoder_steps.
      destruct (unknown_lookups _ _ _ _ _ frequency_threshold Hunknown)
        as [-> | (features_df & -> & [-> | (sel & -> & ->)])]; discriminate.
Qed.

End DecoderErrors.

(** ** The order of the study ids *)

Lemma traverse_Ok_map {A B} (f : A → result B) (g : A → B) (l : list A)
    (ys : list B) :
  (∀ x y, f x = Ok y → y = g x) → traverse f l = Ok ys → ys = map g l.
Proof.
  intros Hg. revert ys. induction l as [|x l IH]; intros ys; cbn [traverse].
  - by intros [= <-].
  - unfold mbind, result_bind. destruct (f x) as [y|] eqn:Hx; [|done].
    destruct (traverse f l) as [ys'|]; [|done]. intros [= <-].
    cbn [map]. f_equal; [by apply Hg | by apply IH].
Qed.

Lemma concat_Permutation {A} (l k : list (list A)) :
  l ≡ₚ k → concat l ≡ₚ concat k.
Proof.
  induction 1 as [|x l k _ IH|x y l|l k m _ IH1 _ IH2]; cbn [concat].
  - done.
  - by rewrite IH.
  - rewrite !(assoc_L app). by rewrite (comm app x y).
  - by rewrite IH1.
Qed.

Lemma count_Permutation (v v' : list bool) : v ≡ₚ v' → count v = count v'.
Proof. intros Hp. unfold count. by rewrite Hp. Qed.

(** The rows that [df.loc[labels]] selects, when every label is known. *)
Lemma loc_values_Ok (df : BoolFrame) (labels : list string)
    (arr : list (list bool)) :
  loc_values df labels = Ok arr →
  arr = map (λ col, map (λ p, default false (col !! p))
                        (concat (map (label_positions (bf_index df)) labels)))
            (bf_columns df).
Proof.
  unfold loc_values, loc, mbind, result_bind.
  destruct (traverse _ labels) as [ps|] eqn:Hps; [|done]. intros [= <-].
  apply (traverse_Ok_map _ (label_positions (bf_index df))) in Hps as ->; [done|].
  intros l ps'. by destruct (label_positions (bf_index df) l); intros [= <-].
Qed.

(** Selecting the same labels in another order gives the same counts, or
    the same error. *)
Lemma loc_values_Permutation (df : BoolFrame) (labels labels' : list string) :
  labels ≡ₚ labels' →
  match loc_values df labels, loc_values df labels' with
  | Ok arr, Ok arr' => map count arr = map count arr'
  | Raise e, Raise e' => e = e'
  | _, _ => False
  end.
Proof.
  intros Hp.
  pose proof (loc_values_spec df labels) as H.
  pose proof (loc_values_spec df labels') as H'.
  destruct (loc_values df labels) as [arr|e] eqn:E,
           (loc_values df labels') as [arr'|e'] eqn:E'.
  - apply loc_values_Ok in E as ->. apply loc_values_Ok in E' as ->.
    rewrite !map_map. apply map_ext. intros col.
    apply count_Permutation. apply fmap_Permutation, concat_Permutation.
    by apply fmap_Permutation.
  - destruct H' as [_ Hex]. rewrite <- Hp in Hex.
    apply Exists_exists in Hex as (l & Hl & Hn).
    by apply (proj1 (Forall_forall _ _) H) in Hl.
  - destruct H as [_ Hex]. rewrite Hp in Hex.
    apply Exists_exists in Hex as (l & Hl & Hn).
    by apply (proj1 (Forall_forall _ _) H') in Hl.
  - destruct H as [-> _], H' as [-> _]. done.
Qed.

Section DecoderInputs.

Variable two_way : list (list (list Z)) → list npfloat.
Variable one_way : list Z → list Z → list npfloat.
Variable p_to_z : list npfloat → string → list npfloat.
Variable chdtrc : npfloat → npfloat → npfloat.
Variable multipletests : list npfloat → npfloat → string → multitest.

Local Abbreviation bm_decode :=
  (brainmap_decode two_way p_to_z chdtrc multipletests).
Local Abbreviation ns_decode :=
  (neurosynth_decode two_way one_way p_to_z chdtrc multipletests).

(** X10.  [neurosynth_decode] reads the coordinates table only to find the
    unselected studies: with [ids2] given the table has no influence on
    the result at all, and without [ids2] two tables with the same set of
    study ids give the same result, however many foci each study has. *)
Theorem neurosynth_ignores_foci (coordinates coordinates' : Coordinates)
    (annotations : Annotations) (ids : list string)
    (ids2 features : option (list string)) (frequency_threshold u : npfloat)
    (prior : option npfloat) (correction : option string) :
  (ids2 = None →
   ∀ x, x ∈ coord_id coordinates ↔ x ∈ coord_id coordinates') →
  ns_decode coordinates annotations ids ids2 features frequency_threshold
    prior u correction =
  ns_decode coordinates' annotations ids ids2 features frequency_threshold
    prior u correction.
Proof.
  intros Hsame. unfold neurosynth_decode, neurosynth_run.
  destruct ids2 as [ids2|]; [reflexivity|].
  assert (Hset : list_to_set (coord_id coordinates) =@{gset string}
                 list_to_set (coord_id coordinates')).
  { apply set_eq. intros x. rewrite !elem_of_list_to_set. by apply Hsame. }
  by rewrite Hset.
Qed.

(** X11.  The order in which the selected studies are listed does not
    matter: for a reordered [ids], and likewise for a reordered [ids2],
    both decoders give the same result, errors included. *)
Theorem decoders_ids_order_irrelevant (coordinates : Coordinates)
    (annotations : Annotations) (ids ids' : list string)
    (ids2 ids2' features : option (list string))
    (frequency_threshold u : npfloat)
    (prior : option npfloat) (correction : option string) :
  ids ≡ₚ ids' →
  match ids2, ids2' with
  | Some l, Some l' => l ≡ₚ l'
  | None, None => True
  | _, _ => False
  end →
  bm_decode coordinates annotations ids ids2 features frequency_threshold u
    correction =
  bm_decode coordinates annotations ids' ids2' features frequency_threshold u
    correction ∧
  ns_decode coordinates annotations ids ids2 features frequency_threshold
    prior u correction =
  ns_decode coordinates annotations ids' ids2' features frequency_threshold
    prior u correction.
Proof.
  intros Hids Hids2.
  assert (Hunsel : unselected_of coordinates ids ids2 ≡ₚ
                   unselected_of coordinates ids' ids2').
  { destruct ids2 as [l|], ids2' as [l'|]; try done. unfold unselected_of.
    assert (list_to_set ids =@{gset string} list_to_set ids') as ->; [|done].
    apply set_eq. intros x. rewrite !elem_of_list_to_set. by rewrite Hids. }
  assert (Hlen : length ids = length ids') by by rewrite Hids.
  assert (Hlen2 : length (unselected_of coordinates ids ids2) =
                  length (unselected_of coordinates ids' ids2'))
    by by rewrite Hunsel.
  unfold brainmap_decode, neurosynth_decode, brainmap_run, neurosynth_run,
    fmap, result_fmap, mbind, result_bind.
  cbv beta zeta.
  fold (features_of annotations features).
  fold (unselected_of coordinates ids ids2).
  fold (unselected_of coordinates ids' ids2').
  destruct (binarize _ _ _) as [features_df|]; [|done].
  pose proof (loc_values_Permutation features_df _ _ Hids) as Hsel.
  pose proof (loc_values_Permutation features_df _ _ Hunsel) as Hun.
  destruct (loc_values features_df ids) as [sel|e],
           (loc_values features_df ids') as [sel'|e']; try done.
  2:{ by subst e'. }
  destruct (loc_values features_df (unselected_of coordinates ids ids2))
             as [unsel|e],
           (loc_values features_df (unselected_of coordinates ids' ids2'))
             as [unsel'|e']; try done.
  2:{ by subst e'. }
  rewrite Hsel, Hun, Hlen, Hlen2. cbv beta iota.
  split; destruct correction as [method|];
    repeat (first [ destruct (truediv _ _)
                  | destruct (traverse (getitem _ _) _)
                  | destruct (mask_assign _ _ _)
                  | destruct (multipletests _ _ _)
                  | destruct (vmul_checked _ _)
                  | destruct (out_frame _ _ _ _ _ _ _) ];
            cbn [multitest_result]; cbv beta iota; try done).
Qed.

End DecoderInputs.

(** ** Counts and signs *)

Lemma zsum_replicate (n : nat) (k : Z) : zsum (replicate n k) = Z.of_nat n * k.
Proof. induction n as [|n IH]; cbn [replicate zsum foldr]; [lia|]. fold (zsum (replicate n k)). lia. Qed.

Lemma mean_constant (v : list Z) (k : Z) :
  v ≠ [] → Forall (λ x, x = k) v → mean v = of_Z k.
Proof.
  intros Hne Hall.
  assert (Hv : v = replicate (length v) k).
  { symmetry. apply replicate_as_Forall. split; [done|].
    eapply Forall_impl; [exact Hall|]. by intros x ->. }
  unfold mean, of_nat. rewrite Hv at 1. rewrite zsum_replicate.
  assert (Hn : Z.of_nat (length v) ≠ 0) by (destruct v; [done | cbn; lia]).
  rewrite div_of_Z by done. unfold of_Z. f_equal.
  rewrite Z2Qc_inj_mul. field. by apply Qc_of_Z_ne_0.
Qed.

(** The sign of the deviation from the mean, for counts that are all the
    same. *)
Lemma sign_centered_constant (v : list Z) (k : Z) :
  Forall (λ x, x = k) v →
  map (λ x, sign (sub (of_Z x) (mean v))) v = replicate (length v) zero.
Proof.
  intros Hall. destruct (decide (v = [])) as [->|Hne]; [done|].
  rewrite (mean_constant v k Hne Hall). clear Hne.
  induction Hall as [|x v -> _ IH]; [done|]. cbn [map length replicate].
  f_equal; [|exact IH].
  unfold sub, of_Z, neg, add. rewrite Qcplus_opp_r. reflexivity.
Qed.

Lemma mul_zero_r (z : npfloat) :
  mul z zero = match z with Fin _ => zero | _ => NaN end.
Proof.
  destruct z as [q| | |]; try reflexivity.
  unfold mul, zero. f_equal. ring.
Qed.

Lemma vmul_zeros_r (zs : list npfloat) (n : nat) :
  length zs = n →
  vmul zs (replicate n zero) =
  map (λ z, match z with Fin _ => zero | _ => NaN end) zs.
Proof.
  intros <-. induction zs as [|z zs IH]; [done|].
  cbn [length replicate map]. unfold vmul in *. cbn [zip_with].
  by rewrite IH, mul_zero_r.
Qed.

Lemma count_cons (b : bool) (v : list bool) :
  count (b :: v) = (if b then 1 else 0) + count v.
Proof.
  unfold count. destruct b.
  - rewrite filter_cons_True by done. cbn [length]. lia.
  - by rewrite filter_cons_False by done.
Qed.

Lemma count_le_length (v : list bool) : 0 ≤ count v ≤ Z.of_nat (length v).
Proof.
  induction v as [|b v IH]; [done|]. rewrite count_cons. cbn [length].
  destruct b; lia.
Qed.

(** [df.loc[labels].values] has one row per label, for a duplicate-free
    index. *)
Lemma loc_values_rows (df : BoolFrame) (labels : list string)
    (arr : list (list bool)) :
  NoDup (bf_index df) → loc_values df labels = Ok arr →
  Forall (λ col, length col = length labels) arr.
Proof.
  intros Hnd Hloc. pose proof (loc_values_spec df labels) as Hin.
  rewrite Hloc in Hin. apply loc_values_Ok in Hloc as ->.
  apply Forall_fmap, Forall_true. intros col. unfold compose.
  rewrite length_map. clear col.
  induction Hin as [|l labels Hl _ IH]; [done|].
  cbn [map concat length]. rewrite length_app, IH, label_positions_length.
  by rewrite filter_eq_NoDup_length.
Qed.

Section DecoderValues.

Variable two_way : list (list (list Z)) → list npfloat.
Variable one_way : list Z → list Z → list npfloat.
Variable p_to_z : list npfloat → string → list npfloat.
Variable chdtrc : npfloat → npfloat → npfloat.
Variable multipletests : list npfloat → npfloat → string → multitest.

Local Abbreviation bm_run :=
  (brainmap_run two_way p_to_z chdtrc multipletests).
Local Abbreviation ns_run :=
  (neurosynth_run two_way one_way p_to_z chdtrc multipletests).

(** X12.  The forward z-value carries the sign of the deviation of a
    feature's number of selected studies from the mean over the features.
    So when that number is the same for all features, in particular when
    there is a single feature, every forward z-value of both decoders is
    0 (NaN where the z-value of the p-value is not finite), whatever the
    p-values are. *)
Theorem forward_z_vanishes_for_equal_counts (coordinates : Coordinates)
    (annotations : Annotations) (ids : list string)
    (ids2 features : option (list string)) (frequency_threshold u : npfloat)
    (prior : option npfloat) (correction : option string) (k : Z) :
  (∀ L, bm_run coordinates annotations ids ids2 features frequency_threshold
          u correction = Ok L →
        Forall (λ x, x = k) (bm_n_selected_term L) →
        zForward (bm_out_df L) =
          map (λ z, match z with Fin _ => zero | _ => NaN end)
              (p_to_z (bm_p_corr_fi L) "two")) ∧
  (∀ L, ns_run coordinates annotations ids ids2 features frequency_threshold
          prior u correction = Ok L →
        Forall (λ x, x = k) (ns_n_selected_term L) →
        zForward (ns_out_df L) =
          map (λ z, match z with Fin _ => zero | _ => NaN end)
              (p_to_z (ns_p_corr_fi L) "two")).
Proof.
  split; intros L H; run_inv H;
    cbn [bm_n_selected_term bm_out_df bm_p_corr_fi
         ns_n_selected_term ns_out_df ns_p_corr_fi];
    intros Hall;
    match goal with
    | Hout : out_frame _ _ _ _ _ _ _ = Ok _ |- _ =>
        apply out_frame_inv in Hout as [-> _]
    end;
    cbn [zForward];
    match goal with
    | Hz : vmul_checked (p_to_z _ "two") (map _ (map count _)) = Ok ?z |- ?z = _ =>
        rewrite (sign_centered_constant _ k Hall) in Hz;
        unfold vmul_checked in Hz;
        destruct (decide _) as [Hlen|] in Hz; [|discriminate Hz];
        injection Hz as <-;
        rewrite length_replicate in Hlen;
        by apply vmul_zeros_r
    end.
Qed.

(** The counts of studies, for an annotations table that lists every study
    once. *)
Lemma study_counts (features_df : BoolFrame) (labels : list string)
    (arr : list (list bool)) :
  NoDup (bf_index features_df) → loc_values features_df labels = Ok arr →
  Forall (λ k, 0 ≤ k ≤ Z.of_nat (length labels)) (map count arr) ∧
  Forall (λ k, 0 ≤ k) (zsub_from (Z.of_nat (length labels)) (map count arr)).
Proof.
  intros Hnd Hloc. pose proof (loc_values_rows _ _ _ Hnd Hloc) as Hrows.
  split.
  - apply Forall_fmap. eapply Forall_impl; [exact Hrows|].
    intros col Hcol. unfold compose. rewrite <- Hcol. apply count_le_length.
  - unfold zsub_from. apply Forall_fmap, Forall_fmap.
    eapply Forall_impl; [exact Hrows|].
    intros col Hcol. unfold compose. rewrite <- Hcol.
    pose proof (count_le_length col). lia.
Qed.

(** X13.  When the annotations table lists every study once, the counts of
    both decoders are proper counts: for every feature the number of
    selected (unselected) studies that show it lies between 0 and the
    number of selected (unselected) studies, so no cell of the 2 x 2 table
    handed to the chi-square test is negative. *)
Theorem study_counts_bounded (coordinates : Coordinates)
    (annotations : Annotations) (ids : list string)
    (ids2 features : option (list string)) (frequency_threshold u : npfloat)
    (prior : option npfloat) (correction : option string) :
  NoDup (ann_id annotations) →
  (∀ L, bm_run coordinates annotations ids ids2 features frequency_threshold
          u correction = Ok L →
        Forall (λ k, 0 ≤ k ≤ bm_n_selected L) (bm_n_selected_term L) ∧
        Forall (λ k, 0 ≤ k ≤ bm_n_unselected L) (bm_n_unselected_term L) ∧
        Forall (λ k, 0 ≤ k) (bm_n_selected_noterm L) ∧
        Forall (λ k, 0 ≤ k) (bm_n_unselected_noterm L)) ∧
  (∀ L, ns_run coordinates annotations ids ids2 features frequency_threshold
          prior u correction = Ok L →
        Forall (λ k, 0 ≤ k ≤ ns_n_selected L) (ns_n_selected_term L) ∧
        Forall (λ k, 0 ≤ k ≤ ns_n_unselected L) (ns_n_unselected_term L) ∧
        Forall (λ k, 0 ≤ k) (ns_n_selected_noterm L) ∧
        Forall (λ k, 0 ≤ k) (ns_n_unselected_noterm L)).
Proof.
  intros Hnd.
  split; intros L H; run_inv H;
    cbn [bm_n_selected bm_n_unselected bm_n_selected_term bm_n_unselected_term
         bm_n_selected_noterm bm_n_unselected_noterm
         ns_n_selected ns_n_unselected ns_n_selected_term ns_n_unselected_term
         ns_n_selected_noterm ns_n_unselected_noterm];
    match goal with
    | Hb : binarize _ _ _ = Ok ?df |- _ =>
        apply binarize_inv in Hb as [Hidx _]; rewrite <- Hidx in Hnd
    end;
    repeat match goal with
           | Hv : loc_values _ _ = Ok _ |- _ =>
               apply (study_counts _ _ _ Hnd) in Hv as [? ?]
           end;
    by split_and!.
Qed.

End DecoderValues.

(** ** Counts of foci *)

Lemma binarize_columns (annotations : Annotations) (features : list string)
    (frequency_threshold : npfloat) (features_df : BoolFrame) :
  Forall (λ c, length c.2 = length (ann_id annotations)) (ann_columns annotations) →
  binarize annotations features frequency_threshold = Ok features_df →
  Forall (λ col, length col = length (bf_index features_df))
         (bf_columns features_df).
Proof.
  intros Hwf. unfold binarize, mbind, result_bind.
  match goal with |- context [traverse ?f ?l] =>
    pose proof (traverse_spec f l) as H; destruct (traverse f l) as [cols|e] end;
    [|done].
  intros [= <-]. cbn [bf_columns bf_index].
  apply Forall_forall. intros col Hcol.
  apply list_elem_of_lookup_1 in Hcol as [i Hi].
  destruct (Forall2_lookup_r _ _ _ _ _ H Hi) as (f & _ & Hf). cbv beta in Hf.
  destruct (list_find _ _) as [[j c]|] eqn:Hfind; [|done].
  injection Hf as <-. rewrite length_map.
  apply list_find_Some in Hfind as (Hj & _ & _).
  apply list_elem_of_lookup_2 in Hj.
  by apply (proj1 (Forall_forall _ _) Hwf).
Qed.

Lemma elem_of_index_where (index : list string) (col : list bool) (b : bool)
    (x : string) :
  x ∈ index_where index col b ↔
  ∃ i, index !! i = Some x ∧ col !! i = Some b.
Proof.
  unfold index_where. revert col.
  induction index as [|l index IH]; intros [|c col]; cbn [zip_with concat].
  - split; [by intros ?%elem_of_nil | by intros (i & ? & _)].
  - split; [by intros ?%elem_of_nil | by intros (i & ? & _)].
  - split; [by intros ?%elem_of_nil | by intros (i & _ & ?)].
  - rewrite elem_of_app, IH. split.
    + intros [Hx | (i & Hi & Hc)].
      * destruct (decide (c = b)) as [->|]; [|by apply elem_of_nil in Hx].
        apply list_elem_of_singleton in Hx as ->. by exists 0%nat.
      * by exists (S i).
    + intros ([|i] & Hi & Hc); cbn in Hi, Hc.
      * injection Hi as ->. injection Hc as ->. left.
        rewrite decide_True by done. by apply list_elem_of_singleton.
      * right. by exists i.
Qed.

Lemma isin_sum_cons (x : string) (series values : list string) :
  isin_sum (x :: series) values =
  (if bool_decide (x ∈ values) then 1 else 0) + isin_sum series values.
Proof. unfold isin_sum. cbn [map]. apply count_cons. Qed.

Lemma isin_sum_bounds (series values : list string) :
  0 ≤ isin_sum series values ≤ Z.of_nat (length series).
Proof.
  unfold isin_sum. pose proof (count_le_length
    (map (λ x, bool_decide (x ∈ values)) series)) as H.
  by rewrite length_map in H.
Qed.

Lemma isin_sum_all (series values : list string) :
  Forall (λ x, x ∈ values) series →
  isin_sum series values = Z.of_nat (length series).
Proof.
  induction 1 as [|x series Hx _ IH]; [done|].
  rewrite isin_sum_cons, IH, bool_decide_eq_true_2 by done. cbn [length]. lia.
Qed.

(** The studies that show a feature and those that do not share the foci
    of the annotated studies between them. *)
Lemma isin_sum_partition (series index : list string) (col : list bool) :
  NoDup index → length col = length index →
  isin_sum series (index_where index col true) +
  isin_sum series (index_where index col false) = isin_sum series index.
Proof.
  intros Hnd Hlen. induction series as [|x series IH]; [done|].
  rewrite !isin_sum_cons. rewrite <- IH.
  assert ((if bool_decide (x ∈ index_where index col true) then 1 else 0) +
          (if bool_decide (x ∈ index_where index col false) then 1 else 0) =
          (if bool_decide (x ∈ index) then 1 else 0)); [|lia].
  destruct (decide (x ∈ index)) as [Hin|Hout].
  - rewrite (bool_decide_eq_true_2 (x ∈ index)) by done.
    apply list_elem_of_lookup_1 in Hin as [i Hi].
    destruct (col !! i) as [b|] eqn:Hb.
    2:{ apply lookup_ge_None in Hb. apply lookup_lt_Some in Hi. lia. }
    assert (Hother : x ∉ index_where index col (negb b)).
    { intros (j & Hj & Hc)%elem_of_index_where.
      rewrite (NoDup_lookup _ _ _ _ Hnd Hj Hi) in Hc. rewrite Hb in Hc.
      by destruct b. }
    assert (Hthis : x ∈ index_where index col b)
      by (apply elem_of_index_where; by exists i).
    destruct b; cbn [negb] in Hother;
      rewrite (bool_decide_eq_true_2 _ Hthis), (bool_decide_eq_false_2 _ Hother);
      lia.
  - rewrite (bool_decide_eq_false_2 (x ∈ index)) by done.
    rewrite !bool_decide_eq_false_2; [lia| |];
      intros (j & Hj & _)%elem_of_index_where;
      by apply list_elem_of_lookup_2 in Hj.
Qed.

Section FociCounts.

Variable two_way : list (list (list Z)) → list npfloat.
Variable p_to_z : list npfloat → string → list npfloat.
Variable chdtrc : npfloat → npfloat → npfloat.
Variable multipletests : list npfloat → npfloat → string → multitest.

Local Abbreviation bm_run :=
  (brainmap_run two_way p_to_z chdtrc multipletests).

(** X14.  In [brainmap_decode], for an annotations table that lists every
    study once, the foci of the annotated studies are split between those
    of the studies that show a feature and those of the studies that do
    not: for every feature n_term_foci + n_noterm_foci is the number of
    foci of annotated studies, which is at most the number of foci in the
    database, and equal to it when [ids2] is not given. *)
Theorem foci_counts_partition (coordinates : Coordinates)
    (annotations : Annotations) (ids : list string)
    (ids2 features : option (list string)) (frequency_threshold u : npfloat)
    (correction : option string) (L : BrainmapLocals) :
  NoDup (ann_id annotations) →
  Forall (λ c, length c.2 = length (ann_id annotations))
         (ann_columns annotations) →
  bm_run coordinates annotations ids ids2 features frequency_threshold
    u correction = Ok L →
  let annotated_foci := isin_sum (coord_id coordinates) (ann_id annotations) in
  length (bm_n_term_foci L) = length (bm_features L) ∧
  length (bm_n_noterm_foci L) = length (bm_features L) ∧
  (∀ i t n,
     bm_n_term_foci L !! i = Some t → bm_n_noterm_foci L !! i = Some n →
     0 ≤ t ∧ 0 ≤ n ∧ t + n = annotated_foci) ∧
  annotated_foci ≤ bm_n_foci_in_database L ∧
  (ids2 = None → annotated_foci = bm_n_foci_in_database L).
Proof.
  intros Hnd Hwf H annotated_foci. run_inv H.
  cbn [bm_n_term_foci bm_n_noterm_foci bm_features bm_n_foci_in_database].
  match goal with
  | Hb : binarize _ _ _ = Ok ?df |- _ =>
      pose proof (binarize_columns _ _ _ _ Hwf Hb) as Hcols;
      apply binarize_inv in Hb as [Hidx Hlen]
  end.
  rewrite Hidx in *. split_and!.
  - by rewrite length_map.
  - by rewrite length_map.
  - intros i t n Ht Hn. rewrite list_lookup_fmap in Ht, Hn.
    destruct (_ !! i) as [col|] eqn:Hcol; [|done].
    cbn in Ht, Hn. injection Ht as <-. injection Hn as <-.
    split; [apply isin_sum_bounds|]. split; [apply isin_sum_bounds|].
    apply isin_sum_partition; [done|].
    apply list_elem_of_lookup_2 in Hcol.
    by apply (proj1 (Forall_forall _ _) Hcols).
  - apply isin_sum_bounds.
  - intros ->. apply isin_sum_all.
    repeat match goal with
           | Hv : loc_values ?df ?l = Ok _ |- _ =>
               let Hs := fresh "Hs" in
               pose proof (loc_values_spec df l) as Hs; rewrite Hv in Hs;
               clear Hv
           end.
    rewrite Hidx in *.
    apply Forall_forall. intros x Hx.
    destruct (decide (x ∈ ids)) as [Hin|Hout].
    + match goal with
      | Hs : Forall _ ids |- _ => by apply (proj1 (Forall_forall _ _) Hs)
      end.
    + match goal with
      | Hs : Forall _ (sorted _) |- _ =>
          apply (proj1 (Forall_forall _ _) Hs); by apply complement_spec
      end.
Qed.

End FociCounts.

(** ** The range of the forward p-value *)

Lemma binom_pmf_nonneg (n i : nat) (p : Qc) :
  (0 ≤ p)%Qc → (p ≤ 1)%Qc → (0 ≤ binom_pmf n p i)%Qc.
Proof.
  intros H0 H1. unfold binom_pmf.
  repeat apply Qcmult_nonneg_nonneg.
  - apply Qc_of_Z_nonneg. lia.
  - by apply Qcpower_pos.
  - apply Qcpower_pos. by apply Qcle_minus_iff in H1.
Qed.

Lemma qsum_nonneg (v : list Qc) : Forall (λ q, 0 ≤ q)%Qc v → (0 ≤ qsum v)%Qc.
Proof.
  induction 1 as [|q v Hq _ IH]; cbn [qsum foldr]; [done|].
  by apply Qcplus_nonneg_nonneg.
Qed.

Lemma binom_range_nonneg (lo len n : nat) (p : Qc) :
  (0 ≤ p)%Qc → (p ≤ 1)%Qc → (0 ≤ binom_range lo len n p)%Qc.
Proof.
  intros H0 H1. unfold binom_range. apply qsum_nonneg, Forall_fmap, Forall_true.
  intros i. by apply binom_pmf_nonneg.
Qed.

(** One minus the cumulative probability is a probability. *)
Lemma binom_sf_range (k n : nat) (p : Qc) :
  (0 ≤ p)%Qc → (p ≤ 1)%Qc →
  (0 ≤ 1 - binom_cdf_exact k n p)%Qc ∧ (1 - binom_cdf_exact k n p ≤ 1)%Qc.
Proof.
  intros H0 H1. split.
  - rewrite binom_upper_tail. by apply binom_range_nonneg.
  - assert (Hc : (0 ≤ binom_cdf_exact k n p)%Qc)
      by by apply (binom_range_nonneg 0 (S k) n p).
    apply Qcle_minus_iff.
    replace (1 + - (1 - binom_cdf_exact k n p))%Qc
      with (binom_cdf_exact k n p) by ring.
    done.
Qed.

Section ForwardPValue.

Variable two_way : list (list (list Z)) → list npfloat.
Variable p_to_z : list npfloat → string → list npfloat.
Variable chdtrc : npfloat → npfloat → npfloat.
Variable multipletests : list npfloat → npfloat → string → multitest.

Local Abbreviation bm_run :=
  (brainmap_run two_way p_to_z chdtrc multipletests).

(** X15.  The raw forward p-values of [brainmap_decode].  When no more
    studies are selected than the database has foci, every one of them is
    a probability, a number between 0 and 1.  When more studies are
    selected than there are foci, p_selected exceeds 1 and every one of
    them is NaN; the features shown by at least 5 selected studies keep
    that NaN as the p-value handed to the correction. *)
Theorem forward_p_value_range (coordinates : Coordinates)
    (annotations : Annotations) (ids : list string)
    (ids2 features : option (list string)) (frequency_threshold u : npfloat)
    (correction : option string) (L : BrainmapLocals) :
  bm_run coordinates annotations ids ids2 features frequency_threshold
    u correction = Ok L →
  (bm_n_selected L ≤ bm_n_foci_in_database L →
   Forall (λ x, ∃ q, x = Fin q ∧ (0 ≤ q)%Qc ∧ (q ≤ 1)%Qc) (bm_p_fi_raw L)) ∧
  (bm_n_foci_in_database L < bm_n_selected L →
   Forall (λ x, x = NaN) (bm_p_fi_raw L) ∧
   ∀ i k, bm_n_selected_term L !! i = Some k → 5 ≤ k →
          bm_p_fi L !! i = Some NaN).
Proof.
  intros H. run_inv H.
  cbn [bm_n_selected bm_n_foci_in_database bm_p_fi_raw bm_p_fi
       bm_n_selected_term].
  match goal with
  | Ht : truediv _ _ = Ok _ |- _ => apply truediv_inv in Ht as [Hfoci ->]
  end.
  set (S := Z.of_nat (length ids)) in *.
  set (F := Z.of_nat (length (coord_id coordinates))) in *.
  assert (HS : 0 ≤ S) by (subst S; lia).
  assert (HF : 0 < F) by (subst F; lia).
  assert (Hraw : ∀ x, (∀ k n, 0 ≤ k → 0 ≤ n →
                         x (sub one (binom_cdf k n (Fin (Qc_of_Z S / Qc_of_Z F)%Qc)))) →
            ∀ sel cols idx,
            Forall x (map (sub one)
              (zip_with (λ k n, binom_cdf k n (Fin (Qc_of_Z S / Qc_of_Z F)%Qc))
                 (map count sel)
                 (map (λ col, isin_sum (coord_id coordinates)
                                (index_where idx col true)) cols)))).
  { intros x Hx sel cols idx. apply Forall_fmap. unfold compose.
    apply Forall_zip_with_2 with (P := λ k, 0 ≤ k) (Q := λ n, 0 ≤ n).
    - intros k n Hk Hn. by apply Hx.
    - apply Forall_fmap, Forall_true. intros col. apply count_nonneg.
    - apply Forall_fmap, Forall_true. intros col. apply isin_sum_bounds. }
  split.
  - intros Hle. apply Hraw. intros k n Hk Hn. unfold binom_cdf.
    assert (Hp0 : (0 ≤ Qc_of_Z S / Qc_of_Z F)%Qc) by by apply Qc_div_nonneg.
    assert (Hp1 : (Qc_of_Z S / Qc_of_Z F ≤ 1)%Qc).
    { apply (Qcmult_lt_0_le_reg_r _ _ (Qc_of_Z F)); [by apply Qc_of_Z_pos|].
      replace (Qc_of_Z S / Qc_of_Z F * Qc_of_Z F)%Qc with (Qc_of_Z S).
      2:{ field. apply Qc_of_Z_ne_0. lia. }
      rewrite Qcmult_1_l. apply (proj1 (Z2Qc_inj_le _ _)). lia. }
    rewrite (bool_decide_eq_true_2 (0 ≤ n)) by done.
    rewrite (bool_decide_eq_true_2 _ Hp0), (bool_decide_eq_true_2 _ Hp1).
    cbn [andb]. rewrite bool_decide_eq_false_2 by lia.
    eexists. split; [reflexivity|]. by apply binom_sf_range.
  - intros Hlt.
    assert (Hp1 : ¬ (Qc_of_Z S / Qc_of_Z F ≤ 1)%Qc).
    { intros Hle.
      apply (Qcmult_le_mono_nonneg_r _ _ (Qc_of_Z F)) in Hle;
        [|apply Qc_of_Z_nonneg; lia].
      replace (Qc_of_Z S / Qc_of_Z F * Qc_of_Z F)%Qc with (Qc_of_Z S) in Hle.
      2:{ field. apply Qc_of_Z_ne_0. lia. }
      rewrite Qcmult_1_l in Hle. apply (proj2 (Z2Qc_inj_le _ _)) in Hle. lia. }
    assert (Hnan : ∀ k n, sub one (binom_cdf k n (Fin (Qc_of_Z S / Qc_of_Z F)%Qc))
                          = NaN).
    { intros k n. unfold binom_cdf.
      rewrite (bool_decide_eq_false_2 _ Hp1). by rewrite !andb_false_r. }
    split.
    + apply Hraw. intros k n _ _. apply Hnan.
    + intros i k Hk H5.
      match goal with
      | Hm : mask_assign (map (sub one) ?zs) _ _ = Ok _ |- _ =>
          pose proof (Hraw (λ x, x = NaN) (λ k n _ _, Hnan k n) _ _ _ : Forall _ (map (sub one) zs)) as Hall;
          set (raw := map (sub one) zs) in *;
          pose proof Hm as Hlen; unfold mask_assign in Hlen;
          destruct (decide _) as [Hlen'|] in Hlen; [clear Hlen|discriminate Hlen];
          apply mask_assign_lookup in Hm as [_ Hm];
          rewrite (Hm i (bool_decide (k < 5)))
            by (by rewrite list_lookup_fmap, Hk)
      end.
      rewrite bool_decide_eq_false_2 by lia.
      destruct (raw !! i) as [x|] eqn:Hx.
      * apply list_elem_of_lookup_2 in Hx.
        by apply (proj1 (Forall_forall _ _) Hall) in Hx as ->.
      * apply lookup_ge_None in Hx. apply lookup_lt_Some in Hk.
        rewrite length_map in Hlen'. lia.
Qed.

End ForwardPValue.

(** ** Reverse effect sizes *)

(** Bayes' rule with the empirical prior, for one feature shown by [a]
    selected and [b] unselected studies out of [S] and [U]. *)
Lemma posterior_empirical_prior (S U a b : Z) :
  0 < a + b → 0 < (S - a) + (U - b) → 0 < S →
  div (mul (div (of_Z a) (of_Z (a + b)))
           (div (of_Z (a + b)) (of_Z ((a + b) + ((S - a) + (U - b))))))
      (Fin (Qc_of_Z S / Qc_of_Z (S + U))%Qc)
  = Fin (Qc_of_Z a / Qc_of_Z S)%Qc.
Proof.
  intros Ht Hn HS.
  rewrite !div_of_Z by lia.
  replace (a + b + (S - a + (U - b))) with (S + U) by lia.
  assert (Hab : Qc_of_Z (a + b) ≠ 0%Qc) by (apply Qc_of_Z_ne_0; lia).
  assert (Hsu : Qc_of_Z (S + U) ≠ 0%Qc) by (apply Qc_of_Z_ne_0; lia).
  assert (Hs : Qc_of_Z S ≠ 0%Qc) by (apply Qc_of_Z_ne_0; lia).
  unfold mul, div. rewrite decide_False.
  2:{ intros Hz. apply Hs.
      replace (Qc_of_Z S)
        with (Qc_of_Z S / Qc_of_Z (S + U) * Qc_of_Z (S + U))%Qc by (by field).
      rewrite Hz. ring. }
  f_equal. field. by repeat split.
Qed.

Lemma posterior_empirical_prior_lookup (S U : Z) (sel unsel : list Z) (i : nat)
    (a n_term n_noterm : Z) :
  let n_selected_noterm := zsub_from S sel in
  let n_unselected_noterm := zsub_from U unsel in
  let n_term_v := zadd sel unsel in
  let n_noterm_v := zadd n_selected_noterm n_unselected_noterm in
  let p_term := vdiv (floats n_term_v) (floats (zadd n_term_v n_noterm_v)) in
  let p_selected_g_term := vdiv (floats sel) (floats n_term_v) in
  let p_selected_g_noterm := vdiv (floats n_selected_noterm) (floats n_noterm_v) in
  let prior := broadcast (length p_selected_g_term) (Array p_term) in
  sel !! i = Some a →
  n_term_v !! i = Some n_term → n_noterm_v !! i = Some n_noterm →
  0 < n_term → 0 < n_noterm → 0 < S →
  vdiv (vmul p_selected_g_term prior)
       (vadd (vmul prior p_selected_g_term)
             (vmul (map (sub one) prior) p_selected_g_noterm)) !! i
  = Some (Fin (Qc_of_Z a / Qc_of_Z S)%Qc).
Proof.
  cbv zeta. intros Ha Ht Hn Htpos Hnpos HS.
  unfold vdiv at 1. rewrite lookup_zip_with.
  rewrite (mixture_empirical_prior_lookup S U sel unsel i n_term n_noterm)
    by done.
  revert Ht Hn. cbn [broadcast]. unfold vmul, vdiv, zadd, zsub_from, floats.
  repeat (rewrite lookup_zip_with || rewrite list_lookup_fmap). rewrite Ha.
  cbn [fmap option_fmap option_map mbind option_bind].
  destruct (unsel !! i) as [b|]; cbn [fmap option_fmap option_map
    mbind option_bind]; [|done].
  intros [= <-] [= <-]. f_equal. by apply posterior_empirical_prior.
Qed.

Lemma nonneg_mul (x y : npfloat) : nonneg x → nonneg y → nonneg (mul x y).
Proof.
  destruct x as [a| | |], y as [b| | |]; cbn; try done.
  - by apply Qcmult_nonneg_nonneg.
  - intros Ha _. by apply degenerate_nonneg, inf_signed_nonneg.
  - intros _ Hb. by apply degenerate_nonneg, inf_signed_nonneg.
Qed.

Lemma nonneg_div_Fin (x : npfloat) (p : Qc) :
  nonneg x → (0 ≤ p)%Qc → nonneg (div x (Fin p)).
Proof.
  destruct x as [a| | |]; cbn; try done.
  - intros Ha Hp. destruct (decide (p = 0%Qc)) as [->|Hne].
    + by apply degenerate_nonneg, inf_signed_nonneg.
    + cbn. apply Qcmult_nonneg_nonneg; [done|].
      apply Qclt_le_weak, Qcinv_pos.
      destruct (Qcle_lt_or_eq _ _ Hp) as [|Heq]; [done|]. by symmetry in Heq.
  - intros _ Hp. rewrite decide_False; [done|]. by apply Qcle_not_lt.
Qed.

Lemma qsum_ge_elem (qs : list Qc) (q : Qc) :
  Forall (λ q, 0 ≤ q)%Qc qs → q ∈ qs → (q ≤ qsum qs)%Qc.
Proof.
  induction 1 as [|q' qs Hq' Hqs IH]; intros Hin; [by apply elem_of_nil in Hin|].
  cbn [qsum foldr]. fold (qsum qs). apply elem_of_cons in Hin as [->|Hin].
  - rewrite <- (Qcplus_0_r q') at 1. apply Qcplus_le_mono_l.
    by apply qsum_nonneg.
  - rewrite <- (Qcplus_0_l q). apply Qcplus_le_compat; [done | by apply IH].
Qed.

(** A vector of finite values that are not negative, with a non-zero sum:
    divided by its sum, it consists of numbers between 0 and 1. *)
Lemma normalized_unit_interval (v : list npfloat) :
  Forall finite v → Forall nonneg v → sum v ≠ zero →
  Forall (λ x, ∃ q, x = Fin q ∧ (0 ≤ q)%Qc ∧ (q ≤ 1)%Qc) (sdiv v (sum v)).
Proof.
  intros Hfin Hnn Hsum. destruct (Forall_finite_inv v Hfin) as [qs ->].
  rewrite sum_map_Fin in *.
  assert (Hs : qsum qs ≠ 0%Qc) by (intros Hq; apply Hsum; by rewrite Hq).
  assert (Hqs : Forall (λ q, 0 ≤ q)%Qc qs).
  { apply Forall_forall. intros q Hq.
    apply (proj1 (Forall_forall _ _) Hnn (Fin q)).
    apply list_elem_of_fmap. by exists q. }
  assert (Hpos : (0 < qsum qs)%Qc).
  { destruct (Qcle_lt_or_eq _ _ (qsum_nonneg _ Hqs)) as [|Heq]; [done|].
    by symmetry in Heq. }
  unfold sdiv. rewrite map_map. apply Forall_fmap, Forall_forall.
  intros q Hq. unfold compose, div. rewrite decide_False by done.
  eexists. split; [reflexivity|]. split.
  - apply Qcmult_nonneg_nonneg; [by apply (proj1 (Forall_forall _ _) Hqs)|].
    by apply Qclt_le_weak, Qcinv_pos.
  - apply (Qcmult_lt_0_le_reg_r _ _ (qsum qs)); [done|].
    replace (q / qsum qs * qsum qs)%Qc with q by (by field).
    rewrite Qcmult_1_l. by apply qsum_ge_elem.
Qed.

Section ReverseEffects.

Variable two_way : list (list (list Z)) → list npfloat.
Variable one_way : list Z → list Z → list npfloat.
Variable p_to_z : list npfloat → string → list npfloat.
Variable chdtrc : npfloat → npfloat → npfloat.
Variable multipletests : list npfloat → npfloat → string → multitest.

Local Abbreviation bm_run :=
  (brainmap_run two_way p_to_z chdtrc multipletests).
Local Abbreviation ns_run :=
  (neurosynth_run two_way one_way p_to_z chdtrc multipletests).

(** X16.  Whenever [brainmap_decode] returns finite reverse effect sizes
    for a non-empty list of features, each of them is a number between 0
    and 1. *)
Theorem brainmap_reverse_effects_in_unit_interval (coordinates : Coordinates)
    (annotations : Annotations) (ids : list string)
    (ids2 features : option (list string)) (frequency_threshold u : npfloat)
    (correction : option string) (L : BrainmapLocals) :
  bm_run coordinates annotations ids ids2 features frequency_threshold
    u correction = Ok L →
  bm_features L ≠ [] →
  Forall finite (probReverse (bm_out_df L)) →
  Forall (λ x, ∃ q, x = Fin q ∧ (0 ≤ q)%Qc ∧ (q ≤ 1)%Qc)
         (probReverse (bm_out_df L)).
Proof.
  intros H. run_inv H. cbn [bm_features bm_out_df].
  match goal with
  | Hout : out_frame _ _ _ _ _ _ _ = Ok _ |- _ =>
      apply out_frame_inv in Hout as [-> Hlens]
  end.
  cbn [probReverse]. intros Hne Hfin.
  match goal with
  | Ht : truediv _ _ = Ok _ |- _ => apply truediv_inv in Ht as [Hfoci ->]
  end.
  apply normalized_finite_inv in Hfin as [Hraw Hsum].
  2:{ intros Hnil.
      do 5 (apply Forall_cons in Hlens as [_ Hlens]).
      apply Forall_cons in Hlens as [Hl _]. rewrite Hnil in Hl.
      apply Hne. symmetry in Hl. by apply nil_length_inv in Hl. }
  apply normalized_unit_interval; [exact Hraw | | exact Hsum].
  unfold sdiv at 1. apply Forall_fmap.
  eapply Forall_impl;
    [|intros x Hx; apply (nonneg_div_Fin x); [exact Hx | apply Qc_div_nonneg; lia]].
  apply (Forall_zip_with_2 nonneg nonneg); [apply nonneg_mul | |].
  - apply (Forall_zip_with_2 (λ x, ∃ k, 0 ≤ k ∧ x = of_Z k)
                             (λ x, ∃ k, 0 ≤ k ∧ x = of_Z k)).
    + intros x y (k & Hk & ->) (n & Hn & ->). by apply nonneg_div_of_Z.
    + unfold floats. apply Forall_fmap, Forall_fmap, Forall_true.
      intros col. eexists. split; [apply count_nonneg | done].
    + unfold floats. apply Forall_fmap, Forall_fmap, Forall_true.
      intros col. eexists. split; [apply isin_sum_bounds | done].
  - unfold sdiv, floats, zadd. apply Forall_fmap, Forall_fmap.
    apply (Forall_zip_with_2 (λ k, 0 ≤ k) (λ k, 0 ≤ k)).
    + intros x y Hx Hy. unfold compose.
      apply nonneg_div_of_Z; [lia | apply zsum_count_nonneg].
    + apply Forall_fmap, Forall_true. intros col. apply count_nonneg.
    + apply Forall_fmap, Forall_true. intros col. apply count_nonneg.
Qed.

(** X17.  In exact arithmetic: with [prior=None], the reverse effect size
    that [neurosynth_decode] returns for a feature shown by some and not
    shown by some of the compared studies is the share of the selected
    studies that show it, n_selected_term / n_selected, when a study is
    selected.  (In float64 the value can differ from it in the last place,
    see [empirical_prior_reverse_effect_in_float64].) *)
Theorem empirical_prior_reverse_effect_is_share (coordinates : Coordinates)
    (annotations : Annotations) (ids : list string)
    (ids2 features : option (list string)) (frequency_threshold u : npfloat)
    (correction : option string) (L : NeurosynthLocals) :
  ns_run coordinates annotations ids ids2 features frequency_threshold
    None u correction = Ok L →
  0 < ns_n_selected L →
  ∀ i a n_term n_noterm,
    ns_n_selected_term L !! i = Some a →
    ns_n_term L !! i = Some n_term → ns_n_noterm L !! i = Some n_noterm →
    0 < n_term → 0 < n_noterm →
    probReverse (ns_out_df L) !! i =
      Some (Fin (Qc_of_Z a / Qc_of_Z (ns_n_selected L))%Qc).
Proof.
  intros H. run_inv H.
  cbn [ns_n_selected ns_n_selected_term ns_n_term ns_n_noterm ns_out_df].
  match goal with
  | Hout : out_frame _ _ _ _ _ _ _ = Ok _ |- _ =>
      apply out_frame_inv in Hout as [-> _]
  end.
  cbn [probReverse].
  intros HS i k n_term n_noterm Hk Ht Hn Htpos Hnpos.
  by apply (posterior_empirical_prior_lookup _ _ _ _ i k n_term n_noterm).
Qed.

End ReverseEffects.

(** In float64, at the counts of the example (5 selected and 2 unselected
    studies), 'vision', shown by one selected study, gets the reverse
    effect size 0.19999999999999996, which is not the double 0.2. *)
Lemma empirical_prior_reverse_effect_in_float64 :
  (neurosynth_effects64 5 2 [5; 1; 0] [1; 1; 0] None).2 =
    [f64 1 1; f64 19999999999999996 100000000000000000; NaN] ∧
  f64 19999999999999996 100000000000000000 ≠ f64 1 5.
Proof. split; apply (bool_decide_unpack _); vm_compute; exact I. Qed.

(** ** The frequency threshold *)

Lemma binarize_Ok (annotations : Annotations) (features : list string)
    (frequency_threshold : npfloat) (features_df : BoolFrame) :
  binarize annotations features frequency_threshold = Ok features_df →
  bf_index features_df = ann_id annotations ∧
  bf_columns features_df =
    map (λ f, map (λ x, ge x frequency_threshold) (column_of annotations f))
        features.
Proof.
  unfold binarize, mbind, result_bind.
  destruct (traverse _ features) as [cols|] eqn:Hcols; [|done].
  intros [= <-]. split; [done|]. cbn [bf_columns].
  apply (traverse_Ok_map _
           (λ f, map (λ x, ge x frequency_threshold) (column_of annotations f)))
    in Hcols; [exact Hcols|].
  intros f col. unfold column_of.
  destruct (list_find _ _) as [[j c]|]; [|done]. by intros [= <-].
Qed.

Lemma count_antitone (v v' : list bool) :
  Forall2 (λ b b' : bool, b' = true → b = true) v v' → count v' ≤ count v.
Proof.
  induction 1 as [|b b' v v' Hb _ IH]; [done|]. rewrite !count_cons.
  destruct b'; [rewrite Hb by done|destruct b]; lia.
Qed.

(** The counts of studies under two thresholds, the second of which lets
    no more annotations pass than the first. *)
Lemma study_counts_antitone (annotations : Annotations)
    (features labels : list string) (t t' : npfloat) (df df' : BoolFrame)
    (arr arr' : list (list bool)) :
  (∀ x, ge x t' = true → ge x t = true) →
  binarize annotations features t = Ok df →
  binarize annotations features t' = Ok df' →
  loc_values df labels = Ok arr → loc_values df' labels = Ok arr' →
  Forall2 (λ k k', k' ≤ k) (map count arr) (map count arr').
Proof.
  intros Hge Hdf Hdf' Harr Harr'.
  apply binarize_Ok in Hdf as [Hidx Hcols], Hdf' as [Hidx' Hcols'].
  apply loc_values_Ok in Harr as ->. apply loc_values_Ok in Harr' as ->.
  rewrite Hidx, Hidx', Hcols, Hcols'. rewrite !map_map.
  apply Forall2_fmap, Forall2_same_length_lookup_2; [done|].
  intros i f f' Hf Hf'. rewrite Hf in Hf'. injection Hf' as <-.
  apply count_antitone, Forall2_fmap, Forall2_same_length_lookup_2; [done|].
  intros j p p' Hp Hp'. rewrite Hp in Hp'. injection Hp' as <-.
  rewrite !list_lookup_fmap.
  destruct (column_of annotations f !! p) as [x|]; cbn; [apply Hge | done].
Qed.

Section Threshold.

Variable two_way : list (list (list Z)) → list npfloat.
Variable one_way : list Z → list Z → list npfloat.
Variable p_to_z : list npfloat → string → list npfloat.
Variable chdtrc : npfloat → npfloat → npfloat.
Variable multipletests : list npfloat → npfloat → string → multitest.

Local Abbreviation bm_run :=
  (brainmap_run two_way p_to_z chdtrc multipletests).
Local Abbreviation ns_run :=
  (neurosynth_run two_way one_way p_to_z chdtrc multipletests).

(** X18.  Raising the frequency threshold never raises a count of
    studies: for two finite thresholds t <= t' and otherwise equal
    arguments, every feature is shown by at most as many selected, and by
    at most as many unselected, studies under t' as under t; in both
    decoders. *)
Theorem study_counts_antitone_in_threshold (coordinates : Coordinates)
    (annotations : Annotations) (ids : list string)
    (ids2 features : option (list string)) (t t' : Qc) (u : npfloat)
    (prior : option npfloat) (correction : option string) :
  (t ≤ t')%Qc →
  (∀ L L',
     bm_run coordinates annotations ids ids2 features (Fin t) u correction
       = Ok L →
     bm_run coordinates annotations ids ids2 features (Fin t') u correction
       = Ok L' →
     Forall2 (λ k k', k' ≤ k) (bm_n_selected_term L) (bm_n_selected_term L') ∧
     Forall2 (λ k k', k' ≤ k) (bm_n_unselected_term L)
             (bm_n_unselected_term L')) ∧
  (∀ L L',
     ns_run coordinates annotations ids ids2 features (Fin t) prior u
       correction = Ok L →
     ns_run coordinates annotations ids ids2 features (Fin t') prior u
       correction = Ok L' →
     Forall2 (λ k k', k' ≤ k) (ns_n_selected_term L) (ns_n_selected_term L') ∧
     Forall2 (λ k k', k' ≤ k) (ns_n_unselected_term L)
             (ns_n_unselected_term L')).
Proof.
  intros Hle.
  assert (Hge : ∀ x, ge x (Fin t') = true → ge x (Fin t) = true).
  { intros [q| | |]; cbn; try done. intros Hq%bool_decide_eq_true.
    apply bool_decide_eq_true. by etrans. }
  split; intros L L' H H'; run_inv H; run_inv H';
    cbn [bm_n_selected_term bm_n_unselected_term
         ns_n_selected_term ns_n_unselected_term];
    split;
    match goal with
    | |- Forall2 _ (map count ?arr) (map count ?arr') =>
        match goal with
        | Hb : binarize _ _ (Fin t) = Ok ?df,
          Hb' : binarize _ _ (Fin t') = Ok ?df',
          Ha : loc_values ?df ?l = Ok arr,
          Ha' : loc_values ?df' ?l = Ok arr' |- _ =>
            exact (study_counts_antitone _ _ _ _ _ _ _ _ _ Hge Hb Hb' Ha Ha')
        end
    end.
Qed.

End Threshold.

Lemma study_counts_antitone_in_threshold_witness :
  (∃ L L',
     ex_brainmap ex_coordinates None = Ok L ∧
     brainmap_run two_way_ones p_to_z_id chdtrc_id multipletests_id
       ex_coordinates ex_annotations ex_ids None None
       (Fin (Q2Qc (1 # 2))) default_u default_correction = Ok L' ∧
     bm_n_selected_term L = [5; 1; 0] ∧
     bm_n_selected_term L' = [3; 1; 0] ∧
     Forall2 (λ k k', k' ≤ k) (bm_n_selected_term L) (bm_n_selected_term L')) ∧
  (∃ L L',
     ex_neurosynth default_prior = Ok L ∧
     neurosynth_run two_way_ones one_way_ones p_to_z_id chdtrc_id
       multipletests_id ex_coordinates ex_annotations ex_ids None None
       (Fin (Q2Qc (1 # 2))) default_prior default_u default_correction
       = Ok L' ∧
     ns_n_selected_term L = [5; 1; 0] ∧
     ns_n_selected_term L' = [3; 1; 0] ∧
     Forall2 (λ k k', k' ≤ k) (ns_n_selected_term L) (ns_n_selected_term L')).
Proof.
  assert (Hle : (Q2Qc (1 # 1000) ≤ Q2Qc (1 # 2))%Qc) by (by vm_compute).
  split.
  - destruct (ex_brainmap ex_coordinates None) as [L|] eqn:E; [|run_eval E].
    destruct (brainmap_run two_way_ones p_to_z_id chdtrc_id multipletests_id
                ex_coordinates ex_annotations ex_ids None None
                (Fin (Q2Qc (1 # 2))) default_u default_correction)
      as [L'|] eqn:E'; [|run_eval E'].
    unfold ex_brainmap, default_frequency_threshold in E.
    destruct (proj1 (study_counts_antitone_in_threshold two_way_ones
                one_way_ones p_to_z_id chdtrc_id multipletests_id
                _ _ _ _ _ _ _ _ default_prior _ Hle) L L' E E') as [Hsel _].
    exists L, L'. split; [reflexivity|]. split; [reflexivity|].
    split; [run_eval E; reflexivity|]. split; [run_eval E'; reflexivity|].
    exact Hsel.
  - destruct (ex_neurosynth default_prior) as [L|] eqn:E; [|run_eval E].
    destruct (neurosynth_run two_way_ones one_way_ones p_to_z_id chdtrc_id
                multipletests_id ex_coordinates ex_annotations ex_ids None
                None (Fin (Q2Qc (1 # 2))) default_prior default_u
                default_correction) as [L'|] eqn:E'; [|run_eval E'].
    unfold ex_neurosynth, default_frequency_threshold in E.
    destruct (proj2 (study_counts_antitone_in_threshold two_way_ones
                one_way_ones p_to_z_id chdtrc_id multipletests_id
                _ _ _ _ _ _ _ _ _ _ Hle) L L' E E') as [Hsel _].
    exists L, L'. split; [reflexivity|]. split; [reflexivity|].
    split; [run_eval E; reflexivity|]. split; [run_eval E'; reflexivity|].
    exact Hsel.
Defined.

(** ** The further properties of the association decoders at the example *)


Lemma decoders_key_error_iff_unknown_witness :
  ex_brainmap_decode ex_coordinates ex_annotations ex_ids None
    (Some ["pain"; "colour"]) default_frequency_threshold default_u
    default_correction = Raise KeyError ∧
  ex_neurosynth_decode ex_coordinates ex_annotations ["s1"; "s9"] None None
    default_frequency_threshold default_prior default_u default_correction
    = Raise KeyError.
Proof.
  split.
  - apply (proj1 (decoders_key_error_iff_unknown two_way_ones one_way_ones
             p_to_z_id chdtrc_id multipletests_id _ _ _ _ _ _ _
             default_prior _)).
    intros (Hf & _ & _). apply Forall_cons in Hf as [_ Hf].
    apply Forall_cons in Hf as [Hf _]. revert Hf.
    apply (bool_decide_unpack _). vm_compute. exact I.
  - apply (proj2 (decoders_key_error_iff_unknown two_way_ones one_way_ones
             p_to_z_id chdtrc_id multipletests_id _ _ _ _ _ _ _ _ _)).
    intros (_ & Hi & _). apply Forall_cons in Hi as [_ Hi].
    apply Forall_cons in Hi as [Hi _]. revert Hi.
    apply (bool_decide_unpack _). vm_compute. exact I.
Defined.


Lemma brainmap_repeated_feature_raises_witness :
  ex_brainmap_decode ex_coordinates ex_annotations ex_ids None
    (Some ["pain"; "vision"; "pain"]) default_frequency_threshold default_u
    default_correction = Raise ValueError.
Proof.
  apply (proj1 (brainmap_repeated_feature_raises two_way_ones p_to_z_id
           chdtrc_id multipletests_id _ _ _ _ _ _ _ _)).
  - split_and!; apply (bool_decide_unpack _); vm_compute; exact I.
  - discriminate.
  - apply (bool_decide_unpack _). vm_compute. exact I.
Defined.

Lemma decoders_table_shape_witness :
  (∃ out,
     ex_brainmap_decode ex_coordinates ex_annotations ex_ids None None
       default_frequency_threshold default_u default_correction = Ok out ∧
     out_index out = ["pain"; "vision"; "memory"] ∧
     Forall (λ x, x ∈ ann_id ex_annotations) (coord_id ex_coordinates)) ∧
  (∃ out,
     ex_neurosynth_decode ex_coordinates ex_annotations ex_ids None None
       default_frequency_threshold default_prior default_u default_correction
       = Ok out ∧
     out_index out = ["pain"; "vision"; "memory"] ∧
     Forall (λ c, length c = 3%nat)
       [pForward out; zForward out; effectForward out;
        pReverse out; zReverse out; probReverse out]).
Proof.
  split.
  - destruct (ex_brainmap_decode ex_coordinates ex_annotations ex_ids None
                None default_frequency_threshold default_u default_correction)
      as [out|] eqn:E.
    + unfold ex_brainmap_decode in E.
      destruct (decoders_table_shape two_way_ones one_way_ones p_to_z_id
                  chdtrc_id multipletests_id _ _ _ _ _ _ _ default_prior _ _
                  (or_introl E)) as (_ & _ & Hnone & Hann).
      exists out. split; [reflexivity|]. split; [|by apply Hann].
      rewrite (Hnone eq_refl).
      apply (bool_decide_unpack _). vm_compute. exact I.
    + vm_compute in E. discriminate E.
  - destruct (ex_neurosynth_decode ex_coordinates ex_annotations ex_ids None
                None default_frequency_threshold default_prior default_u
                default_correction) as [out|] eqn:E.
    + unfold ex_neurosynth_decode in E.
      destruct (decoders_table_shape two_way_ones one_way_ones p_to_z_id
                  chdtrc_id multipletests_id _ _ _ _ _ _ default_u _ _ _
                  (or_intror E)) as (_ & Hcols & Hnone & _).
      assert (Hidx : out_index out = ["pain"; "vision"; "memory"]).
      { rewrite (Hnone eq_refl).
        apply (bool_decide_unpack _). vm_compute. exact I. }
      exists out. split; [reflexivity|]. split; [exact Hidx|].
      by rewrite Hidx in Hcols.
    + vm_compute in E. discriminate E.
Defined.

Lemma neurosynth_returns_when_known_witness :
  ∃ out,
    ex_neurosynth_decode (mk_Coordinates []) ex_annotations ex_ids
      (Some ["s6"; "s7"]) None default_frequency_threshold default_prior
      default_u default_correction = Ok out ∧
    out_index out = default_features ex_annotations.
Proof.
  apply (neurosynth_returns_when_known two_way_ones one_way_ones p_to_z_id
           chdtrc_id multipletests_id).
  - split_and!.
    + apply default_features_columns.
    + apply (bool_decide_unpack _). vm_compute. exact I.
    + apply (bool_decide_unpack _). vm_compute. exact I.
  - intros cells. apply length_map.
  - intros data ref. apply length_map.
  - reflexivity.
  - intros method [|x p] _ Hp; [discriminate Hp|]. by exists (x :: p).
Defined.

Lemma neurosynth_ignores_foci_witness :
  ex_neurosynth_decode ex_coordinates ex_annotations ex_ids None None
    default_frequency_threshold default_prior default_u default_correction =
  ex_neurosynth_decode
    (mk_Coordinates ["s7"; "s6"; "s5"; "s4"; "s3"; "s2"; "s1"])
    ex_annotations ex_ids None None
    default_frequency_threshold default_prior default_u default_correction.
Proof.
  apply (neurosynth_ignores_foci two_way_ones one_way_ones p_to_z_id
           chdtrc_id multipletests_id).
  intros _ x. cbn [coord_id ex_coordinates].
  split; intros H; repeat (apply elem_of_cons in H as [->|H]);
    try (by apply elem_of_nil in H);
    apply (bool_decide_unpack _); vm_compute; exact I.
Defined.

Lemma decoders_ids_order_irrelevant_witness :
  ex_brainmap_decode ex_coordinates ex_annotations ex_ids None None
    default_frequency_threshold default_u default_correction =
  ex_brainmap_decode ex_coordinates ex_annotations (reverse ex_ids) None None
    default_frequency_threshold default_u default_correction ∧
  ex_neurosynth_decode ex_coordinates ex_annotations ex_ids None None
    default_frequency_threshold default_prior default_u default_correction =
  ex_neurosynth_decode ex_coordinates ex_annotations (reverse ex_ids) None None
    default_frequency_threshold default_prior default_u default_correction.
Proof.
  apply (decoders_ids_order_irrelevant two_way_ones one_way_ones p_to_z_id
           chdtrc_id multipletests_id).
  - symmetry. apply reverse_Permutation.
  - exact I.
Defined.

Lemma forward_z_vanishes_for_equal_counts_witness :
  (∃ L, ex_brainmap ex_coordinates (Some ["pain"]) = Ok L ∧
        bm_n_selected_term L = [5] ∧
        zForward (bm_out_df L) = [zero]) ∧
  (∃ L, neurosynth_run two_way_ones one_way_ones p_to_z_id chdtrc_id
          multipletests_id ex_coordinates ex_annotations ex_ids None
          (Some ["pain"]) default_frequency_threshold default_prior default_u
          default_correction = Ok L ∧
        ns_n_selected_term L = [5] ∧
        zForward (ns_out_df L) = [zero]).
Proof.
  split.
  - destruct (ex_brainmap ex_coordinates (Some ["pain"])) as [L|] eqn:E.
    + unfold ex_brainmap in E.
      pose proof (proj1 (forward_z_vanishes_for_equal_counts two_way_ones
                    one_way_ones p_to_z_id chdtrc_id multipletests_id
                    _ _ _ _ _ _ _ default_prior _ 5) L E) as Hz.
      assert (Hk : bm_n_selected_term L = [5]) by (run_eval E; reflexivity).
      exists L. split; [reflexivity|]. split; [exact Hk|].
      rewrite Hz by (rewrite Hk; by repeat constructor).
      run_eval E. apply (bool_decide_unpack _). vm_compute. exact I.
    + run_eval E.
  - destruct (neurosynth_run two_way_ones one_way_ones p_to_z_id chdtrc_id
                multipletests_id ex_coordinates ex_annotations ex_ids None
                (Some ["pain"]) default_frequency_threshold default_prior
                default_u default_correction) as [L|] eqn:E.
    + pose proof (proj2 (forward_z_vanishes_for_equal_counts two_way_ones
                    one_way_ones p_to_z_id chdtrc_id multipletests_id
                    _ _ _ _ _ _ _ _ _ 5) L E) as Hz.
      assert (Hk : ns_n_selected_term L = [5]) by (run_eval E; reflexivity).
      exists L. split; [reflexivity|]. split; [exact Hk|].
      rewrite Hz by (rewrite Hk; by repeat constructor).
      run_eval E. apply (bool_decide_unpack _). vm_compute. exact I.
    + run_eval E.
Defined.

Lemma ex_annotations_NoDup : NoDup (ann_id ex_annotations).
Proof. apply (bool_decide_unpack _). vm_compute. exact I. Qed.

Lemma study_counts_bounded_witness :
  (∃ L, ex_brainmap ex_coordinates None = Ok L ∧
        bm_n_selected L = 5 ∧
        Forall (λ k, 0 ≤ k ≤ 5) (bm_n_selected_term L) ∧
        Forall (λ k, 0 ≤ k) (bm_n_selected_noterm L)) ∧
  (∃ L, ex_neurosynth default_prior = Ok L ∧
        ns_n_unselected L = 2 ∧
        Forall (λ k, 0 ≤ k ≤ 2) (ns_n_unselected_term L) ∧
        Forall (λ k, 0 ≤ k) (ns_n_unselected_noterm L)).
Proof.
  split.
  - destruct (ex_brainmap ex_coordinates None) as [L|] eqn:E.
    + unfold ex_brainmap in E.
      pose proof (proj1 (study_counts_bounded two_way_ones one_way_ones
                    p_to_z_id chdtrc_id multipletests_id _ _ _ _ _ _ _
                    default_prior _ ex_annotations_NoDup) L E)
        as (Hsel & _ & Hno & _).
      assert (HS : bm_n_selected L = 5) by (run_eval E; reflexivity).
      exists L. rewrite HS in Hsel. by split_and!.
    + run_eval E.
  - destruct (ex_neurosynth default_prior) as [L|] eqn:E.
    + unfold ex_neurosynth in E.
      pose proof (proj2 (study_counts_bounded two_way_ones one_way_ones
                    p_to_z_id chdtrc_id multipletests_id _ _ _ _ _ _ _
                    _ _ ex_annotations_NoDup) L E)
        as (_ & Hun & _ & Hno).
      assert (HU : ns_n_unselected L = 2) by (run_eval E; reflexivity).
      exists L. rewrite HU in Hun. by split_and!.
    + run_eval E.
Defined.

Lemma foci_counts_partition_witness :
  ∃ L, ex_brainmap ex_coordinates None = Ok L ∧
       bm_n_term_foci L = [8; 3; 0] ∧
       bm_n_noterm_foci L = [2; 7; 10] ∧
       bm_n_foci_in_database L = 10 ∧
       ∀ i t n,
         bm_n_term_foci L !! i = Some t → bm_n_noterm_foci L !! i = Some n →
         t + n = bm_n_foci_in_database L.
Proof.
  destruct (ex_brainmap ex_coordinates None) as [L|] eqn:E.
  - unfold ex_brainmap in E.
    assert (Hwf : Forall (λ c, length c.2 = length (ann_id ex_annotations))
                    (ann_columns ex_annotations)) by (by repeat constructor).
    pose proof (foci_counts_partition two_way_ones p_to_z_id chdtrc_id
                  multipletests_id _ _ _ _ _ _ _ _ L ex_annotations_NoDup
                  Hwf E) as (_ & _ & Hsum & _ & Hall).
    exists L.
    split; [reflexivity|].
    split; [run_eval E; reflexivity|].
    split; [run_eval E; reflexivity|].
    split; [run_eval E; reflexivity|].
    intros i t n Ht Hn. rewrite <- (Hall eq_refl). by apply (Hsum i t n).
  - run_eval E.
Defined.

Lemma forward_p_value_range_witness :
  (∃ L, ex_brainmap ex_coordinates None = Ok L ∧
        Forall (λ x, ∃ q, x = Fin q ∧ (0 ≤ q)%Qc ∧ (q ≤ 1)%Qc)
               (bm_p_fi_raw L)) ∧
  (∃ L, brainmap_run two_way_ones p_to_z_id chdtrc_id multipletests_id
          (mk_Coordinates ["s1"]) ex_annotations ex_ids (Some []) None
          default_frequency_threshold default_u default_correction = Ok L ∧
        bm_n_selected_term L !! 0%nat = Some 5 ∧
        Forall (λ x, x = NaN) (bm_p_fi_raw L) ∧
        bm_p_fi L !! 0%nat = Some NaN).
Proof.
  split.
  - destruct (ex_brainmap ex_coordinates None) as [L|] eqn:E.
    + unfold ex_brainmap in E.
      pose proof (proj1 (forward_p_value_range two_way_ones p_to_z_id
                    chdtrc_id multipletests_id _ _ _ _ _ _ _ _ L E)) as Hr.
      exists L. split; [reflexivity|]. apply Hr. run_eval E. by vm_compute.
    + run_eval E.
  - destruct (brainmap_run two_way_ones p_to_z_id chdtrc_id multipletests_id
                (mk_Coordinates ["s1"]) ex_annotations ex_ids (Some []) None
                default_frequency_threshold default_u default_correction)
      as [L|] eqn:E.
    + pose proof (proj2 (forward_p_value_range two_way_ones p_to_z_id
                    chdtrc_id multipletests_id _ _ _ _ _ _ _ _ L E)) as Hr.
      assert (Hk : bm_n_selected_term L !! 0%nat = Some 5)
        by (run_eval E; reflexivity).
      destruct Hr as [Hraw Hfi]; [run_eval E; by vm_compute|].
      exists L. split; [reflexivity|]. split; [exact Hk|].
      split; [exact Hraw|]. apply (Hfi 0%nat 5 Hk). lia.
    + run_eval E.
Defined.

Lemma brainmap_reverse_effects_in_unit_interval_witness :
  ∃ L, ex_brainmap ex_coordinates (Some ["pain"; "vision"]) = Ok L ∧
       Forall (λ x, ∃ q, x = Fin q ∧ (0 ≤ q)%Qc ∧ (q ≤ 1)%Qc)
              (probReverse (bm_out_df L)).
Proof.
  destruct (ex_brainmap ex_coordinates (Some ["pain"; "vision"]))
    as [L|] eqn:E.
  - unfold ex_brainmap in E.
    pose proof (brainmap_reverse_effects_in_unit_interval two_way_ones
                  p_to_z_id chdtrc_id multipletests_id _ _ _ _ _ _ _ _ L E)
      as Hr.
    exists L. split; [reflexivity|]. apply Hr.
    + run_eval E. discriminate.
    + run_eval E. repeat constructor; by eexists.
  - run_eval E.
Defined.

Lemma empirical_prior_reverse_effect_is_share_witness :
  ∃ L, ex_neurosynth None = Ok L ∧
       ns_n_selected L = 5 ∧
       ns_n_selected_term L = [5; 1; 0] ∧
       probReverse (ns_out_df L) !! 1%nat =
         Some (Fin (Qc_of_Z 1 / Qc_of_Z 5)%Qc).
Proof.
  destruct (ex_neurosynth None) as [L|] eqn:E.
  - unfold ex_neurosynth in E.
    pose proof (empirical_prior_reverse_effect_is_share two_way_ones
                  one_way_ones p_to_z_id chdtrc_id multipletests_id
                  _ _ _ _ _ _ _ _ L E) as Hr.
    assert (HS : ns_n_selected L = 5) by (run_eval E; reflexivity).
    assert (Hk : ns_n_selected_term L = [5; 1; 0]) by (run_eval E; reflexivity).
    assert (Ht : ns_n_term L !! 1%nat = Some 2) by (run_eval E; reflexivity).
    assert (Hn : ns_n_noterm L !! 1%nat = Some 5) by (run_eval E; reflexivity).
    exists L. split; [reflexivity|]. split; [exact HS|]. split; [exact Hk|].
    rewrite <- HS.
    apply (Hr ltac:(rewrite HS; lia) 1%nat 1 2 5);
      [by rewrite Hk | exact Ht | exact Hn | lia | lia].
  - run_eval E.
Defined.
